(** * TubeDrop: a shallow embedding of the download orchestration layer

    The development follows the Python sources:
    - [src/core/config.py]      the shared default configuration and the format tables,
    - [src/core/downloader.py]  [YouTubeDownloader],
    - [src/utils/helpers.py]    [load_json_file], [save_json_file], [SettingsManager],
    - [src/core/extras.py]      [FileManager] and [QualityAnalyzer].

    Python objects that are shared and mutated in place live in an explicit
    object store; the external engine (yt-dlp), the tag library (mutagen) and
    the file system are oracles passed as parameters. *)

From Stdlib Require Import ZArith QArith List Ascii String Lia Permutation Sorted.
From stdpp Require Import gmap strings list fin_maps.

Open Scope string_scope.
Open Scope list_scope.
Open Scope nat_scope.
Set Warnings "-register-all,-clear-no-such-hyp".

(** ** Python exceptions and results *)

Module Py.

(** The exception classes this code base meets.  All of them derive from
    [Exception]; interpreter signals that only derive from [BaseException]
    (KeyboardInterrupt, SystemExit) are no failures of a call and are not
    represented. *)
Inductive exn : Type :=
  | JSONDecodeError | UnicodeDecodeError | ValueError
  | KeyError | IndexError
  | FileNotFoundError | PermissionError | IsADirectoryError | OSError
  | AttributeError | TypeError
  | DownloadError.

Definition exn_eqb (a b : exn) : bool :=
  match a, b with
  | JSONDecodeError, JSONDecodeError | UnicodeDecodeError, UnicodeDecodeError
  | ValueError, ValueError | KeyError, KeyError | IndexError, IndexError
  | FileNotFoundError, FileNotFoundError | PermissionError, PermissionError
  | IsADirectoryError, IsADirectoryError | OSError, OSError
  | AttributeError, AttributeError | TypeError, TypeError
  | DownloadError, DownloadError => true
  | _, _ => false
  end.

(** The direct base class inside the part of the hierarchy that the
    [except] clauses of the sources name. *)
Definition base_class (e : exn) : option exn :=
  match e with
  | JSONDecodeError | UnicodeDecodeError => Some ValueError
  | FileNotFoundError | PermissionError | IsADirectoryError => Some OSError
  | _ => None
  end.

(** [issubclass e c] *)
Definition issubclass (e c : exn) : bool :=
  exn_eqb e c || match base_class e with Some b => exn_eqb b c | None => false end.

(** [except (c1, ..., cn):] catches [e] *)
Definition caught_by (handlers : list exn) (e : exn) : bool :=
  existsb (issubclass e) handlers.

Inductive result (A : Type) : Type :=
  | Ok (a : A)
  | Raise (e : exn).
Arguments Ok {A} a.
Arguments Raise {A} e.

(** JSON documents as [json.load] returns them: [None], [bool], [int],
    [str], [list], [dict].  Numbers with a fractional part are floats in
    Python and are not represented. *)
Inductive json : Type :=
  | JNull
  | JBool (b : bool)
  | JInt (z : Z)
  | JStr (s : string)
  | JList (l : list json)
  | JDict (d : list (string * json)).

(** Python truth value of a JSON value ([if v:]). *)
Definition truthy (v : json) : bool :=
  match v with
  | JNull => false
  | JBool b => b
  | JInt z => negb (z =? 0)%Z
  | JStr s => negb (String.eqb s "")
  | JList l => match l with [] => false | _ => true end
  | JDict d => match d with [] => false | _ => true end
  end.

(** [d.get(k)] on the pairs of a parsed object: [json.load] keeps the last
    of several members with one name. *)
Fixpoint dict_get (d : list (string * json)) (k : string) : option json :=
  match d with
  | [] => None
  | (k', v) :: rest =>
      match dict_get rest k with
      | Some w => Some w
      | None => if String.eqb k' k then Some v else None
      end
  end.

(** [s.endswith(suf)] *)
Definition endswith (s suf : string) : bool :=
  (String.length suf <=? String.length s)%nat
  && String.eqb (substring (String.length s - String.length suf) (String.length suf) s) suf.

End Py.
Import Py.

(** ** src/core/config.py *)

Module Config.

(** Values stored in an option dictionary.  Lists and dictionaries are
    objects of the store and are held by reference, as in Python. *)
Inductive value : Type :=
  | VStr (s : string)
  | VBool (b : bool)
  | VRef (l : nat)
  | VHook.           (* the downloader's ProgressHook object *)

Inductive obj : Type :=
  | ODict (d : gmap string value)
  | OList (l : list value).

(** The object store: a location is an index, allocation appends. *)
Abbreviation heap := (list obj).

Definition alloc (o : obj) (h : heap) : nat * heap := (length h, h ++ [o]).

(** Module level objects of config.py, in allocation order. *)
Definition loc_pp0 : nat := 0.
Definition loc_pp1 : nat := 1.
Definition loc_pp2 : nat := 2.
Definition loc_postprocessors : nat := 3.
Definition DEFAULT_DOWNLOAD_CONFIG : nat := 4.

Definition default_pp0 : gmap string value :=
  <["key" := VStr "FFmpegExtractAudio"]>
  (<["preferredcodec" := VStr "mp3"]>
  (<["preferredquality" := VStr "192"]> ∅)).

Definition default_config (downloads_dir : string) : gmap string value :=
  <["outtmpl" := VStr (downloads_dir +:+ "/%(uploader)s/%(title)s.%(ext)s")]>
  (<["format" := VStr "bestaudio/best"]>
  (<["postprocessors" := VRef loc_postprocessors]>
  (<["writethumbnail" := VBool true]>
  (<["writeinfojson" := VBool true]>
  (<["noplaylist" := VBool false]>
  (<["ignoreerrors" := VBool true]>
  (<["overwrites" := VBool false]> ∅))))))).

(** The store right after [import config]. *)
Definition initial_heap (downloads_dir : string) : heap :=
  [ ODict default_pp0;
    ODict (<["key" := VStr "EmbedThumbnail"]> ∅);
    ODict (<["key" := VStr "FFmpegMetadata"]> ∅);
    OList [VRef loc_pp0; VRef loc_pp1; VRef loc_pp2];
    ODict (default_config downloads_dir) ].

Definition AUDIO_FORMATS : gmap string (string * string) :=
  <["mp3" := ("mp3", "192")]>
  (<["flac" := ("flac", "best")]>
  (<["wav" := ("wav", "best")]>
  (<["m4a" := ("m4a", "192")]>
  (<["ogg" := ("ogg", "192")]> ∅)))).

Definition VIDEO_FORMATS : gmap string string :=
  <["mp4" := "best[ext=mp4]"]>
  (<["webm" := "best[ext=webm]"]>
  (<["mkv" := "best[ext=mkv]"]>
  (<["avi" := "best[ext=avi]"]> ∅))).

Definition VIDEO_QUALITIES : gmap string string :=
  <["144p" := "worst[height<=144]"]>
  (<["240p" := "best[height<=240]"]>
  (<["360p" := "best[height<=360]"]>
  (<["480p" := "best[height<=480]"]>
  (<["720p" := "best[height<=720]"]>
  (<["1080p" := "best[height<=1080]"]>
  (<["1440p" := "best[height<=1440]"]>
  (<["2160p" := "best[height<=2160]"]>
  (<["Mejor" := "best"]> ∅)))))))).

End Config.
Import Config.

(** ** A state and error monad over the object store *)

Module HeapM.

Definition M (A : Type) : Type := heap → result A * heap.

Definition ret {A} (a : A) : M A := λ h, (Ok a, h).
Definition raise {A} (e : exn) : M A := λ h, (Raise e, h).
Definition bind {A B} (m : M A) (f : A → M B) : M B :=
  λ h, match m h with
       | (Ok a, h') => f a h'
       | (Raise e, h') => (Raise e, h')
       end.

Declare Scope heap_scope.
Delimit Scope heap_scope with heapM.
Notation "'let!' x ':=' m 'in' k" := (bind m (λ x, k))
  (at level 10, x name, m at level 100, k at level 200) : heap_scope.
Notation "m '>>' k" := (bind m (λ _, k))
  (at level 100, k at level 200, right associativity) : heap_scope.
Open Scope heap_scope.

(** [dict(...)] / [[...]] literal *)
Definition new (o : obj) : M nat := λ h, let (l, h') := alloc o h in (Ok l, h').

(** [d.copy()]: a new dictionary with the same values; nested objects are
    shared, not copied. *)
Definition dict_copy (l : nat) : M nat :=
  λ h, match h !! l with
       | Some (ODict d) => new (ODict d) h
       | _ => (Raise AttributeError, h)
       end.

(** [v[k] = x] where [v] should be a dictionary *)
Definition dict_setitem (v : value) (k : string) (x : value) : M unit :=
  λ h, match v with
       | VRef l =>
           match h !! l with
           | Some (ODict d) => (Ok tt, <[l := ODict (<[k := x]> d)]> h)
           | _ => (Raise TypeError, h)
           end
       | _ => (Raise TypeError, h)
       end.

(** [v[k]] for a string key *)
Definition dict_getitem (v : value) (k : string) : M value :=
  λ h, match v with
       | VRef l =>
           match h !! l with
           | Some (ODict d) =>
               match d !! k with
               | Some x => (Ok x, h)
               | None => (Raise KeyError, h)
               end
           | _ => (Raise TypeError, h)
           end
       | _ => (Raise TypeError, h)
       end.

(** [v[i]] for a list index *)
Definition list_getitem (v : value) (i : nat) : M value :=
  λ h, match v with
       | VRef l =>
           match h !! l with
           | Some (OList xs) =>
               match xs !! i with
               | Some x => (Ok x, h)
               | None => (Raise IndexError, h)
               end
           | Some (ODict _) => (Raise KeyError, h)
           | None => (Raise TypeError, h)
           end
       | _ => (Raise TypeError, h)
       end.

(** Reading along a path of keys and indices, without effect. *)
Fixpoint lookup_path (h : heap) (v : value) (p : list (string + nat)) : option value :=
  match p with
  | [] => Some v
  | step :: rest =>
      match v with
      | VRef l =>
          match h !! l, step with
          | Some (ODict d), inl k =>
              match d !! k with Some x => lookup_path h x rest | None => None end
          | Some (OList xs), inr i =>
              match xs !! i with Some x => lookup_path h x rest | None => None end
          | _, _ => None
          end
      | _ => None
      end
  end.

End HeapM.
Import HeapM.

(** ** src/core/downloader.py *)

Module Downloader.

(** [ProgressHook]: the fields the orchestration reads and writes. *)
Record ProgressHook : Type := {
  has_callback : bool;
  total_files : nat;
  completed_files : nat
}.

(** An entry of a collection, as the engine's info lookup yields it: a
    dictionary.  [entry_other] says that the dictionary holds something
    that the two reads do not show: another key, or [id] or [title] with
    the value [None]. *)
Record entry : Type := {
  entry_id : option string;      (* entry.get('id') *)
  entry_title : option string;   (* entry.get('title') *)
  entry_other : bool
}.

(** [if e] for an entry that is a dictionary: only the empty one is falsy. *)
Definition entry_truthy (e : entry) : bool :=
  match entry_id e, entry_title e with
  | None, None => entry_other e
  | _, _ => true
  end.

(** [if e] for an item of [entries]; [None] is falsy. *)
Definition item_truthy (item : option entry) : bool :=
  match item with
  | Some e => entry_truthy e
  | None => false
  end.

(** The info dictionary of [extract_info]: [title] and [entries] are the
    keys this layer reads; either may be missing.  The dictionary carries
    further keys of the engine (id, webpage_url, ...), so it is never the
    empty, falsy dictionary.  An unavailable item of a collection is [None]. *)
Record info : Type := {
  info_title : option string;
  info_entries : option (list (option entry))
}.

(** What reading one sidecar ([open] followed by [json.load]) does. *)
Inductive sidecar : Type :=
  | ReadFails (e : exn)
  | Parsed (doc : json).

(** One call of the engine, seen from this layer: whether it raised, and
    whether another thread called [cancel_current_download] while the
    call was in flight or right after it returned. *)
Record engine_event : Type := {
  ev_raises : option exn;
  ev_cancel : bool
}.

(** The external collaborators. *)
Record world : Type := {
  (* [ydl.extract_info(url, download=False)], which may also return [None],
     and whether a cancel request arrives while it runs *)
  extract_info : string → result (option info) * bool;
  (* [yt_dlp.utils.sanitize_filename] *)
  sanitize_filename : string → string;
  (* [yt_dlp.YoutubeDL(options)]: the exception of the constructor, if any *)
  ydl_new : option exn;
  (* [ydl.download([url])], by the number of earlier download calls *)
  ydl_download : nat → string → engine_event;
  (* the directories that exist, with their entries in scan order *)
  listdir : string → option (list (string * sidecar))
}.

(** The downloader instance together with the store and a record of the
    URLs handed to [ydl.download]. *)
Record state : Type := {
  objects : heap;
  base_path : string;
  progress_hook : option ProgressHook;
  is_downloading : bool;
  cancel_download : bool;
  engine_calls : list string
}.

Definition set_objects (h : heap) (s : state) : state :=
  {| objects := h; base_path := base_path s; progress_hook := progress_hook s;
     is_downloading := is_downloading s; cancel_download := cancel_download s;
     engine_calls := engine_calls s |}.

Definition set_progress_hook (p : option ProgressHook) (s : state) : state :=
  {| objects := objects s; base_path := base_path s; progress_hook := p;
     is_downloading := is_downloading s; cancel_download := cancel_download s;
     engine_calls := engine_calls s |}.

Definition set_is_downloading (b : bool) (s : state) : state :=
  {| objects := objects s; base_path := base_path s; progress_hook := progress_hook s;
     is_downloading := b; cancel_download := cancel_download s;
     engine_calls := engine_calls s |}.

Definition set_cancel_download (b : bool) (s : state) : state :=
  {| objects := objects s; base_path := base_path s; progress_hook := progress_hook s;
     is_downloading := is_downloading s; cancel_download := b;
     engine_calls := engine_calls s |}.

Definition record_call (url : string) (s : state) : state :=
  {| objects := objects s; base_path := base_path s; progress_hook := progress_hook s;
     is_downloading := is_downloading s; cancel_download := cancel_download s;
     engine_calls := engine_calls s ++ [url] |}.

(** [YouTubeDownloader.__init__] *)
Definition init (downloads_dir base : string) : state :=
  {| objects := initial_heap downloads_dir; base_path := base;
     progress_hook := None; is_downloading := false; cancel_download := false;
     engine_calls := [] |}.

(** [cancel_current_download] *)
Definition cancel_current_download (s : state) : state :=
  set_cancel_download true s.

(** A cancel request of another thread, when one arrives. *)
Definition deliver_cancel (requested : bool) (s : state) : state :=
  if requested then cancel_current_download s else s.

(** [get_video_info] *)
Definition get_video_info (w : world) (url : string) (s : state) : option info * state :=
  let '(r, c) := extract_info w url in
  match r with
  | Ok i => (i, deliver_cancel c s)
  | Raise _ => (None, deliver_cancel c s)
  end.

(** *** [_get_downloaded_ids] *)

(** Members of the identifier set: Python hashes a [str] by content and
    [True] like [1]. *)
Abbreviation id_key := (string + Z)%type.

(** [downloaded_ids.add(v)]: lists and dictionaries are unhashable.  The
    scan calls it for truthy values only, so [None], [False] and [0] never
    reach the set. *)
Definition hash_key (v : json) : result id_key :=
  match v with
  | JStr s => Ok (inl s)
  | JInt z => Ok (inr z)
  | JBool b => Ok (inr (if b then 1 else 0)%Z)
  | JNull => Ok (inr 0%Z)
  | JList _ | JDict _ => Raise TypeError
  end.

(** [data.get('id')] on whatever [json.load] returned. *)
Definition get_id (data : json) : result (option json) :=
  match data with
  | JDict d => Ok (dict_get d "id")
  | _ => Raise AttributeError
  end.

(** The body of the [try] for one sidecar. *)
Definition scan_one (f : sidecar) (ids : gset id_key) : result (gset id_key) :=
  match f with
  | ReadFails e => Raise e
  | Parsed data =>
      match get_id data with
      | Raise e => Raise e
      | Ok None => Ok ids
      | Ok (Some video_id) =>
          if truthy video_id then
            match hash_key video_id with
            | Ok k => Ok ({[k]} ∪ ids)
            | Raise e => Raise e
            end
          else Ok ids
      end
  end.

Definition scan_handlers : list exn := [JSONDecodeError; KeyError; FileNotFoundError].

Fixpoint scan_loop (files : list sidecar) (ids : gset id_key) : result (gset id_key) :=
  match files with
  | [] => Ok ids
  | f :: rest =>
      match scan_one f ids with
      | Ok ids' => scan_loop rest ids'
      | Raise e => if caught_by scan_handlers e then scan_loop rest ids else Raise e
      end
  end.

(** [folder_path.glob("*.info.json")] *)
Definition glob_info_json (entries : list (string * sidecar)) : list sidecar :=
  map snd (filter (λ e, Is_true (endswith (fst e) ".info.json")) entries).

Definition _get_downloaded_ids (w : world) (folder_path : string) : result (gset id_key) :=
  match listdir w folder_path with
  | None => Ok ∅
  | Some entries => scan_loop (glob_info_json entries) ∅
  end.

(** *** [_build_download_options] *)

Definition str_truthy (s : option string) : bool :=
  match s with
  | Some t => negb (String.eqb t "")
  | None => false
  end.

(** [if output_path: options['outtmpl'] = ...] *)
Definition set_output_template (options : value) (output_path : option string)
    (playlist_mode : bool) : M unit :=
  if str_truthy output_path then
    let p := default "" output_path in
    if playlist_mode
    then dict_setitem options "outtmpl" (VStr (p +:+ "/%(playlist_title)s/%(title)s.%(ext)s"))
    else dict_setitem options "outtmpl" (VStr (p +:+ "/%(title)s.%(ext)s"))
  else ret tt.

(** [if output_format in AUDIO_FORMATS: ... elif output_format in VIDEO_FORMATS: ...] *)
Definition set_output_format (options : value) (output_format quality : string) : M unit :=
  match AUDIO_FORMATS !! output_format, VIDEO_FORMATS !! output_format with
  | Some _, _ =>
      dict_setitem options "format" (VStr "bestaudio/best") >>
      (let! pps := dict_getitem options "postprocessors" in
       let! pp := list_getitem pps 0 in
       dict_setitem pp "preferredcodec" (VStr output_format)) >>
      (let! pps := dict_getitem options "postprocessors" in
       let! pp := list_getitem pps 0 in
       dict_setitem pp "preferredquality" (VStr quality))
  | None, Some selector =>
      dict_setitem options "format" (VStr selector) >>
      let! a := new (ODict (<["key" := VStr "EmbedThumbnail"]> ∅)) in
      let! b := new (ODict (<["key" := VStr "FFmpegMetadata"]> ∅)) in
      let! l := new (OList [VRef a; VRef b]) in
      dict_setitem options "postprocessors" (VRef l)
  | None, None => ret tt
  end.

(** [if self.progress_hook: options['progress_hooks'] = [self.progress_hook]] *)
Definition add_progress_hook (options : value) (hook : option ProgressHook) : M unit :=
  match hook with
  | Some _ =>
      let! l := new (OList [VHook]) in
      dict_setitem options "progress_hooks" (VRef l)
  | None => ret tt
  end.

Definition _build_download_options (hook : option ProgressHook)
    (output_format quality : string) (output_path : option string)
    (playlist_mode : bool) : M value :=
  let! o := dict_copy DEFAULT_DOWNLOAD_CONFIG in
  let options := VRef o in
  set_output_template options output_path playlist_mode >>
  set_output_format options output_format quality >>
  add_progress_hook options hook >>
  ret options.

(** Running a store computation inside the downloader state. *)
Definition lift {A} (m : M A) (s : state) : result A * state :=
  let '(r, h) := m (objects s) in (r, set_objects h s).

(** [ydl.download([url])] *)
Definition engine_download (w : world) (url : string) (s : state) : result unit * state :=
  let ev := ydl_download w (length (engine_calls s)) url in
  let s' := deliver_cancel (ev_cancel ev) (record_call url s) in
  match ev_raises ev with
  | Some e => (Raise e, s')
  | None => (Ok tt, s')
  end.

(** [with yt_dlp.YoutubeDL(options) as ydl:] *)
Definition open_engine (w : world) (s : state) : result unit * state :=
  match ydl_new w with
  | Some e => (Raise e, s)
  | None => (Ok tt, s)
  end.

(** [try: ... except Exception: return False  finally: is_downloading = False] *)
Definition guarded (body : state → result bool * state) (s : state) : result bool * state :=
  let '(r, s') := body s in
  let s'' := set_is_downloading false s' in
  match r with
  | Ok b => (Ok b, s'')
  | Raise e => (Ok false, s'')
  end.

(** *** [download_single_video] *)

Definition download_single_video_body (w : world) (url output_format quality : string)
    (output_path : option string) (s0 : state) : result bool * state :=
  let s1 := set_cancel_download false (set_is_downloading true s0) in
  let out := if str_truthy output_path then output_path else Some (base_path s1) in
  match lift (_build_download_options (progress_hook s1) output_format quality out false) s1 with
  | (Raise e, s2) => (Raise e, s2)
  | (Ok options, s2) =>
      match open_engine w s2 with
      | (Raise e, s3) => (Raise e, s3)
      | (Ok _, s3) =>
          match engine_download w url s3 with
          | (Raise e, s4) => (Raise e, s4)
          | (Ok _, s4) => (Ok true, s4)
          end
      end
  end.

Definition download_single_video (w : world) (url output_format quality : string)
    (output_path : option string) : state → result bool * state :=
  guarded (download_single_video_body w url output_format quality output_path).

(** *** [download_playlist] *)

(** [video_id not in downloaded_ids], negated; [None] is hashable and is
    never a member, the scan adds truthy values only. *)
Definition id_in (video_id : option string) (ids : gset id_key) : bool :=
  match video_id with
  | Some v => bool_decide (inl v ∈ ids)
  | None => false
  end.

(** [f"https://www.youtube.com/watch?v={video_id}"] *)
Definition watch_url (video_id : option string) : string :=
  "https://www.youtube.com/watch?v=" +:+ default "None" video_id.

(** The loop that fills [urls_to_download]. *)
Fixpoint candidate_urls (skip_existing : bool) (ids : gset id_key)
    (entries : list (option entry)) : list string :=
  match entries with
  | [] => []
  | None :: rest => candidate_urls skip_existing ids rest
  | Some e :: rest =>
      let video_id := entry_id e in
      if negb skip_existing || negb (id_in video_id ids)
      then watch_url video_id :: candidate_urls skip_existing ids rest
      else candidate_urls skip_existing ids rest
  end.

(** [for url_to_download in urls_to_download: if self.cancel_download: break ...] *)
Fixpoint download_loop (w : world) (urls : list string) (s : state) : result unit * state :=
  match urls with
  | [] => (Ok tt, s)
  | url_to_download :: rest =>
      if cancel_download s then (Ok tt, s)
      else
        match engine_download w url_to_download s with
        | (Raise e, s') => (Raise e, s')
        | (Ok _, s') => download_loop w rest s'
        end
  end.

(** [len([e for e in entries if e])], then [completed_files = 0] *)
Definition reset_hook (entries : list (option entry)) (s : state) : state :=
  match progress_hook s with
  | Some hk =>
      set_progress_hook
        (Some {| has_callback := has_callback hk;
                 total_files := length (filter (λ e, Is_true (item_truthy e)) entries);
                 completed_files := 0 |}) s
  | None => s
  end.

(** [Path(output_path) / safe_title] *)
Definition join_path (dir name : string) : string := dir +:+ "/" +:+ name.

(** [output_path], after [if not output_path: output_path = str(self.base_path)] *)
Definition effective_output (output_path : option string) (s : state) : string :=
  if str_truthy output_path then default "" output_path else base_path s.

(** [safe_title] *)
Definition safe_title (w : world) (playlist_info : info) : string :=
  sanitize_filename w (default "Playlist" (info_title playlist_info)).

(** [info.get('entries', [])] *)
Definition entries_of (playlist_info : info) : list (option entry) :=
  default [] (info_entries playlist_info).

Definition download_playlist_body (w : world) (url output_format quality : string)
    (output_path : option string) (skip_existing : bool) (s0 : state)
    : result bool * state :=
  let s1 := set_cancel_download false (set_is_downloading true s0) in
  match get_video_info w url s1 with
  | (None, s2) => (Ok false, s2)
  | (Some playlist_info, s2) =>
      let out := effective_output output_path s2 in
      let playlist_folder := join_path out (safe_title w playlist_info) in
      let entries := entries_of playlist_info in
      let s3 := reset_hook entries s2 in
      match (if skip_existing then _get_downloaded_ids w playlist_folder else Ok ∅) with
      | Raise e => (Raise e, s3)
      | Ok downloaded_ids =>
          let urls_to_download := candidate_urls skip_existing downloaded_ids entries in
          match urls_to_download with
          | [] => (Ok true, s3)
          | _ :: _ =>
              match lift (_build_download_options (progress_hook s3) output_format
                            quality (Some out) true) s3 with
              | (Raise e, s4) => (Raise e, s4)
              | (Ok options, s4) =>
                  match open_engine w s4 with
                  | (Raise e, s5) => (Raise e, s5)
                  | (Ok _, s5) =>
                      match download_loop w urls_to_download s5 with
                      | (Raise e, s6) => (Raise e, s6)
                      | (Ok _, s6) => (Ok (negb (cancel_download s6)), s6)
                      end
                  end
              end
          end
      end
  end.

Definition download_playlist (w : world) (url output_format quality : string)
    (output_path : option string) (skip_existing : bool) : state → result bool * state :=
  guarded (download_playlist_body w url output_format quality output_path skip_existing).

(** The first [k] download calls of a run that starts after [base]
    earlier calls come back without raising. *)
Definition calls_complete (w : world) (base : nat) (urls : list string) (k : nat) : Prop :=
  ∀ j u, j < k → urls !! j = Some u →
    ev_raises (ydl_download w (base + j) u) = None.

(** The first cancel request arrives while the [k]-th download call is in
    flight or right after it; for [k = 0], while the info lookup runs
    ([c] is the second component of [extract_info]). *)
Definition cancelled_after (w : world) (base : nat) (c : bool) (urls : list string)
    (k : nat) : Prop :=
  match k with
  | 0 => c = true
  | S k' =>
      c = false
      ∧ (∀ j u, j < k' → urls !! j = Some u →
           ev_cancel (ydl_download w (base + j) u) = false)
      ∧ (∀ u, urls !! k' = Some u →
           ev_cancel (ydl_download w (base + k') u) = true)
  end.

(** The identifier a sidecar contributes to the scan, if any. *)
Definition sidecar_id (f : sidecar) : option id_key :=
  match f with
  | Parsed (JDict d) =>
      match dict_get d "id" with
      | Some v =>
          if truthy v then
            match hash_key v with Ok k => Some k | Raise _ => None end
          else None
      | None => None
      end
  | _ => None
  end.

(** Sidecars the scan gets past: reading raises one of the three handled
    exceptions, or the document is an object whose [id] is missing, falsy
    or hashable. *)
Definition passable (f : sidecar) : Prop :=
  match f with
  | ReadFails e => caught_by scan_handlers e = true
  | Parsed (JDict d) =>
      match dict_get d "id" with
      | Some v => truthy v = true → ∃ k, hash_key v = Ok k
      | None => True
      end
  | Parsed _ => False
  end.

(** The default configuration is in the store as config.py built it:
    the dictionary [d] whose [postprocessors] is the list at [lp], which
    starts with a dictionary at [p0]. *)
Definition shared_config (d : gmap string value) (lp p0 : nat) (rest : list value)
    (h : heap) : Prop :=
  h !! DEFAULT_DOWNLOAD_CONFIG = Some (ODict d)
  ∧ d !! "postprocessors" = Some (VRef lp)
  ∧ h !! lp = Some (OList (VRef p0 :: rest))
  ∧ (∃ d0, h !! p0 = Some (ODict d0))
  ∧ lp ≠ DEFAULT_DOWNLOAD_CONFIG ∧ p0 ≠ DEFAULT_DOWNLOAD_CONFIG ∧ p0 ≠ lp.

Definition config_wf (h : heap) : Prop :=
  ∃ d lp p0 rest, shared_config d lp p0 rest h.

(** [options] is a dictionary of its own at [o]; while [aliased] it still
    holds the postprocessor list of the default configuration. *)
Definition options_at (d : gmap string value) (lp p0 : nat) (rest : list value)
    (aliased : bool) (o : nat) (h : heap) : Prop :=
  shared_config d lp p0 rest h
  ∧ o ≠ DEFAULT_DOWNLOAD_CONFIG ∧ o ≠ lp ∧ o ≠ p0
  ∧ ∃ od, h !! o = Some (ODict od)
          ∧ (aliased = true → od !! "postprocessors" = Some (VRef lp)).

End Downloader.
Import Downloader.

(** ** src/utils/helpers.py: JSON files and [SettingsManager] *)

Module Settings.

(** What is stored under a path, seen through [open] and [json.load].
    [load_json_file] is declared to return [Optional[Dict]]: a document is
    a JSON object, given by its members in file order. *)
Inductive file : Type :=
  | Document (members : list (string * json))
  | Unreadable (e : exn).   (* reading raises: no JSON, no permission, ... *)

Record filesystem : Type := {
  files : gmap string file;
  (* the error of creating the parent directory or opening for writing *)
  write_error : string → option exn
}.

(** The dictionary [json.load] builds from the members of an object: a
    later member replaces an earlier one of the same name. *)
Definition dict_of_members (members : list (string * json)) : gmap string json :=
  fold_left (λ m kv, <[fst kv := snd kv]> m) members ∅.

(** [load_json_file] *)
Definition load_json_file (fs : filesystem) (file_path : string)
    : result (option (gmap string json)) :=
  let handlers := [JSONDecodeError; FileNotFoundError; PermissionError] in
  match files fs !! file_path with
  | None => if caught_by handlers FileNotFoundError then Ok None else Raise FileNotFoundError
  | Some (Unreadable e) => if caught_by handlers e then Ok None else Raise e
  | Some (Document members) => Ok (Some (dict_of_members members))
  end.

(** [save_json_file]: [json.dump] writes the members of [data]. *)
Definition save_json_file (data : gmap string json) (file_path : string)
    (fs : filesystem) : result bool * filesystem :=
  match write_error fs file_path with
  | Some e =>
      if caught_by [PermissionError; OSError] e then (Ok false, fs) else (Raise e, fs)
  | None =>
      (Ok true,
       {| files := <[file_path := Document (map_to_list data)]> (files fs);
          write_error := write_error fs |})
  end.

Record SettingsManager : Type := {
  settings_file : string;
  settings : gmap string json
}.

(** The literal of [_load_settings]; [home] is [Path.home()]. *)
Definition default_settings (home : string) : gmap string json :=
  <["download_path" := JStr (home +:+ "/Downloads/YouTube")]>
  (<["default_format" := JStr "mp3"]>
  (<["default_quality" := JStr "192"]>
  (<["skip_existing" := JBool true]>
  (<["create_playlist_folders" := JBool true]>
  (<["embed_thumbnails" := JBool true]>
  (<["save_metadata" := JBool true]>
  (<["max_concurrent_downloads" := JInt 3]>
  (<["theme" := JStr "clam"]> ∅)))))))).

(** [d.update(other)]: the members of [other] win. *)
Definition dict_update (d other : gmap string json) : gmap string json := other ∪ d.

(** [_load_settings] *)
Definition _load_settings (home : string) (fs : filesystem) (settings_file : string)
    : result (gmap string json) :=
  match load_json_file fs settings_file with
  | Raise e => Raise e
  | Ok None => Ok (default_settings home)
  | Ok (Some saved_settings) =>
      if decide (saved_settings = ∅) then Ok (default_settings home)
      else Ok (dict_update (default_settings home) saved_settings)
  end.

(** [SettingsManager.__init__] *)
Definition new_manager (home : string) (fs : filesystem) (settings_file : string)
    : result SettingsManager :=
  match _load_settings home fs settings_file with
  | Raise e => Raise e
  | Ok s => Ok {| settings_file := settings_file; settings := s |}
  end.

(** [save_settings] *)
Definition save_settings (sm : SettingsManager) (fs : filesystem)
    : result bool * filesystem :=
  save_json_file (settings sm) (settings_file sm) fs.

(** [get] *)
Definition get (sm : SettingsManager) (key : string) (default : option json) : option json :=
  match settings sm !! key with
  | Some v => Some v
  | None => default
  end.

(** [set] *)
Definition set (sm : SettingsManager) (key : string) (value : json) : SettingsManager :=
  {| settings_file := settings_file sm; settings := <[key := value]> (settings sm) |}.

End Settings.

(** ** src/core/extras.py: [FileManager] and [QualityAnalyzer] *)

Module Maintenance.

(** A path is the list of its segments ([p.parts]). *)
Abbreviation path := (list string).

Inductive kind : Type :=
  | KFile       (* is_file() *)
  | KDir        (* is_dir() *)
  | KOther.     (* neither: a dangling link, a socket, ... *)

(** The tree below and around the base path: every entry once, in the
    order in which a recursive scan meets them. *)
Abbreviation tree := (list (list string * kind)).

Definition kind_eqb (a b : kind) : bool :=
  match a, b with
  | KFile, KFile | KDir, KDir | KOther, KOther => true
  | _, _ => false
  end.

Definition path_eqb (p q : path) : bool := bool_decide (p = q).

(** [q] lies strictly below [base]. *)
Fixpoint is_under (base q : path) : bool :=
  match base, q with
  | [], _ :: _ => true
  | b :: bs, x :: xs => String.eqb b x && is_under bs xs
  | _, _ => false
  end.

(** [base.rglob('*')] *)
Definition rglob (t : tree) (base : path) : list path :=
  map fst (filter (λ e, Is_true (is_under base (fst e))) t).

Definition has_kind (t : tree) (p : path) (k : kind) : bool :=
  existsb (λ e, path_eqb (fst e) p && kind_eqb (snd e) k) t.

Definition is_file (t : tree) (p : path) : bool := has_kind t p KFile.
Definition is_dir (t : tree) (p : path) : bool := has_kind t p KDir.

(** [q] is an entry of the directory [folder]. *)
Definition is_child (folder q : path) : bool :=
  match q with
  | [] => false
  | _ :: _ => path_eqb (removelast q) folder
  end.

(** [any(folder.iterdir())] *)
Definition any_iterdir (t : tree) (folder : path) : bool :=
  existsb (λ e, is_child folder (fst e)) t.

(** [folder.rmdir()] on an empty directory *)
Definition rmdir (folder : path) (t : tree) : tree :=
  filter (λ e, ¬ Is_true (path_eqb (fst e) folder)) t.

(** *** [FileManager.clean_empty_folders] *)

(** [sorted(..., key=lambda p: len(p.parts), reverse=True)]: a stable sort,
    entries of equal depth keep their order. *)
Fixpoint insert_by_depth (p : path) (l : list path) : list path :=
  match l with
  | [] => [p]
  | q :: rest =>
      if (length p <? length q)%nat then q :: insert_by_depth p rest
      else p :: q :: rest
  end.

Definition sorted_deepest_first (l : list path) : list path :=
  foldr insert_by_depth [] l.

(** The loop state: the tree, [deleted_count], and the directories removed
    so far, oldest first. *)
Record sweep : Type := {
  sw_tree : tree;
  deleted_count : nat;
  removed : list path
}.

(** One turn of [for folder in folders].  [os_error folder] says that
    listing or removing [folder] raises OSError or PermissionError. *)
Definition clean_step (os_error : path → bool) (base : path) (s : sweep)
    (folder : path) : sweep :=
  if is_dir (sw_tree s) folder && negb (path_eqb folder base) then
    if os_error folder then s
    else if negb (any_iterdir (sw_tree s) folder) then
      {| sw_tree := rmdir folder (sw_tree s);
         deleted_count := deleted_count s + 1;
         removed := removed s ++ [folder] |}
    else s
  else s.

Definition clean_empty_folders (os_error : path → bool) (base : path) (t : tree) : sweep :=
  let folders := sorted_deepest_first (rglob t base) in
  fold_left (clean_step os_error base) folders
    {| sw_tree := t; deleted_count := 0; removed := [] |}.

(** What holds between the turns of the loop, for the tree [t] the call
    started from. *)
Definition sweep_inv (t : tree) (base : path) (s : sweep) : Prop :=
  sw_tree s = filter (λ e, fst e ∉ removed s) t
  ∧ deleted_count s = length (removed s)
  ∧ NoDup (removed s)
  ∧ ∀ p, p ∈ removed s → is_dir t p = true ∧ p ≠ base.

(** Deeper paths come first. *)
Definition deeper_first (p q : path) : Prop := length q ≤ length p.

(** *** [FileManager.get_storage_info] *)

(** [PurePath.suffix]: from the last dot of the last segment, unless that
    dot is the first or the last character. *)
Fixpoint rfind_dot (s : string) : option nat :=
  match s with
  | EmptyString => None
  | String c rest =>
      match rfind_dot rest with
      | Some i => Some (S i)
      | None => if Ascii.eqb c "."%char then Some 0%nat else None
      end
  end.

Definition name_of (p : path) : string := List.last p "".

Definition suffix (p : path) : string :=
  let name := name_of p in
  match rfind_dot name with
  | Some i =>
      if (0 <? i)%nat && (i <? String.length name - 1)%nat
      then substring i (String.length name - i) name
      else ""
  | None => ""
  end.

(** [str.lower], on ASCII letters *)
Definition lower_ascii (c : ascii) : ascii :=
  let n := nat_of_ascii c in
  if (65 <=? n)%nat && (n <=? 90)%nat then ascii_of_nat (n + 32) else c.

Fixpoint lower (s : string) : string :=
  match s with
  | EmptyString => EmptyString
  | String c rest => String (lower_ascii c) (lower rest)
  end.

(** [extensions[ext] = extensions.get(ext, 0) + 1] *)
Definition count_up (ext : string) (extensions : gmap string nat) : gmap string nat :=
  <[ext := default 0%nat (extensions !! ext) + 1]> extensions.

Definition count_extensions (t : tree) (base : path) : gmap string nat :=
  fold_left
    (λ extensions file_path,
       if is_file t file_path then count_up (lower (suffix file_path)) extensions
       else extensions)
    (rglob t base) ∅.

(** [get_folder_size]: the walk stops at the first OSError and keeps the
    sum reached so far.  [st_size p = None] says that [stat] raises. *)
Fixpoint folder_size_loop (st_size : path → option nat) (t : tree)
    (paths : list path) (total_size : nat) : nat :=
  match paths with
  | [] => total_size
  | file_path :: rest =>
      if is_file t file_path then
        match st_size file_path with
        | Some n => folder_size_loop st_size t rest (total_size + n)
        | None => total_size
        end
      else folder_size_loop st_size t rest total_size
  end.

Definition get_folder_size (st_size : path → option nat) (t : tree) (base : path) : nat :=
  folder_size_loop st_size t (rglob t base) 0.

(** The dictionary [get_storage_info] returns, without the formatted size. *)
Record storage_info : Type := {
  total_size : nat;
  file_count : nat;
  extensions : gmap string nat;
  folder_count : nat
}.

Definition get_storage_info (st_size : path → option nat) (t : tree) (base : path)
    : storage_info :=
  {| total_size := get_folder_size st_size t base;
     file_count := length (rglob t base);
     extensions := count_extensions t base;
     folder_count := length (filter (λ p, Is_true (is_dir t p)) (rglob t base)) |}.

(** [sum(extensions.values())] *)
Definition sum_values (m : gmap string nat) : nat :=
  map_fold (λ _ v acc, v + acc) 0 m.

End Maintenance.
Import Maintenance.

Module QualityReport.

(** The dictionary of [analyze_audio_quality] for a file the tag library
    can read; [duration] is seconds, as an exact rational. *)
Record audio_info : Type := {
  duration : Q;
  bitrate : Z;
  sample_rate : Z;
  channels : Z;
  file_size : Z
}.

Inductive analysis : Type :=
  | AnalysisError (msg : string)     (* {'error': msg} *)
  | Analysis (i : audio_info).

Definition audio_extensions : list string := [".mp3"; ".flac"; ".wav"; ".m4a"; ".ogg"].

(** The chain of [if bitrate >= ...] *)
Definition classify (bitrate : Z) : string :=
  if (320 <=? bitrate)%Z then "Muy Alta (320+ kbps)"
  else if (256 <=? bitrate)%Z then "Alta (256+ kbps)"
  else if (192 <=? bitrate)%Z then "Buena (192+ kbps)"
  else if (128 <=? bitrate)%Z then "Estándar (128+ kbps)"
  else "Baja (<128 kbps)".

Record tally : Type := {
  files_analyzed : nat;
  total_duration : Q;
  quality_distribution : gmap string nat
}.

(** The body of [for file_path in self.base_path.rglob('*')] *)
Definition tally_step (analyze : path → analysis) (acc : tally) (file_path : path) : tally :=
  if bool_decide (lower (suffix file_path) ∈ audio_extensions) then
    match analyze file_path with
    | AnalysisError _ => acc
    | Analysis i =>
        {| files_analyzed := files_analyzed acc + 1;
           total_duration := (total_duration acc + duration i)%Q;
           quality_distribution :=
             if (0 <? bitrate i)%Z
             then count_up (classify (bitrate i)) (quality_distribution acc)
             else quality_distribution acc |}
    end
  else acc.

(** [s.split(sep)] for a separator of one character *)
Fixpoint split (sep : ascii) (s : string) : list string :=
  match s with
  | EmptyString => [EmptyString]
  | String c rest =>
      if Ascii.eqb c sep then EmptyString :: split sep rest
      else
        match split sep rest with
        | piece :: more => String c piece :: more
        | [] => [String c EmptyString]
        end
  end.

Fixpoint digits_value (s : string) (acc : Z) : option Z :=
  match s with
  | EmptyString => Some acc
  | String c rest =>
      let n := nat_of_ascii c in
      if (48 <=? n)%nat && (n <=? 57)%nat
      then digits_value rest (10 * acc + Z.of_nat (n - 48))%Z
      else None
  end.

(** [int(s)] on a run of decimal digits; any other text is a ValueError.
    (Python also admits a sign, blanks around the digits and underscores
    between them; no band label has them.) *)
Definition py_int (s : string) : result Z :=
  match s with
  | EmptyString => Raise ValueError
  | _ =>
      match digits_value s 0 with
      | Some z => Ok z
      | None => Raise ValueError
      end
  end.

(** ['(' in k] *)
Definition has_paren (k : string) : bool :=
  match split "("%char k with
  | _ :: _ :: _ => true
  | _ => false
  end.

(** [int(k.split('(')[1].split('+')[0])] *)
Definition label_bitrate (k : string) : result Z :=
  match split "("%char k with
  | _ :: second :: _ =>
      match split "+"%char second with
      | first :: _ => py_int first
      | [] => Raise IndexError
      end
  | _ => Raise IndexError
  end.

(** [sum(int(...) * v for k, v in quality_distribution.items() if '(' in k)] *)
Fixpoint weighted_sum (items : list (string * nat)) : result Z :=
  match items with
  | [] => Ok 0%Z
  | (k, v) :: rest =>
      if has_paren k then
        match label_bitrate k with
        | Raise e => Raise e
        | Ok b =>
            match weighted_sum rest with
            | Raise e => Raise e
            | Ok s => Ok (b * Z.of_nat v + s)%Z
            end
        end
      else weighted_sum rest
  end.

(** The report, without the formatted duration.  [average_bitrate] is the
    exact quotient of Python's true division. *)
Record quality_report : Type := {
  report_files_analyzed : nat;
  report_total_duration : Q;
  report_quality_distribution : gmap string nat;
  average_bitrate : Q
}.

Definition get_quality_report (analyze : path → analysis) (t : tree) (base : path)
    : result quality_report :=
  let acc := fold_left (tally_step analyze) (rglob t base)
               {| files_analyzed := 0; total_duration := 0%Q; quality_distribution := ∅ |} in
  match weighted_sum (map_to_list (quality_distribution acc)) with
  | Raise e => Raise e
  | Ok total =>
      Ok {| report_files_analyzed := files_analyzed acc;
            report_total_duration := total_duration acc;
            report_quality_distribution := quality_distribution acc;
            average_bitrate :=
              (inject_Z total / inject_Z (Z.of_nat (Nat.max (files_analyzed acc) 1)))%Q |}
  end.

End QualityReport.

(** ** Sample runs *)

Module Examples.

Definition quiet : engine_event := {| ev_raises := None; ev_cancel := false |}.

Definition track (id : string) : option entry :=
  Some {| entry_id := Some id; entry_title := Some ("Track " +:+ id); entry_other := true |}.

(** A collection of five available items and one unavailable one. *)
Definition mix : info :=
  {| info_title := Some "Mix";
     info_entries := Some [track "a1"; track "b2"; None; track "c3"; track "d4"; track "e5"] |}.

Definition empty_mix : info := {| info_title := Some "Mix"; info_entries := Some [] |}.

Definition sidecar_for (id : string) : string * sidecar :=
  (id +:+ ".info.json", Parsed (JDict [("id", JStr id); ("title", JStr ("Track " +:+ id))])).

(** An engine that resolves every URL to [i], never raises, and whose
    [n]-th download call is answered by [events n]; the folder [out/Mix]
    holds [dir]. *)
Definition demo_world (i : info) (cancel_on_lookup : bool) (events : nat → engine_event)
    (dir : option (list (string * sidecar))) : world :=
  {| extract_info := λ _, (Ok (Some i), cancel_on_lookup);
     sanitize_filename := λ t, t;
     ydl_new := None;
     ydl_download := λ n _, events n;
     listdir := λ p, if String.eqb p "out/Mix" then dir else None |}.

(** The user presses cancel while the [k]-th download runs. *)
Definition cancel_during (k : nat) (n : nat) : engine_event :=
  {| ev_raises := None; ev_cancel := (n + 1 =? k)%nat |}.

Definition downloader : state := init "downloads" "out".

(** [root/a/b], both [a] and [b] without files. *)
Definition nested_empty : tree :=
  [(["root"], KDir); (["root"; "a"], KDir); (["root"; "a"; "b"], KDir)].

Definition no_os_error : path → bool := λ _, false.

(** Three audio files and a cover image below [root]. *)
Definition music : tree :=
  [(["root"], KDir);
   (["root"; "hi.MP3"], KFile);
   (["root"; "bad.mp3"], KFile);
   (["root"; "cover.jpg"], KFile);
   (["root"; "low.mp3"], KFile)].

Definition tags (seconds : Z) (kbps : Z) : QualityReport.analysis :=
  QualityReport.Analysis
    {| QualityReport.duration := inject_Z seconds; QualityReport.bitrate := kbps;
       QualityReport.sample_rate := 44100; QualityReport.channels := 2;
       QualityReport.file_size := 1000 |}.

(** [hi.MP3] reads as 256, [low.mp3] as 96; the tag library fails on
    every other file. *)
Definition sample_tags (p : path) : QualityReport.analysis :=
  if path_eqb p ["root"; "hi.MP3"] then tags 200 256
  else if path_eqb p ["root"; "low.mp3"] then tags 100 96
  else QualityReport.AnalysisError "unsupported".

Definition all_sidecars : list (string * sidecar) :=
  [sidecar_for "a1"; sidecar_for "b2"; sidecar_for "c3"; sidecar_for "d4";
   sidecar_for "e5"; ("cover.jpg", ReadFails UnicodeDecodeError)].

End Examples.

(** ** Further notions for the playlist loop *)

Module Runs.

(** No cancel request arrives with the first [k] download calls of a run
    that starts after [base] earlier calls. *)
Definition calls_quiet (w : world) (base : nat) (urls : list string) (k : nat) : Prop :=
  ∀ j u, j < k → urls !! j = Some u →
    ev_cancel (ydl_download w (base + j) u) = false.

(** The entries that are not [None]: those the loop over [entries] gets
    past [if entry is None: continue]. *)
Definition available (entries : list (option entry)) : nat :=
  length (filter (λ e, is_Some e) entries).

(** [len([e for e in entries if e])]: the truthy entries.  An empty
    dictionary is not [None] and is not truthy. *)
Definition counted (entries : list (option entry)) : nat :=
  length (filter (λ e, Is_true (item_truthy e)) entries).

End Runs.
Import Runs.

(** ** Further sample runs *)

Module Samples.

(** The engine raises in its download call number [k] (from 0). *)
Definition fail_at (k : nat) (n : nat) : engine_event :=
  {| ev_raises := if (n =? k)%nat then Some DownloadError else None; ev_cancel := false |}.

(** No network: every info lookup raises. *)
Definition offline : world :=
  {| extract_info := λ _, (Raise DownloadError, false);
     sanitize_filename := λ t, t;
     ydl_new := None;
     ydl_download := λ _ _, Examples.quiet;
     listdir := λ _, None |}.

(** The downloader after [set_progress_callback]. *)
Definition with_callback : state :=
  set_progress_hook
    (Some {| has_callback := true; total_files := 0; completed_files := 0 |})
    Examples.downloader.

Definition five_urls : list string :=
  map (λ v, watch_url (Some v)) ["a1"; "b2"; "c3"; "d4"; "e5"].

(** A collection of an empty dictionary, one item and an unavailable one. *)
Definition sparse : info :=
  {| info_title := Some "Mix";
     info_entries :=
       Some [Some {| entry_id := None; entry_title := None; entry_other := false |};
             Examples.track "a1"; None] |}.

End Samples.

(** ** Notions for following [_build_download_options] through the store *)

Module Building.

(** The state of the store while options are built on top of the store
    [h0]: the default configuration is in place, its first postprocessor
    holds [d0], the options live in an object [o] that [h0] did not have
    and hold [od], and every other object of [h0] is as it was. *)
Definition building (d : gmap string value) (lp p0 : nat) (rest : list value)
    (h0 : heap) (d0 od : gmap string value) (o : nat) (h : heap) : Prop :=
  shared_config d lp p0 rest h
  ∧ h !! p0 = Some (ODict d0)
  ∧ h !! o = Some (ODict od)
  ∧ length h0 ≤ o
  ∧ length h0 ≤ length h
  ∧ ∀ l, l < length h0 → l ≠ p0 → h !! l = h0 !! l.

(** The dictionary after the [outtmpl] step. *)
Definition with_template (output_path : option string) (playlist_mode : bool)
    (od : gmap string value) : gmap string value :=
  if str_truthy output_path then
    <["outtmpl" := VStr (default "" output_path
                         +:+ (if playlist_mode
                              then "/%(playlist_title)s/%(title)s.%(ext)s"
                              else "/%(title)s.%(ext)s"))]> od
  else od.

Definition codec_path : list (string + nat) :=
  [inl "postprocessors"; inr 0; inl "preferredcodec"].

Definition quality_path : list (string + nat) :=
  [inl "postprocessors"; inr 0; inl "preferredquality"].

End Building.
Import Building.

(** ** src/utils/helpers.py: [SettingsManager.reset_to_defaults] *)

Module SettingsReset.

(** [self.settings_file.unlink(missing_ok=True)] followed by
    [self.settings = self._load_settings()]: the manager afterwards.
    [unlink_error] is the exception of the removal, if any; the method has
    no [try], so the exception leaves it and the manager is as before. *)
Definition reset_to_defaults (home : string) (unlink_error : option exn)
    (sm : Settings.SettingsManager) (fs : Settings.filesystem)
    : result Settings.SettingsManager * Settings.filesystem :=
  match unlink_error with
  | Some e => (Raise e, fs)
  | None =>
      let fs' := {| Settings.files := delete (Settings.settings_file sm) (Settings.files fs);
                    Settings.write_error := Settings.write_error fs |} in
      match Settings._load_settings home fs' (Settings.settings_file sm) with
      | Raise e => (Raise e, fs')
      | Ok loaded =>
          (Ok {| Settings.settings_file := Settings.settings_file sm;
                 Settings.settings := loaded |}, fs')
      end
  end.

End SettingsReset.

(** ** Notions for the sweeps of [FileManager] *)

Module Sweeps.

(** Every folder of [done] that is still a directory (and is not the base
    path) has an entry. *)
Definition settled (base : path) (s : sweep) (done : list path) : Prop :=
  ∀ f, f ∈ done → is_dir (sw_tree s) f = true → f ≠ base →
       any_iterdir (sw_tree s) f = true.

(** What was directly inside a removed folder was removed as well. *)
Definition emptied (t : tree) (s : sweep) : Prop :=
  ∀ p e, p ∈ removed s → e ∈ t → is_child p (fst e) = true → fst e ∈ removed s.

End Sweeps.
Import Sweeps.

(** ** Sample trees *)

Module Trees.

(** [root/keep/song.mp3] next to the empty chain [root/old/sub]. *)
Definition library : tree :=
  [(["root"], KDir);
   (["root"; "keep"], KDir);
   (["root"; "keep"; "song.mp3"], KFile);
   (["root"; "old"], KDir);
   (["root"; "old"; "sub"], KDir)].

End Trees.

(** ** src/core/extras.py: [FileManager.clean_temp_files] *)

Module TempFiles.

Definition temp_extensions : list string := [".part"; ".tmp"; ".temp"; ".ytdl"].

(** [base.rglob(f'*{ext}')]: the entries below the base path whose name
    ends in [ext]. *)
Definition rglob_suffix (t : tree) (base : path) (ext : string) : list path :=
  map fst (filter (λ e, Is_true (is_under base (fst e) && endswith (name_of (fst e)) ext)) t).

Definition exists_entry (t : tree) (p : path) : bool :=
  existsb (λ e, path_eqb (fst e) p) t.

(** The tree and [deleted_count]. *)
Record purge : Type := {
  pg_tree : tree;
  pg_deleted : nat
}.

(** [try: file_path.unlink(); deleted_count += 1  except (OSError,
    PermissionError): continue].  [unlink] raises IsADirectoryError or
    PermissionError on a directory and FileNotFoundError on a path that is
    gone, all of them OSError; [os_error] stands for any other failure. *)
Definition unlink_step (os_error : path → bool) (s : purge) (file_path : path) : purge :=
  if is_dir (pg_tree s) file_path then s
  else if negb (exists_entry (pg_tree s) file_path) then s
  else if os_error file_path then s
  else {| pg_tree := filter (λ e, fst e ≠ file_path) (pg_tree s);
          pg_deleted := pg_deleted s + 1 |}.

(** [for ext in temp_extensions: for file_path in rglob(...)] *)
Definition clean_temp_files (os_error : path → bool) (base : path) (t : tree) : purge :=
  fold_left
    (λ s ext, fold_left (unlink_step os_error) (rglob_suffix (pg_tree s) base ext) s)
    temp_extensions
    {| pg_tree := t; pg_deleted := 0 |}.

(** An entry the sweep is after: below the base path, not a directory,
    with a name that ends in one of the four suffixes. *)
Definition purgeable (base : path) (e : path * kind) : bool :=
  is_under base (fst e)
  && negb (kind_eqb (snd e) KDir)
  && existsb (endswith (name_of (fst e))) temp_extensions.

(** The later tree keeps a part of the earlier one, in order. *)
Definition shrinks (s s' : purge) : Prop :=
  ∃ gone : list path, pg_tree s' = filter (λ e, fst e ∉ gone) (pg_tree s).

End TempFiles.
Import TempFiles.

(** ** Notions for following [clean_temp_files] *)

Module TempSweep.

(** What holds between the turns of both loops, for the tree [t] the call
    started from: the entries at the paths [gone] were unlinked, once
    each, every one of them purgeable. *)
Definition purging (base : path) (t : tree) (s : purge) : Prop :=
  ∃ gone : list path,
    pg_tree s = filter (λ e, fst e ∉ gone) t
    ∧ NoDup gone
    ∧ pg_deleted s = length gone
    ∧ ∀ p, p ∈ gone →
        (∃ e, e ∈ t ∧ fst e = p)
        ∧ ∀ e, e ∈ t → fst e = p → purgeable base e = true.

(** A path that [rglob] yields for one of the suffixes. *)
Definition temp_path (base : path) (p : path) : Prop :=
  is_under base p = true
  ∧ existsb (endswith (name_of p)) temp_extensions = true.

(** The pass over one suffix. *)
Definition pass (os_error : path → bool) (base : path) (s : purge) (ext : string) : purge :=
  fold_left (unlink_step os_error) (rglob_suffix (pg_tree s) base ext) s.

End TempSweep.
Import TempSweep.

(** ** A tree with left-overs of interrupted downloads *)

Module Leftovers.

Definition downloads : tree :=
  [(["root"], KDir);
   (["root"; "a"], KDir);
   (["root"; "a"; "x.mp4.part"], KFile);
   (["root"; "a"; "song.mp3"], KFile);
   (["root"; "cache.tmp"], KDir);
   (["root"; "y.ytdl"], KFile);
   (["other"], KDir);
   (["other"; "z.tmp"], KFile)].

End Leftovers.

(** ** Notions for following [get_quality_report] *)

Module QualityFacts.
Import QualityReport.

(** The tag data of a path that the report counts: the name has an audio
    suffix and the inspection succeeds. *)
Definition analysed (analyze : path → analysis) (p : path) : option audio_info :=
  if bool_decide (lower (suffix p) ∈ audio_extensions) then
    match analyze p with
    | Analysis i => Some i
    | AnalysisError _ => None
    end
  else None.

Definition low_band : string := "Baja (<128 kbps)".

Definition band_labels : list string :=
  ["Muy Alta (320+ kbps)"; "Alta (256+ kbps)"; "Buena (192+ kbps)";
   "Estándar (128+ kbps)"; low_band].

(** The tally agrees with the files [seen] so far. *)
Definition tallied (seen : list audio_info) (acc : tally) : Prop :=
  files_analyzed acc = length seen
  ∧ sum_values (quality_distribution acc)
    = length (filter (λ i, (0 < bitrate i)%Z) seen)
  ∧ ∀ k, is_Some (quality_distribution acc !! k) ↔
         ∃ i, i ∈ seen ∧ (0 < bitrate i)%Z ∧ classify (bitrate i) = k.

End QualityFacts.
Import QualityFacts.

(** ** src/core/extras.py: [BatchDownloader] *)

Module Batch.

(** A result record: [{url, success, title?, type?, error?}].  The error
    is the fixed message of a failed lookup or the text of an exception. *)
Record batch_result : Type := {
  br_url : string;
  br_success : bool;
  br_title : option string;
  br_type : option string;
  br_error : option (string + exn)
}.

Record batch : Type := {
  is_running : bool;
  current_index : nat;
  total_urls : nat;
  results : list batch_result
}.

(** The dictionary [progress_callback] is called with. *)
Record batch_progress : Type := {
  bp_current : nat;
  bp_total : nat;
  bp_url : string;
  bp_status : string
}.

(** What the loop meets from outside.  [stop] runs in another thread and
    is two statements, [self.is_running = False] and then
    [self.downloader.cancel_current_download()]; the loop reads
    [is_running] at the head of a turn only, and nothing but the downloads
    reads or clears the cancel flag.  A cancel request that arrives while
    a download runs is an event of the [world]. *)
Record surroundings : Type := {
  (* [progress_callback], when one is passed: the exception a call raises,
     if it raises *)
  progress_callback : option (batch_progress → option exn);
  (* [is_running] has been set to False when turn [i] reads it *)
  stopped_at : nat → bool;
  (* a cancel request arrives after the download of turn [i - 1] is over
     and before that of turn [i] starts, that is while the loop reads
     [is_running], calls the callback or looks the URL up; when turn [i]
     has no download, before the next one or before the call returns *)
  cancel_before : nat → bool
}.

Definition set_is_running (v : bool) (b : batch) : batch :=
  {| is_running := v; current_index := current_index b;
     total_urls := total_urls b; results := results b |}.

(** [if progress_callback: progress_callback({...})] *)
Definition notify (env : surroundings) (current total : nat) (url status : string)
    : option exn :=
  match progress_callback env with
  | Some callback =>
      callback {| bp_current := current; bp_total := total;
                  bp_url := url; bp_status := status |}
  | None => None
  end.

(** The record of the [except] clause. *)
Definition error_record (url : string) (e : exn) : batch_result :=
  {| br_url := url; br_success := false; br_title := None; br_type := None;
     br_error := Some (inr e) |}.

(** The [try] block for one URL: the records it appends.  The call of the
    callback after [results.append] is inside the [try]: when it raises,
    the [except] clause appends a second record for the URL. *)
Definition batch_item (w : world) (env : surroundings) (output_format quality : string)
    (output_path : option string) (current total : nat) (url : string) (s : state)
    : list batch_result * state :=
  match get_video_info w url s with
  | (None, s1) =>
      ([{| br_url := url; br_success := false; br_title := None; br_type := None;
           br_error := Some (inl "No se pudo obtener información") |}], s1)
  | (Some playlist_info, s1) =>
      let run :=
        match info_entries playlist_info with
        | Some _ => download_playlist w url output_format quality output_path true s1
        | None => download_single_video w url output_format quality output_path s1
        end in
      match run with
      | (Ok success, s2) =>
          let record :=
            {| br_url := url; br_success := success;
               br_title := Some (default "Sin título" (info_title playlist_info));
               br_type := Some (match info_entries playlist_info with
                                | Some _ => "playlist"
                                | None => "video"
                                end);
               br_error := None |} in
          match notify env current total url (if success then "completed" else "failed") with
          | Some e => ([record; error_record url e], s2)
          | None => ([record], s2)
          end
      | (Raise e, s2) => ([error_record url e], s2)
      end
  end.

(** [for i, url in enumerate(urls)].  The first call of the callback is
    outside the [try]: when it raises, the exception leaves the method. *)
Fixpoint batch_loop (w : world) (env : surroundings)
    (output_format quality : string) (output_path : option string)
    (i : nat) (urls : list string) (b : batch) (s : state)
    : result unit * (batch * state) :=
  let s0 := deliver_cancel (cancel_before env i) s in
  match urls with
  | [] => (Ok tt, (b, s0))
  | url :: rest =>
      let b0 := if stopped_at env i then set_is_running false b else b in
      if negb (is_running b0) then (Ok tt, (b0, s0))
      else
        let b1 := {| is_running := is_running b0; current_index := i + 1;
                     total_urls := total_urls b0; results := results b0 |} in
        match notify env (i + 1) (total_urls b1) url "starting" with
        | Some e => (Raise e, (b1, s0))
        | None =>
            let '(records, s1) :=
              batch_item w env output_format quality output_path (i + 1) (total_urls b1)
                url s0 in
            batch_loop w env output_format quality output_path (S i) rest
              {| is_running := is_running b1; current_index := current_index b1;
                 total_urls := total_urls b1; results := results b1 ++ records |}
              s1
        end
  end.

(** [download_from_list]: what it returns or raises, and the batch and
    the downloader afterwards. *)
Definition download_from_list (w : world) (env : surroundings)
    (urls : list string) (output_format quality : string)
    (output_path : option string) (s : state)
    : result (list batch_result) * (batch * state) :=
  match batch_loop w env output_format quality output_path 0 urls
          {| is_running := true; current_index := 0; total_urls := length urls;
             results := [] |} s with
  | (Ok _, (b, s')) => (Ok (results b), (set_is_running false b, s'))
  | (Raise e, (b, s')) => (Raise e, (b, s'))
  end.

End Batch.

(** ** Notions for following a batch *)

Module BatchFacts.

(** [g] is what the [try] block of turn [j] appends for [url], from some
    state of the downloader. *)
Definition group_of (w : world) (env : Batch.surroundings) (fmt q : string)
    (out : option string) (total : nat) (j : nat) (url : string)
    (g : list Batch.batch_result) : Prop :=
  ∃ s, g = fst (Batch.batch_item w env fmt q out (j + 1) total url s).

(** The records of a URL: its own record, followed by the record of the
    exception when the callback raised on hearing of the download. *)
Definition records_for (env : Batch.surroundings) (total : nat) (j : nat) (url : string)
    (g : list Batch.batch_result) : Prop :=
  ∃ record,
    Batch.br_url record = url
    ∧ (g = [record]
       ∨ ∃ e, g = [record; Batch.error_record url e]
              ∧ Batch.br_error record = None
              ∧ Batch.notify env (j + 1) total url
                  (if Batch.br_success record then "completed" else "failed") = Some e).

(** The record of a URL whose info lookup fails. *)
Definition lookup_failure (url : string) : Batch.batch_result :=
  {| Batch.br_url := url; Batch.br_success := false; Batch.br_title := None;
     Batch.br_type := None;
     Batch.br_error := Some (inl "No se pudo obtener información") |}.

(** The callback returns when it is called at the head of turn [j]. *)
Definition starts (env : Batch.surroundings) (total : nat) (urls : list string)
    (j : nat) : Prop :=
  ∀ url, urls !! j = Some url → Batch.notify env (j + 1) total url "starting" = None.

(** The callback returns whenever it is called. *)
Definition callback_returns (env : Batch.surroundings) : Prop :=
  ∀ current total url status, Batch.notify env current total url status = None.

End BatchFacts.
Import BatchFacts.

(** ** A sample batch *)

Module BatchSamples.

Definition song : info := {| info_title := Some "Song"; info_entries := None |}.

(** One URL is gone, one is a collection, every other one a single item. *)
Definition mixed : world :=
  {| extract_info := λ url,
       (if String.eqb url "https://youtu.be/gone" then Raise DownloadError
        else if String.eqb url "https://www.youtube.com/playlist?list=PL1"
             then Ok (Some Examples.mix)
             else Ok (Some song),
        false);
     sanitize_filename := λ t, t;
     ydl_new := None;
     ydl_download := λ _ _, Examples.quiet;
     listdir := λ _, None |}.

Definition urls : list string :=
  ["https://youtu.be/a1"; "https://youtu.be/gone";
   "https://www.youtube.com/playlist?list=PL1"].


(** [stop] runs as a whole between turn [k - 1] and turn [k]. *)
Definition stop_between (k : nat) : Batch.surroundings :=
  {| Batch.progress_callback := None;
     Batch.stopped_at := λ i, (i =? k)%nat;
     Batch.cancel_before := λ i, (i =? k)%nat |}.

(** [stop] runs as a whole while turn [k - 1] looks its URL up. *)
Definition stop_during_lookup (k : nat) : Batch.surroundings :=
  {| Batch.progress_callback := None;
     Batch.stopped_at := λ i, (i =? k)%nat;
     Batch.cancel_before := λ i, (i + 1 =? k)%nat |}.

End BatchSamples.

(** ** src/core/downloader.py: [ProgressHook.__call__] *)

Module Progress.

(** The dictionary the engine passes to a progress hook: the keys the hook
    reads.  [ev_status = None] stands for a dictionary without [status]. *)
Record engine_progress : Type := {
  ev_status : option string;
  ev_filename : option string;
  ev_percent_str : option string;
  ev_speed_str : option string;
  ev_eta_str : option string
}.

(** The dictionary handed to the callback. *)
Record progress_data : Type := {
  pd_status : string;
  pd_filename : string;
  pd_percent : option string;
  pd_speed : option string;
  pd_eta : option string;
  pd_total_files : nat;
  pd_completed_files : nat
}.

(** [__call__]: the hook afterwards and what the callback was called with.
    The callback is taken to return. *)
Definition call (hook : ProgressHook) (d : engine_progress)
    : result (ProgressHook * list progress_data) :=
  match ev_status d with
  | None => Raise KeyError
  | Some status =>
      if String.eqb status "downloading" then
        Ok (hook,
            if has_callback hook then
              [{| pd_status := "downloading";
                  pd_filename := default "" (ev_filename d);
                  pd_percent := Some (default "0%" (ev_percent_str d));
                  pd_speed := Some (default "" (ev_speed_str d));
                  pd_eta := Some (default "" (ev_eta_str d));
                  pd_total_files := total_files hook;
                  pd_completed_files := completed_files hook |}]
            else [])
      else if String.eqb status "finished" then
        let hook' := {| has_callback := has_callback hook;
                        total_files := total_files hook;
                        completed_files := completed_files hook + 1 |} in
        Ok (hook',
            if has_callback hook then
              [{| pd_status := "finished";
                  pd_filename := default "" (ev_filename d);
                  pd_percent := None; pd_speed := None; pd_eta := None;
                  pd_total_files := total_files hook';
                  pd_completed_files := completed_files hook' |}]
            else [])
      else Ok (hook, [])
  end.

(** The hook called once per event of a download, in order. *)
Fixpoint calls (hook : ProgressHook) (events : list engine_progress)
    : result (ProgressHook * list progress_data) :=
  match events with
  | [] => Ok (hook, [])
  | d :: rest =>
      match call hook d with
      | Raise e => Raise e
      | Ok (hook1, sent1) =>
          match calls hook1 rest with
          | Raise e => Raise e
          | Ok (hook2, sent2) => Ok (hook2, sent1 ++ sent2)
          end
      end
  end.

Definition has_status (status : string) (d : engine_progress) : bool :=
  match ev_status d with
  | Some s => String.eqb s status
  | None => false
  end.

End Progress.

(** ** src/utils/helpers.py: [get_folder_size], what it adds up *)

Module Sizes.

(** The sizes of the regular files among [paths], a file that cannot be
    inspected counting as nothing. *)
Definition sizes (st_size : path → option nat) (t : tree) (paths : list path) : nat :=
  sum_list (map (λ q, if is_file t q then default 0 (st_size q) else 0) paths).

End Sizes.
Import Sizes.

(** ** src/core/extras.py: [MaintenanceManager.run_full_maintenance] *)

Module FullMaintenance.
Import QualityReport.

Record results : Type := {
  temp_files_deleted : nat;
  empty_folders_deleted : nat;
  quality_report_of : quality_report;
  storage_info_of : storage_info
}.

(** What the call returns or raises, the tree it leaves, and the texts
    the progress callback was called with, oldest first. *)
Record outcome : Type := {
  out_result : result results;
  out_tree : tree;
  out_messages : list string
}.

(** [FileManager()] and [QualityAnalyzer()] both work on the same default
    base path.  [unlink_error] and [rmdir_error] say where the two sweeps
    meet an OSError. *)
Definition run_full_maintenance (progress_callback : bool)
    (unlink_error rmdir_error : path → bool)
    (analyze : path → analysis) (st_size : path → option nat)
    (base : path) (t : tree) : outcome :=
  let say (msg : string) : list string := if progress_callback then [msg] else [] in
  let temp := clean_temp_files unlink_error base t in
  let folders := clean_empty_folders rmdir_error base (pg_tree temp) in
  let t' := sw_tree folders in
  let said := say "Limpiando archivos temporales..."
              ++ say "Eliminando carpetas vacías..."
              ++ say "Analizando calidad de archivos..." in
  match get_quality_report analyze t' base with
  | Raise e => {| out_result := Raise e; out_tree := t'; out_messages := said |}
  | Ok report =>
      {| out_result :=
           Ok {| temp_files_deleted := pg_deleted temp;
                 empty_folders_deleted := deleted_count folders;
                 quality_report_of := report;
                 storage_info_of := get_storage_info st_size t' base |};
         out_tree := t';
         out_messages := said ++ say "Obteniendo información de almacenamiento..."
                              ++ say "Mantenimiento completado" |}
  end.

End FullMaintenance.
Import FullMaintenance.


(** ** src/utils/helpers.py: text helpers *)

Module Text.

(** A [str] as the list of its code points. *)
Abbreviation str := (list N).

Definition codes (s : string) : str := map N_of_ascii (list_ascii_of_string s).

(** [s.replace(old, new)] for single characters *)
Definition replace (old new : N) (s : str) : str :=
  map (λ c, if N.eqb c old then new else c) s.

(** [s.lstrip()], [s.rstrip()] and [s.strip()]; [isspace] is
    [str.isspace] on one character. *)
Fixpoint lstrip (isspace : N → bool) (s : str) : str :=
  match s with
  | [] => []
  | c :: rest => if isspace c then lstrip isspace rest else s
  end.

Definition rstrip (isspace : N → bool) (s : str) : str :=
  reverse (lstrip isspace (reverse s)).

Definition strip (isspace : N → bool) (s : str) : str :=
  lstrip isspace (rstrip isspace s).

(** The raw string of [invalid_chars]: the double quote is character 34,
    and the backslash is there twice. *)
Definition invalid_chars : str :=
  codes "<>:" ++ [34%N] ++ codes "/\\|?*".

Definition underscore : N := 95%N.

Definition sanitize_filename (isspace : N → bool) (filename : str) : str :=
  let filename := fold_left (λ name char, replace char underscore name)
                    invalid_chars filename in
  let filename := if (200 <? length filename)%nat then take 200 filename else filename in
  strip isspace filename.

(** [str.isspace] on the characters of ASCII *)
Definition ascii_space (c : N) : bool :=
  ((9 <=? c) && (c <=? 13) || (28 <=? c) && (c <=? 32))%N.

End Text.
Import Text.

(** ** Regular expressions, as far as the helpers use them *)

Module Regex.

Inductive re : Type :=
  | Lit (text : str)                      (* the characters themselves *)
  | Seq (a b : re)                        (* ab *)
  | Alt (a b : re)                        (* a|b *)
  | Opt (a : re)                          (* a? *)
  | Many (least : nat) (cls : N → bool)   (* [cls]* and [cls]+ *)
  | Times (n : nat) (cls : N → bool)      (* [cls]{n} *)
  | Group (a : re).                       (* (a), the only capturing group *)

Fixpoint starts_with (text s : str) : option str :=
  match text, s with
  | [], _ => Some s
  | c :: text', x :: s' => if N.eqb c x then starts_with text' s' else None
  | _ :: _, [] => None
  end.

(** How many characters of the class the text starts with. *)
Fixpoint span (cls : N → bool) (s : str) : nat :=
  match s with
  | c :: rest => if cls c then S (span cls rest) else 0
  | [] => 0
  end.

(** The ways to match [r] at the start of [s], in the order in which a
    backtracking matcher tries them: what is left of the text, and the
    text of the group. *)
Fixpoint run (r : re) (s : str) (g : option str) : list (str * option str) :=
  match r with
  | Lit text =>
      match starts_with text s with
      | Some rest => [(rest, g)]
      | None => []
      end
  | Seq a b => flat_map (λ m, run b (fst m) (snd m)) (run a s g)
  | Alt a b => run a s g ++ run b s g
  | Opt a => run a s g ++ [(s, g)]
  | Many least cls =>
      map (λ k, (drop k s, g)) (reverse (seq least (S (span cls s) - least)))
  | Times n cls => if (n <=? span cls s)%nat then [(drop n s, g)] else []
  | Group a =>
      map (λ m, (fst m, Some (take (length s - length (fst m)) s))) (run a s g)
  end.

(** [re.match(r, s)]: the first way, if there is one. *)
Definition re_match (r : re) (s : str) : option (str * option str) :=
  head (run r s None).

(** [re.search(r, s)]: the first way at the first place that has one. *)
Fixpoint re_search (r : re) (s : str) : option (str * option str) :=
  match re_match r s with
  | Some m => Some m
  | None =>
      match s with
      | [] => None
      | _ :: rest => re_search r rest
      end
  end.

(** [m.group(1)] *)
Definition group1 (m : str * option str) : option str := snd m.

Definition lit (s : string) : re := Lit (codes s).

(** [[0-9A-Za-z_-]] *)
Definition id_char (c : N) : bool :=
  ((48 <=? c) && (c <=? 57) || (65 <=? c) && (c <=? 90) || (97 <=? c) && (c <=? 122)
   || (c =? 95) || (c =? 45))%N.

(** [.] *)
Definition not_newline (c : N) : bool := negb (c =? 10)%N.

(** [[\w-]]: letters, digits and the underscore of ASCII, what [wide]
    counts as a word character beyond ASCII, and the hyphen. *)
Definition word_or_hyphen (wide : N → bool) (c : N) : bool :=
  (if (c <? 128)%N
   then ((48 <=? c) && (c <=? 57) || (65 <=? c) && (c <=? 90) || (97 <=? c) && (c <=? 122)
         || (c =? 95))%N
   else wide c)
  || (c =? 45)%N.

End Regex.
Import Regex.

Module Urls.

(** [(?:https?://)?] and [(?:www\.)?] *)
Definition scheme : re := Opt (Seq (lit "http") (Seq (Opt (lit "s")) (lit "://"))).
Definition www : re := Opt (lit "www.").

Definition url_patterns (wide : N → bool) : list re :=
  let rest := Many 1 (word_or_hyphen wide) in
  [Seq scheme (Seq www (Seq (lit "youtube.com/watch?v=") rest));
   Seq scheme (Seq www (Seq (lit "youtube.com/playlist?list=") rest));
   Seq scheme (Seq (lit "youtu.be/") rest);
   Seq scheme (Seq www (Seq (lit "youtube.com/channel/") rest));
   Seq scheme (Seq www (Seq (lit "youtube.com/c/") rest));
   Seq scheme (Seq www (Seq (lit "youtube.com/@") rest))].

(** [any(re.match(pattern, url) for pattern in patterns)] *)
Definition is_valid_youtube_url (wide : N → bool) (url : str) : bool :=
  existsb (λ pattern, bool_decide (is_Some (re_match pattern url))) (url_patterns wide).

Definition id_patterns : list re :=
  [Seq (Alt (lit "v=") (lit "/")) (Seq (Group (Times 11 id_char)) (Many 0 not_newline));
   Seq (lit "embed/") (Group (Times 11 id_char));
   Seq (lit "youtu.be/") (Group (Times 11 id_char))].

(** [for pattern in patterns: match = re.search(pattern, url); if match:
    return match.group(1)] *)
Fixpoint first_found (patterns : list re) (url : str) : option str :=
  match patterns with
  | [] => None
  | pattern :: rest =>
      match re_search pattern url with
      | Some m => group1 m
      | None => first_found rest url
      end
  end.

Definition extract_video_id (url : str) : option str := first_found id_patterns url.

(** The forms of a link to one video. *)
Definition video_prefixes : list str :=
  [codes "https://www.youtube.com/watch?v=";
   codes "http://www.youtube.com/watch?v=";
   codes "https://youtube.com/watch?v=";
   codes "www.youtube.com/watch?v=";
   codes "youtube.com/watch?v=";
   codes "https://youtu.be/";
   codes "youtu.be/"].

End Urls.
Import Urls.


(** ** Notions for following [extract_video_id] *)

Module UrlFacts.

(** The eleven characters after [sep], when the text starts with [sep] and
    goes on with at least eleven characters of an id. *)
Definition id_after (sep s : str) : option str :=
  match starts_with sep s with
  | Some rest => if (11 <=? span id_char rest)%nat then Some (take 11 rest) else None
  | None => None
  end.

(** What the first pattern finds at the start of the text. *)
Definition candidate (s : str) : option str :=
  match id_after (codes "v=") s with
  | Some i => Some i
  | None => id_after (codes "/") s
  end.

Definition id_tail : re := Seq (Group (Times 11 id_char)) (Many 0 not_newline).

End UrlFacts.
Import UrlFacts.


(** * Properties *)

(** ** The object store *)

Section HeapFacts.

Implicit Types (h : list obj) (l : nat) (d : gmap string value).

Lemma dict_copy_ok h l d :
  h !! l = Some (ODict d) →
  dict_copy l h = (Ok (length h), h ++ [ODict d]).
Proof. intros Hl. unfold dict_copy. rewrite Hl. reflexivity. Qed.

Lemma dict_setitem_ok h l d k x :
  h !! l = Some (ODict d) →
  dict_setitem (VRef l) k x h = (Ok tt, <[l := ODict (<[k := x]> d)]> h).
Proof. intros Hl. unfold dict_setitem. rewrite Hl. reflexivity. Qed.

Lemma dict_getitem_ok h l d k x :
  h !! l = Some (ODict d) → d !! k = Some x →
  dict_getitem (VRef l) k h = (Ok x, h).
Proof. intros Hl Hk. unfold dict_getitem. rewrite Hl, Hk. reflexivity. Qed.

Lemma list_getitem_ok h l (xs : list value) i x :
  h !! l = Some (OList xs) → xs !! i = Some x →
  list_getitem (VRef l) i h = (Ok x, h).
Proof. intros Hl Hi. unfold list_getitem. rewrite Hl, Hi. reflexivity. Qed.

Lemma new_ok h o : new o h = (Ok (length h), h ++ [o]).
Proof. reflexivity. Qed.

Lemma lookup_new h o : (h ++ [o]) !! length h = Some o.
Proof. rewrite lookup_app_r by lia. by rewrite Nat.sub_diag. Qed.

Lemma lookup_old h o l x : h !! l = Some x → (h ++ [o]) !! l = Some x.
Proof. intros Hl. by apply lookup_app_l_Some. Qed.

Lemma lookup_update_ne h l l' o x :
  l ≠ l' → h !! l' = Some x → (<[l := o]> h) !! l' = Some x.
Proof. intros Hne Hl. by rewrite list_lookup_insert_ne. Qed.

Lemma lookup_update_eq h l o x :
  h !! l = Some x → (<[l := o]> h) !! l = Some o.
Proof.
  intros Hl. apply list_lookup_insert_eq. by apply lookup_lt_Some in Hl.
Qed.

End HeapFacts.

(** ** [_build_download_options] never fails on a well-formed store *)

Section BuildOptions.

Variables (d : gmap string value) (lp p0 : nat) (rest : list value).

Implicit Types (h : list obj) (o : nat).

Lemma shared_config_alloc h x :
  shared_config d lp p0 rest h → shared_config d lp p0 rest (h ++ [x]).
Proof.
  intros (H4 & Hpp & Hlp & [d0 Hp0] & Hne).
  repeat split; try tauto; eauto using lookup_old.
Qed.

Lemma shared_config_update h o x :
  o ≠ DEFAULT_DOWNLOAD_CONFIG → o ≠ lp → o ≠ p0 →
  shared_config d lp p0 rest h → shared_config d lp p0 rest (<[o := x]> h).
Proof.
  intros ? ? ? (H4 & Hpp & Hlp & [d0 Hp0] & Hne).
  repeat split; try tauto; eauto using lookup_update_ne.
Qed.

Lemma shared_config_update_pp0 h d0' :
  shared_config d lp p0 rest h → shared_config d lp p0 rest (<[p0 := ODict d0']> h).
Proof.
  intros (H4 & Hpp & Hlp & [d0 Hp0] & Hne1 & Hne2 & Hne3).
  repeat split; eauto using lookup_update_ne, lookup_update_eq.
Qed.

Lemma options_at_weaken h o b : options_at d lp p0 rest b o h → options_at d lp p0 rest false o h.
Proof.
  intros (Hs & ? & ? & ? & od & Ho & _).
  do 4 (split; [done |]). exists od. split; [done | discriminate].
Qed.

(** [options = DEFAULT_DOWNLOAD_CONFIG.copy()] *)
Lemma copy_default h :
  shared_config d lp p0 rest h →
  ∃ h', dict_copy DEFAULT_DOWNLOAD_CONFIG h = (Ok (length h), h')
        ∧ options_at d lp p0 rest true (length h) h'.
Proof.
  intros Hs. pose proof Hs as (H4 & Hpp & Hlp & [d0 Hp0] & Hne).
  exists (h ++ [ODict d]). split; [by apply dict_copy_ok |].
  apply lookup_lt_Some in H4, Hlp, Hp0.
  split; [by apply shared_config_alloc |].
  unfold DEFAULT_DOWNLOAD_CONFIG in *. do 3 (split; [lia |]).
  exists d. split; [apply lookup_new | done].
Qed.

(** [options[k] = x] for a key other than [postprocessors] *)
Lemma set_option h o b k x :
  (b = true → k ≠ "postprocessors") →
  options_at d lp p0 rest b o h →
  ∃ h', dict_setitem (VRef o) k x h = (Ok tt, h') ∧ options_at d lp p0 rest b o h'.
Proof.
  intros Hk (Hs & ? & ? & ? & od & Ho & Hal).
  eexists. split; [by apply dict_setitem_ok |].
  split; [by apply shared_config_update |]. do 3 (split; [done |]).
  exists (<[k := x]> od). split; [by eapply lookup_update_eq |].
  intros ->. rewrite lookup_insert_ne by auto. auto.
Qed.

(** [options['postprocessors'] = x] *)
Lemma set_postprocessors h o b x :
  options_at d lp p0 rest b o h →
  ∃ h', dict_setitem (VRef o) "postprocessors" x h = (Ok tt, h')
        ∧ options_at d lp p0 rest false o h'.
Proof.
  intros Ho. apply options_at_weaken in Ho.
  by apply set_option.
Qed.

(** A fresh list or dictionary *)
Lemma new_object h o b x :
  options_at d lp p0 rest b o h →
  ∃ l h', new x h = (Ok l, h') ∧ options_at d lp p0 rest b o h'.
Proof.
  intros (Hs & ? & ? & ? & od & Ho & Hal).
  exists (length h), (h ++ [x]). split; [done |].
  split; [by apply shared_config_alloc |]. do 3 (split; [done |]).
  exists od. split; [by apply lookup_old | done].
Qed.

(** [options['postprocessors'][0][k] = x] while the list is the shared one *)
Lemma set_first_postprocessor h o k x :
  options_at d lp p0 rest true o h →
  ∃ h', (let! pps := dict_getitem (VRef o) "postprocessors" in
         let! pp := list_getitem pps 0 in
         dict_setitem pp k x) h = (Ok tt, h')
        ∧ options_at d lp p0 rest true o h'.
Proof.
  intros (Hs & ? & ? & ? & od & Ho & Hal).
  pose proof Hs as (H4 & Hpp & Hlp & [d0 Hp0] & Hne).
  exists (<[p0 := ODict (<[k := x]> d0)]> h). split.
  - unfold bind. erewrite dict_getitem_ok by eauto.
    erewrite list_getitem_ok by eauto. by apply dict_setitem_ok.
  - split; [by apply shared_config_update_pp0 |]. do 3 (split; [done |]).
    exists od. split; [by apply lookup_update_ne | done].
Qed.

Lemma set_output_template_ok h o out pm :
  options_at d lp p0 rest true o h →
  ∃ h', set_output_template (VRef o) out pm h = (Ok tt, h')
        ∧ options_at d lp p0 rest true o h'.
Proof.
  intros Ho. unfold set_output_template.
  destruct (str_truthy out); [| by exists h].
  destruct pm; by apply set_option.
Qed.

Lemma set_output_format_ok h o fmt q :
  options_at d lp p0 rest true o h →
  ∃ h', set_output_format (VRef o) fmt q h = (Ok tt, h')
        ∧ options_at d lp p0 rest false o h'.
Proof.
  intros Ho. unfold set_output_format.
  destruct (AUDIO_FORMATS !! fmt) as [?|]; [| destruct (VIDEO_FORMATS !! fmt) as [sel|]].
  - destruct (set_option h o true "format" (VStr "bestaudio/best")) as (h1 & E1 & Ho1);
      [done | done |].
    destruct (set_first_postprocessor h1 o "preferredcodec" (VStr fmt) Ho1) as (h2 & E2 & Ho2).
    destruct (set_first_postprocessor h2 o "preferredquality" (VStr q) Ho2) as (h3 & E3 & Ho3).
    exists h3. split; [| by eapply options_at_weaken].
    unfold bind at 1. rewrite E1. unfold bind at 1. rewrite E2. exact E3.
  - destruct (set_option h o true "format" (VStr sel)) as (h1 & E1 & Ho1); [done | done |].
    destruct (new_object h1 o true (ODict (<["key" := VStr "EmbedThumbnail"]> ∅)) Ho1)
      as (a & h2 & E2 & Ho2).
    destruct (new_object h2 o true (ODict (<["key" := VStr "FFmpegMetadata"]> ∅)) Ho2)
      as (b & h3 & E3 & Ho3).
    destruct (new_object h3 o true (OList [VRef a; VRef b]) Ho3) as (l & h4 & E4 & Ho4).
    destruct (set_postprocessors h4 o true (VRef l) Ho4) as (h5 & E5 & Ho5).
    exists h5. split; [| done].
    unfold bind at 1. rewrite E1. unfold bind at 1. rewrite E2.
    unfold bind at 1. rewrite E3. unfold bind at 1. rewrite E4. exact E5.
  - exists h. split; [done | by eapply options_at_weaken].
Qed.

Lemma add_progress_hook_ok h o hook :
  options_at d lp p0 rest false o h →
  ∃ h', add_progress_hook (VRef o) hook h = (Ok tt, h')
        ∧ options_at d lp p0 rest false o h'.
Proof.
  intros Ho. unfold add_progress_hook. destruct hook as [hk|]; [| by exists h].
  destruct (new_object h o false (OList [VHook]) Ho) as (l & h1 & E1 & Ho1).
  destruct (set_option h1 o false "progress_hooks" (VRef l)) as (h2 & E2 & Ho2);
    [done | done |].
  exists h2. split; [| done]. unfold bind. by rewrite E1.
Qed.

End BuildOptions.

Lemma build_options_ok hook fmt q out pm (h : list obj) :
  config_wf h →
  ∃ o h', _build_download_options hook fmt q out pm h = (Ok (VRef o), h') ∧ config_wf h'.
Proof.
  intros (d & lp & p0 & rest & Hs).
  destruct (copy_default d lp p0 rest h Hs) as (h1 & E1 & Ho1).
  destruct (set_output_template_ok d lp p0 rest h1 _ out pm Ho1) as (h2 & E2 & Ho2).
  destruct (set_output_format_ok d lp p0 rest h2 _ fmt q Ho2) as (h3 & E3 & Ho3).
  destruct (add_progress_hook_ok d lp p0 rest h3 _ hook Ho3) as (h4 & E4 & Ho4).
  exists (length h), h4. split.
  - unfold _build_download_options. unfold bind at 1. rewrite E1.
    unfold bind at 1. rewrite E2. unfold bind at 1. rewrite E3.
    unfold bind at 1. rewrite E4. reflexivity.
  - destruct Ho4 as (Hs4 & _). by exists d, lp, p0, rest.
Qed.

Lemma initial_heap_wf downloads_dir : config_wf (initial_heap downloads_dir).
Proof.
  exists (default_config downloads_dir), loc_postprocessors, loc_pp0, [VRef loc_pp1; VRef loc_pp2].
  repeat split; try done. by exists default_pp0.
Qed.

(** ** [download_single_video] *)

Lemma lift_build_ok hook fmt q out pm (s : state) :
  config_wf (objects s) →
  ∃ o h', lift (_build_download_options hook fmt q out pm) s = (Ok (VRef o), set_objects h' s)
          ∧ config_wf h'.
Proof.
  intros Hwf. destruct (build_options_ok hook fmt q out pm _ Hwf) as (o & h' & E & Hwf').
  exists o, h'. split; [| done]. unfold lift. by rewrite E.
Qed.

(** C6: on a store that holds the default configuration,
    [download_single_video] always returns a boolean and never lets an
    exception through; the boolean is [True] exactly when the engine was
    created and its [download] call came back without raising.  Once the
    engine is created the URL is handed to its [download] exactly once,
    and to nothing else, whether that call raises or not; when creating
    the engine raises there is no call.  [is_downloading] is cleared on
    the way out. *)
Theorem download_single_video_reports_engine_outcome
    (w : world) (url fmt q : string) (out : option string) (s : state) :
  config_wf (objects s) →
  ∃ b s', download_single_video w url fmt q out s = (Ok b, s')
    ∧ (b = true ↔
         ydl_new w = None
         ∧ ev_raises (ydl_download w (length (engine_calls s)) url) = None)
    ∧ (b = false ↔
         ydl_new w ≠ None
         ∨ ev_raises (ydl_download w (length (engine_calls s)) url) ≠ None)
    ∧ engine_calls s'
      = match ydl_new w with
        | None => engine_calls s ++ [url]
        | Some _ => engine_calls s
        end
    ∧ (b = true → engine_calls s' = engine_calls s ++ [url])
    ∧ is_downloading s' = false.
Proof.
  intros Hwf.
  unfold download_single_video, guarded, download_single_video_body.
  set (s1 := set_cancel_download false (set_is_downloading true s)).
  destruct (lift_build_ok (progress_hook s1) fmt q
              (if str_truthy out then out else Some (base_path s1)) false s1)
    as (o & h' & E & _); [done |].
  rewrite E. unfold open_engine.
  destruct (ydl_new w) as [e|] eqn:Hnew.
  - eexists _, _. split; [reflexivity |]. repeat split; try done.
    + intros [? _]. done.
    + intros _. by left.
  - unfold engine_download. cbn [engine_calls set_objects s1 set_cancel_download set_is_downloading].
    destruct (ev_raises (ydl_download w (length (engine_calls s)) url)) as [e|] eqn:Hdl.
    + eexists _, _. split; [reflexivity |]. repeat split; try done.
      * intros [_ ?]. done.
      * intros _. by right.
      * by destruct (ev_cancel _).
    + eexists _, _. split; [reflexivity |]. repeat split; try done.
      * intros [? | ?]; done.
      * by destruct (ev_cancel _).
      * by destruct (ev_cancel _).
Qed.

(** ** [_get_downloaded_ids] *)

Lemma scan_missing_directory (w : world) (folder : string) :
  listdir w folder = None → _get_downloaded_ids w folder = Ok ∅.
Proof. intros H. unfold _get_downloaded_ids. by rewrite H. Qed.

Lemma scan_one_passable (f : sidecar) (ids : gset id_key) :
  passable f →
  match scan_one f ids with
  | Ok ids' => ids' = from_option (λ k, {[k]} ∪ ids) ids (sidecar_id f)
  | Raise e => caught_by scan_handlers e = true ∧ sidecar_id f = None
  end.
Proof.
  destruct f as [e | doc]; cbn; [done |].
  destruct doc as [| | | | |d]; cbn; try done.
  destruct (dict_get d "id") as [v|]; [| done].
  destruct (truthy v); [| done].
  intros [k Hk]; [done |]. by rewrite Hk.
Qed.

(** On passable sidecars the scan returns exactly the identifiers they
    carry. *)
Lemma scan_loop_passable (files : list sidecar) (ids : gset id_key) :
  Forall passable files →
  scan_loop files ids = Ok (list_to_set (omap sidecar_id files) ∪ ids).
Proof.
  intros Hall. revert ids. induction Hall as [| f files Hf _ IH]; intros ids.
  - cbn. f_equal. set_solver.
  - change (scan_loop (f :: files) ids) with
      (match scan_one f ids with
       | Ok ids' => scan_loop files ids'
       | Raise e => if caught_by scan_handlers e then scan_loop files ids else Raise e
       end).
    pose proof (scan_one_passable f ids Hf) as H1.
    change (omap sidecar_id (f :: files)) with
      (match sidecar_id f with
       | Some k => k :: omap sidecar_id files
       | None => omap sidecar_id files
       end).
    destruct (scan_one f ids) as [ids' | e].
    + rewrite IH. f_equal. subst ids'. destruct (sidecar_id f); cbn; set_solver.
    + destruct H1 as [Hc Hn]. rewrite Hc, Hn. apply IH.
Qed.

Lemma scan_passable_directory (w : world) (folder : string) entries :
  listdir w folder = Some entries →
  Forall passable (glob_info_json entries) →
  _get_downloaded_ids w folder
  = Ok (list_to_set (omap sidecar_id (glob_info_json entries))).
Proof.
  intros Hdir Hall. unfold _get_downloaded_ids. rewrite Hdir.
  rewrite scan_loop_passable by done. f_equal. set_solver.
Qed.

(** C3: a sidecar that holds valid JSON which is not an object (here the
    empty array) makes [data.get('id')] raise AttributeError, which the
    [except] clause does not name: the scan aborts instead of skipping the
    file.  The same happens when reading raises UnicodeDecodeError and
    when the identifier is a list. *)
Theorem scan_aborts_on_unexpected_sidecar :
  _get_downloaded_ids
    (Examples.demo_world Examples.mix false (λ _, Examples.quiet)
       (Some [Examples.sidecar_for "a1"; ("broken.info.json", Parsed (JList []))]))
    "out/Mix" = Raise AttributeError
  ∧ _get_downloaded_ids
      (Examples.demo_world Examples.mix false (λ _, Examples.quiet)
         (Some [("bytes.info.json", ReadFails UnicodeDecodeError)]))
      "out/Mix" = Raise UnicodeDecodeError
  ∧ _get_downloaded_ids
      (Examples.demo_world Examples.mix false (λ _, Examples.quiet)
         (Some [("odd.info.json", Parsed (JDict [("id", JList [JInt 1])]))]))
      "out/Mix" = Raise TypeError.
Proof. repeat split; vm_compute; reflexivity. Qed.

(** ** [download_playlist] *)

Lemma deliver_cancel_calls c (s : state) :
  engine_calls (deliver_cancel c s) = engine_calls s.
Proof. by destruct c. Qed.

Lemma deliver_cancel_flag c (s : state) :
  cancel_download (deliver_cancel c s) = c || cancel_download s.
Proof. by destruct c. Qed.

Lemma deliver_cancel_objects c (s : state) :
  objects (deliver_cancel c s) = objects s.
Proof. by destruct c. Qed.

Lemma deliver_cancel_base_path c (s : state) :
  base_path (deliver_cancel c s) = base_path s.
Proof. by destruct c. Qed.

Lemma reset_hook_frame entries (s : state) :
  engine_calls (reset_hook entries s) = engine_calls s
  ∧ cancel_download (reset_hook entries s) = cancel_download s
  ∧ objects (reset_hook entries s) = objects s.
Proof. unfold reset_hook. by destruct (progress_hook s). Qed.

(** No candidate is left when there is no entry, or when skipping is on
    and every available entry is known. *)
Lemma candidate_urls_nil (skip : bool) (ids : gset id_key) (entries : list (option entry)) :
  (entries = []
   ∨ (skip = true ∧ ∀ e, Some e ∈ entries → ∃ v, entry_id e = Some v ∧ inl v ∈ ids)) →
  candidate_urls skip ids entries = [].
Proof.
  intros [-> | [-> Hall]]; [done |].
  induction entries as [| [e|] entries IH]; cbn; [done | |].
  - destruct (Hall e) as (v & Hv & Hin); [left |].
    rewrite Hv. cbn. rewrite bool_decide_eq_true_2 by done. cbn.
    apply IH. intros e' He'. apply Hall. by right.
  - apply IH. intros e' He'. apply Hall. by right.
Qed.

(** The loop under a cancel request that arrives with the [k]-th call. *)
Lemma download_loop_cancelled (w : world) (k : nat) :
  ∀ (urls : list string) (s : state),
    k ≤ length urls →
    calls_complete w (length (engine_calls s)) urls k →
    cancelled_after w (length (engine_calls s)) (cancel_download s) urls k →
    ∃ s', download_loop w urls s = (Ok tt, s')
          ∧ engine_calls s' = engine_calls s ++ take k urls
          ∧ cancel_download s' = true.
Proof.
  induction k as [| k IH]; intros urls s Hk Hdone Hcancel.
  - cbn in Hcancel. exists s. rewrite take_0, app_nil_r.
    destruct urls; cbn; [done |]. by rewrite Hcancel.
  - destruct urls as [| u rest]; [cbn in Hk; lia |].
    destruct Hcancel as (Hflag & Hquiet & Hlast).
    cbn [download_loop]. rewrite Hflag. unfold engine_download.
    rewrite <- (Nat.add_0_r (length (engine_calls s))).
    rewrite (Hdone 0 u) by (cbn; done || lia).
    set (s1 := deliver_cancel _ (record_call u s)).
    assert (Hcalls : engine_calls s1 = engine_calls s ++ [u])
      by (unfold s1; by rewrite deliver_cancel_calls).
    assert (Hlen : length (engine_calls s1) = S (length (engine_calls s)))
      by (rewrite Hcalls, length_app; cbn; lia).
    destruct (IH rest s1) as (s' & E & Hlog & Hc).
    + cbn in Hk. lia.
    + intros j x Hj Hx. rewrite Hlen.
      replace (S (length (engine_calls s)) + j) with (length (engine_calls s) + S j) by lia.
      apply Hdone; [lia | done].
    + unfold s1 at 2. rewrite deliver_cancel_flag. cbn [cancel_download record_call].
      rewrite Hflag, orb_false_r, Hlen.
      destruct k as [| k'].
      * cbn. apply (Hlast u). done.
      * cbn. rewrite (Hquiet 0 u) by (done || lia). split; [done |]. split.
        -- intros j x Hj Hx.
           replace (S (length (engine_calls s) + j))
             with (length (engine_calls s) + S j) by lia.
           apply Hquiet; [lia | done].
        -- intros x Hx.
           replace (S (length (engine_calls s) + k'))
             with (length (engine_calls s) + S k') by lia.
           by apply Hlast.
    + exists s'. split; [done |]. split; [| done].
      rewrite Hlog, Hcalls, <- app_assoc. reflexivity.
Qed.

Lemma effective_output_resolved out c (s : state) :
  effective_output out
    (deliver_cancel c (set_cancel_download false (set_is_downloading true s)))
  = effective_output out s.
Proof. unfold effective_output. by rewrite deliver_cancel_base_path. Qed.

(** When the info lookup succeeds, the scan (if asked for) returns, and
    no candidate is left, either because the collection has no entry or
    because [skip_existing] is set and the scan knows the identifier of
    every available entry, [download_playlist] returns [True] and hands
    nothing to the engine's [download]. *)
Theorem download_playlist_nothing_to_do
    (w : world) (url fmt q : string) (out : option string) (skip_existing : bool)
    (s : state) (playlist_info : info) (c : bool) (ids : gset id_key) :
  extract_info w url = (Ok (Some playlist_info), c) →
  (if skip_existing
   then _get_downloaded_ids w (join_path (effective_output out s) (safe_title w playlist_info))
   else Ok ∅) = Ok ids →
  (entries_of playlist_info = []
   ∨ (skip_existing = true
      ∧ ∀ e, Some e ∈ entries_of playlist_info →
             ∃ v, entry_id e = Some v ∧ inl v ∈ ids)) →
  ∃ s', download_playlist w url fmt q out skip_existing s = (Ok true, s')
        ∧ engine_calls s' = engine_calls s.
Proof.
  intros Hinfo Hscan Hnone.
  unfold download_playlist, guarded, download_playlist_body, get_video_info.
  rewrite Hinfo, effective_output_resolved, Hscan.
  rewrite (candidate_urls_nil skip_existing ids _ Hnone).
  eexists. split; [reflexivity |].
  cbn [engine_calls set_is_downloading].
  destruct (reset_hook_frame (entries_of playlist_info)
              (deliver_cancel c (set_cancel_download false (set_is_downloading true s))))
    as (-> & _). by rewrite deliver_cancel_calls.
Qed.

(** When the scan of the destination folder raises, the [except] of
    [download_playlist] turns that into [False], whatever the entries. *)
Lemma download_playlist_fails_when_scan_aborts
    (w : world) (url fmt q : string) (out : option string)
    (s : state) (playlist_info : info) (c : bool) (e : exn) :
  extract_info w url = (Ok (Some playlist_info), c) →
  _get_downloaded_ids w (join_path (effective_output out s) (safe_title w playlist_info))
  = Raise e →
  ∃ s', download_playlist w url fmt q out true s = (Ok false, s')
        ∧ engine_calls s' = engine_calls s.
Proof.
  intros Hinfo Hscan.
  unfold download_playlist, guarded, download_playlist_body, get_video_info.
  rewrite Hinfo, effective_output_resolved, Hscan.
  eexists. split; [reflexivity |].
  cbn [engine_calls set_is_downloading].
  destruct (reset_hook_frame (entries_of playlist_info)
              (deliver_cancel c (set_cancel_download false (set_is_downloading true s))))
    as (-> & _). by rewrite deliver_cancel_calls.
Qed.

(** C2: with [skip_existing] set, a destination folder that holds one
    sidecar the scan does not get past (here the empty array) makes
    [download_playlist] return [False], for a collection without entries
    and for one whose five entries all have their sidecar in the folder;
    without that file both runs return [True].  Nothing is handed to the
    engine in any of the four runs. *)
Theorem download_playlist_nothing_to_do_fails_on_odd_sidecar :
  let broken := ("broken.info.json", Parsed (JList [])) in
  let run (i : info) (dir : list (string * sidecar)) :=
    download_playlist (Examples.demo_world i false (λ _, Examples.quiet) (Some dir))
      "https://www.youtube.com/playlist?list=PL1" "mp3" "192" None true
      Examples.downloader in
  (fst (run Examples.empty_mix [broken]) = Ok false
   ∧ engine_calls (snd (run Examples.empty_mix [broken])) = [])
  ∧ (fst (run Examples.mix (Examples.all_sidecars ++ [broken])) = Ok false
     ∧ engine_calls (snd (run Examples.mix (Examples.all_sidecars ++ [broken]))) = [])
  ∧ (fst (run Examples.empty_mix []) = Ok true
     ∧ engine_calls (snd (run Examples.empty_mix [])) = [])
  ∧ (fst (run Examples.mix Examples.all_sidecars) = Ok true
     ∧ engine_calls (snd (run Examples.mix Examples.all_sidecars)) = []).
Proof. vm_compute. repeat split. Qed.

(** C1: a playlist run over [n >= 1] candidates in which the first cancel
    request arrives while the [k]-th engine call is in flight or right
    after it (for [k = 0]: while the info lookup runs), and in which the
    first [k] calls come back, hands exactly the first [k] candidates to
    the engine, in order, never the later ones, and returns [False].  The
    call that is in flight when the request arrives is completed: the flag
    is read at the head of each iteration and at the final [return] only. *)
Theorem download_playlist_cancelled_between_items
    (w : world) (url fmt q : string) (out : option string) (skip_existing : bool)
    (s : state) (playlist_info : info) (c : bool) (ids : gset id_key)
    (urls : list string) (k : nat) :
  config_wf (objects s) →
  extract_info w url = (Ok (Some playlist_info), c) →
  (if skip_existing
   then _get_downloaded_ids w (join_path (effective_output out s) (safe_title w playlist_info))
   else Ok ∅) = Ok ids →
  candidate_urls skip_existing ids (entries_of playlist_info) = urls →
  urls ≠ [] →
  ydl_new w = None →
  k ≤ length urls →
  calls_complete w (length (engine_calls s)) urls k →
  cancelled_after w (length (engine_calls s)) c urls k →
  ∃ s', download_playlist w url fmt q out skip_existing s = (Ok false, s')
        ∧ engine_calls s' = engine_calls s ++ take k urls
        ∧ length (engine_calls s') = length (engine_calls s) + k
        ∧ ∀ j u, k ≤ j → urls !! j = Some u →
                 engine_calls s' !! (length (engine_calls s) + j) = None.
Proof.
  intros Hwf Hinfo Hscan Hurls Hne Hnew Hk Hdone Hcancel.
  unfold download_playlist, guarded, download_playlist_body, get_video_info.
  rewrite Hinfo, effective_output_resolved, Hscan, Hurls.
  destruct urls as [| u rest] eqn:Eurls; [done |]. rewrite <- Eurls in *.
  set (s3 := reset_hook _ _).
  assert (Hframe : engine_calls s3 = engine_calls s ∧ cancel_download s3 = c
                   ∧ objects s3 = objects s).
  { unfold s3. destruct (reset_hook_frame (entries_of playlist_info)
      (deliver_cancel c (set_cancel_download false (set_is_downloading true s))))
      as (-> & -> & ->).
    rewrite deliver_cancel_calls, deliver_cancel_flag, deliver_cancel_objects.
    cbn. by rewrite orb_false_r. }
  destruct Hframe as (Hcalls & Hflag & Hobj).
  destruct (lift_build_ok (progress_hook s3) fmt q (Some (effective_output out s)) true s3)
    as (o & h' & E & _); [by rewrite Hobj |].
  rewrite E. unfold open_engine. rewrite Hnew.
  destruct (download_loop_cancelled w k urls (set_objects h' s3)) as (s6 & Eloop & Hlog & Hc).
  - done.
  - cbn [engine_calls set_objects]. by rewrite Hcalls.
  - cbn [engine_calls cancel_download set_objects]. by rewrite Hcalls, Hflag.
  - rewrite Eloop, Hc. cbn [negb]. eexists. split; [reflexivity |].
    cbn [engine_calls set_is_downloading]. cbn [engine_calls set_objects] in Hlog.
    rewrite Hlog, Hcalls. split; [done |]. split.
    + rewrite length_app, length_take. lia.
    + intros j x Hj _. apply lookup_ge_None.
      rewrite length_app, length_take. lia.
Qed.

Lemma known_entries_by_test (ids : gset id_key) (entries : list (option entry)) :
  forallb (λ oe, match oe with
                 | Some e => id_in (entry_id e) ids
                 | None => true
                 end) entries = true →
  ∀ e, Some e ∈ entries → ∃ v, entry_id e = Some v ∧ inl v ∈ ids.
Proof.
  intros Hall e He. rewrite forallb_forall in Hall.
  apply list_elem_of_In, Hall in He. unfold id_in in He.
  destruct (entry_id e) as [v|]; [| done].
  exists v. split; [done |]. by apply bool_decide_eq_true_1 in He.
Qed.

Lemma download_single_video_reports_engine_outcome_witness :
  ∃ b s',
    download_single_video
      (Examples.demo_world Examples.mix false (λ _, Examples.quiet) None)
      "https://youtu.be/a1" "mp3" "192" None Examples.downloader = (Ok b, s')
    ∧ (b = true ↔
         ydl_new (Examples.demo_world Examples.mix false (λ _, Examples.quiet) None) = None
         ∧ ev_raises (Examples.quiet) = None)
    ∧ (b = false ↔
         ydl_new (Examples.demo_world Examples.mix false (λ _, Examples.quiet) None) ≠ None
         ∨ ev_raises (Examples.quiet) ≠ None)
    ∧ engine_calls s' = ["https://youtu.be/a1"]
    ∧ (b = true → engine_calls s' = ["https://youtu.be/a1"])
    ∧ is_downloading s' = false.
Proof.
  apply (download_single_video_reports_engine_outcome
           (Examples.demo_world Examples.mix false (λ _, Examples.quiet) None)
           "https://youtu.be/a1" "mp3" "192" None Examples.downloader).
  apply initial_heap_wf.
Defined.

Lemma download_playlist_nothing_to_do_witness :
  ∃ s',
    download_playlist
      (Examples.demo_world Examples.mix false (λ _, Examples.quiet)
         (Some Examples.all_sidecars))
      "https://www.youtube.com/playlist?list=PL1" "mp3" "192" None true
      Examples.downloader = (Ok true, s')
    ∧ engine_calls s' = engine_calls Examples.downloader.
Proof.
  apply (download_playlist_nothing_to_do
           (Examples.demo_world Examples.mix false (λ _, Examples.quiet)
              (Some Examples.all_sidecars))
           "https://www.youtube.com/playlist?list=PL1" "mp3" "192" None true
           Examples.downloader Examples.mix false
           (list_to_set [inl "a1"; inl "b2"; inl "c3"; inl "d4"; inl "e5"])).
  - reflexivity.
  - vm_compute. reflexivity.
  - right. split; [reflexivity |].
    apply known_entries_by_test. vm_compute. reflexivity.
Defined.

Lemma download_playlist_cancelled_between_items_witness :
  ∃ s',
    download_playlist
      (Examples.demo_world Examples.mix false (Examples.cancel_during 2) None)
      "https://www.youtube.com/playlist?list=PL1" "mp3" "192" None true
      Examples.downloader = (Ok false, s')
    ∧ engine_calls s'
      = engine_calls Examples.downloader
        ++ take 2 (map (λ v, watch_url (Some v)) ["a1"; "b2"; "c3"; "d4"; "e5"])
    ∧ length (engine_calls s') = length (engine_calls Examples.downloader) + 2
    ∧ ∀ j u, 2 ≤ j →
        map (λ v, watch_url (Some v)) ["a1"; "b2"; "c3"; "d4"; "e5"] !! j = Some u →
        engine_calls s' !! (length (engine_calls Examples.downloader) + j) = None.
Proof.
  apply (download_playlist_cancelled_between_items
           (Examples.demo_world Examples.mix false (Examples.cancel_during 2) None)
           "https://www.youtube.com/playlist?list=PL1" "mp3" "192" None true
           Examples.downloader Examples.mix false ∅
           (map (λ v, watch_url (Some v)) ["a1"; "b2"; "c3"; "d4"; "e5"]) 2).
  - apply initial_heap_wf.
  - reflexivity.
  - reflexivity.
  - vm_compute. reflexivity.
  - discriminate.
  - reflexivity.
  - simpl. lia.
  - intros j u _ _. reflexivity.
  - split; [reflexivity |]. split.
    + intros j u Hj _. destruct j as [| j]; [reflexivity | lia].
    + intros u _. reflexivity.
Defined.

(** The shape of the default configuration survives every download call,
    so it holds in every state reachable from [init]. *)
Lemma engine_download_objects (w : world) (url : string) (s : state) :
  objects (snd (engine_download w url s)) = objects s.
Proof.
  unfold engine_download.
  destruct (ev_raises _); cbn [snd]; by rewrite deliver_cancel_objects.
Qed.

Lemma download_loop_objects (w : world) (urls : list string) (s : state) :
  objects (snd (download_loop w urls s)) = objects s.
Proof.
  revert s. induction urls as [| u urls IH]; intros s; cbn [download_loop]; [done |].
  destruct (cancel_download s); [done |].
  pose proof (engine_download_objects w u s) as H.
  destruct (engine_download w u s) as [[[] | e] s']; cbn [snd] in *; [| done].
  by rewrite IH.
Qed.

Lemma guarded_objects (body : state → result bool * state) (s : state) :
  objects (snd (guarded body s)) = objects (snd (body s)).
Proof. unfold guarded. by destruct (body s) as [[b | e] s']. Qed.

Lemma download_single_video_keeps_config
    (w : world) (url fmt q : string) (out : option string) (s : state) :
  config_wf (objects s) →
  config_wf (objects (snd (download_single_video w url fmt q out s))).
Proof.
  intros Hwf. unfold download_single_video. rewrite guarded_objects.
  unfold download_single_video_body.
  set (s1 := set_cancel_download false (set_is_downloading true s)).
  destruct (lift_build_ok (progress_hook s1) fmt q
              (if str_truthy out then out else Some (base_path s1)) false s1)
    as (o & h' & E & Hwf'); [done |].
  rewrite E. unfold open_engine. destruct (ydl_new w); [done |].
  pose proof (engine_download_objects w url (set_objects h' s1)) as H.
  destruct (engine_download w url (set_objects h' s1)) as [[[] | e] s4];
    cbn [snd] in *; by rewrite H.
Qed.

Lemma download_playlist_keeps_config
    (w : world) (url fmt q : string) (out : option string) (skip_existing : bool)
    (s : state) :
  config_wf (objects s) →
  config_wf (objects (snd (download_playlist w url fmt q out skip_existing s))).
Proof.
  intros Hwf. unfold download_playlist. rewrite guarded_objects.
  unfold download_playlist_body, get_video_info.
  destruct (extract_info w url) as [r c].
  set (s1 := set_cancel_download false (set_is_downloading true s)).
  assert (Hs2 : objects (deliver_cancel c s1) = objects s)
    by by rewrite deliver_cancel_objects.
  destruct r as [[playlist_info |] | e]; cbn [snd]; try by rewrite Hs2.
  set (s3 := reset_hook _ _).
  assert (Hs3 : objects s3 = objects s).
  { unfold s3. by destruct (reset_hook_frame (entries_of playlist_info)
                              (deliver_cancel c s1)) as (_ & _ & ->). }
  destruct (if skip_existing then _ else _) as [ids | e];
    [| cbn [snd]; by rewrite Hs3].
  destruct (candidate_urls skip_existing ids (entries_of playlist_info)) as [| u urls];
    [cbn [snd]; by rewrite Hs3 |].
  destruct (lift_build_ok (progress_hook s3) fmt q
              (Some (effective_output out (deliver_cancel c s1))) true s3)
    as (o & h' & E & Hwf'); [by rewrite Hs3 |].
  rewrite E. unfold open_engine. destruct (ydl_new w); [done |].
  pose proof (download_loop_objects w (u :: urls) (set_objects h' s3)) as H.
  destruct (download_loop w (u :: urls) (set_objects h' s3)) as [[[] | e] s6];
    cbn [snd] in *; by rewrite H.
Qed.

(** ** [_build_download_options] and the shared default configuration *)

(** C4: [DEFAULT_DOWNLOAD_CONFIG.copy()] copies the top level only.  An
    audio build writes the codec and the quality into the first
    postprocessor of the default configuration itself: after a build for
    flac the defaults read flac/best instead of mp3/192, a later build for
    a format outside both tables returns options that show flac, and a
    later audio build changes the options an earlier call returned. *)
Theorem build_options_writes_into_shared_default (downloads_dir : string) :
  let codec := [inl "postprocessors"; inr 0; inl "preferredcodec"] in
  let quality := [inl "postprocessors"; inr 0; inl "preferredquality"] in
  let h0 := initial_heap downloads_dir in
  let first := _build_download_options None "flac" "best" None false h0 in
  let second := _build_download_options None "opus" "64" None false (snd first) in
  let third := _build_download_options None "m4a" "128" None false (snd first) in
  lookup_path h0 (VRef DEFAULT_DOWNLOAD_CONFIG) codec = Some (VStr "mp3")
  ∧ lookup_path h0 (VRef DEFAULT_DOWNLOAD_CONFIG) quality = Some (VStr "192")
  ∧ fst first = Ok (VRef 5)
  ∧ lookup_path (snd first) (VRef DEFAULT_DOWNLOAD_CONFIG) codec = Some (VStr "flac")
  ∧ lookup_path (snd first) (VRef DEFAULT_DOWNLOAD_CONFIG) quality = Some (VStr "best")
  ∧ fst second = Ok (VRef 6)
  ∧ lookup_path (snd second) (VRef 6) codec = Some (VStr "flac")
  ∧ lookup_path (snd first) (VRef 5) codec = Some (VStr "flac")
  ∧ lookup_path (snd third) (VRef 5) codec = Some (VStr "m4a").
Proof. repeat split; vm_compute; reflexivity. Qed.

(** A video build rebinds [postprocessors] in the copy and leaves the
    objects of the default configuration as they were. *)
Lemma video_build_keeps_default (downloads_dir : string) :
  Forall (λ fmt,
    ∀ q out pm,
      take 5 (snd (_build_download_options None fmt q out pm (initial_heap downloads_dir)))
      = initial_heap downloads_dir)
    ["mp4"; "webm"; "mkv"; "avi"].
Proof.
  repeat constructor; intros q out pm;
    unfold _build_download_options, set_output_template;
    destruct (str_truthy out), pm; reflexivity.
Qed.

(** C5: for the four video formats the quality argument has no effect on
    the options: the stream selector is the container filter of
    [VIDEO_FORMATS] alone, and the height ceiling that [VIDEO_QUALITIES]
    holds for the quality is never applied.  The postprocessors are the
    thumbnail and metadata embedders only. *)
Theorem video_options_ignore_quality (downloads_dir : string) :
  let result := _build_download_options None "mp4" "720p" (Some "out") false
                  (initial_heap downloads_dir) in
  Forall (λ fmt,
    ∀ hook q out pm (h : heap),
      _build_download_options hook fmt q out pm h
      = _build_download_options hook fmt "Mejor" out pm h)
    ["mp4"; "webm"; "mkv"; "avi"]
  ∧ fst result = Ok (VRef 5)
  ∧ lookup_path (snd result) (VRef 5) [inl "format"] = Some (VStr "best[ext=mp4]")
  ∧ VIDEO_FORMATS !! "mp4" = Some "best[ext=mp4]"
  ∧ VIDEO_QUALITIES !! "720p" = Some "best[height<=720]"
  ∧ lookup_path (snd result) (VRef 5) [inl "postprocessors"; inr 0; inl "key"]
    = Some (VStr "EmbedThumbnail")
  ∧ lookup_path (snd result) (VRef 5) [inl "postprocessors"; inr 1; inl "key"]
    = Some (VStr "FFmpegMetadata")
  ∧ lookup_path (snd result) (VRef 5) [inl "postprocessors"; inr 2] = None.
Proof.
  split; [repeat constructor; intros; reflexivity |].
  repeat split; vm_compute; reflexivity.
Qed.

(** ** Settings *)

Lemma dict_of_members_insertions (members : list (string * json)) (m0 : gmap string json) :
  NoDup members.*1 →
  fold_left (λ m kv, <[fst kv := snd kv]> m) members m0 = list_to_map members ∪ m0.
Proof.
  revert m0. induction members as [| [k v] members IH]; intros m0 Hnd; cbn.
  - by rewrite (left_id_L ∅ (∪)).
  - apply NoDup_cons in Hnd as [Hk Hnd]. rewrite IH by done.
    rewrite <- insert_union_l. symmetry. apply insert_union_r.
    by apply not_elem_of_list_to_map_1.
Qed.

(** Reading back what [json.dump] wrote gives the dictionary that was
    written. *)
Lemma dict_of_members_to_list (data : gmap string json) :
  Settings.dict_of_members (map_to_list data) = data.
Proof.
  unfold Settings.dict_of_members.
  rewrite dict_of_members_insertions by apply NoDup_fst_map_to_list.
  rewrite (right_id_L ∅ (∪)). apply list_to_map_to_list.
Qed.

Lemma load_after_save (fs fs' : Settings.filesystem) (data : gmap string json) (p : string) :
  Settings.save_json_file data p fs = (Ok true, fs') →
  Settings.load_json_file fs' p = Ok (Some data).
Proof.
  unfold Settings.save_json_file. intros H.
  destruct (Settings.write_error fs p) as [e|].
  - by destruct (caught_by [PermissionError; OSError] e).
  - injection H as <-. unfold Settings.load_json_file. cbn [Settings.files].
    rewrite lookup_insert_eq. by rewrite dict_of_members_to_list.
Qed.

(** C7: after [set(key, value)] and a [save_settings] that reports
    success, a new [SettingsManager] over the same path holds [value]
    under [key], every member of the saved document unchanged (known or
    unknown to the defaults), and the built-in default for every name the
    saved document lacks. *)
Theorem settings_round_trip
    (home : string) (sm : Settings.SettingsManager) (fs fs' : Settings.filesystem)
    (key : string) (value : json) :
  Settings.save_settings (Settings.set sm key value) fs = (Ok true, fs') →
  ∃ sm',
    Settings.new_manager home fs' (Settings.settings_file sm) = Ok sm'
    ∧ Settings.settings sm' !! key = Some value
    ∧ Settings.get sm' key None = Some value
    ∧ (∀ k v, Settings.settings (Settings.set sm key value) !! k = Some v →
              Settings.settings sm' !! k = Some v)
    ∧ (∀ k, Settings.settings (Settings.set sm key value) !! k = None →
            Settings.settings sm' !! k = Settings.default_settings home !! k).
Proof.
  intros Hsave. unfold Settings.save_settings in Hsave.
  apply load_after_save in Hsave. cbn [Settings.set Settings.settings_file] in Hsave.
  unfold Settings.new_manager, Settings._load_settings. rewrite Hsave.
  cbn [Settings.set Settings.settings].
  destruct (decide (<[key := value]> (Settings.settings sm) = ∅)) as [He | _].
  { by apply insert_non_empty in He. }
  eexists. split; [reflexivity |].
  unfold Settings.get, Settings.dict_update. cbn [Settings.settings].
  assert (Hkey : (<[key := value]> (Settings.settings sm)
                  ∪ Settings.default_settings home) !! key = Some value).
  { apply lookup_union_Some_l. apply lookup_insert_eq. }
  split; [done |]. split; [by rewrite Hkey |]. split.
  - intros k v Hk. by apply lookup_union_Some_l.
  - intros k Hk. by apply lookup_union_r.
Qed.

Lemma settings_round_trip_witness :
  let fs0 := {| Settings.files := ∅; Settings.write_error := λ _, None |} in
  let sm := {| Settings.settings_file := "settings.json";
               Settings.settings := Settings.default_settings "/home/u" |} in
  let saved := Settings.save_settings (Settings.set sm "default_format" (JStr "flac")) fs0 in
  ∃ sm',
    Settings.new_manager "/home/u" (snd saved) "settings.json" = Ok sm'
    ∧ Settings.settings sm' !! "default_format" = Some (JStr "flac")
    ∧ Settings.get sm' "default_format" None = Some (JStr "flac")
    ∧ (∀ k v, Settings.settings (Settings.set sm "default_format" (JStr "flac")) !! k = Some v →
              Settings.settings sm' !! k = Some v)
    ∧ (∀ k, Settings.settings (Settings.set sm "default_format" (JStr "flac")) !! k = None →
            Settings.settings sm' !! k = Settings.default_settings "/home/u" !! k).
Proof.
  intros fs0 sm saved.
  apply (settings_round_trip "/home/u" sm fs0 (snd saved) "default_format" (JStr "flac")).
  reflexivity.
Defined.

(** ** [clean_empty_folders] *)

Lemma path_eqb_true (p q : path) : path_eqb p q = true ↔ p = q.
Proof. unfold path_eqb. apply bool_decide_eq_true. Qed.

Lemma kind_eqb_true (a b : kind) : kind_eqb a b = true ↔ a = b.
Proof. destruct a, b; cbn; split; congruence. Qed.

Lemma has_kind_true (t : tree) (p : path) (k : kind) :
  has_kind t p k = true ↔ (p, k) ∈ t.
Proof.
  unfold has_kind. rewrite existsb_exists. split.
  - intros ([q k'] & Hin & Hq). apply andb_true_iff in Hq as [Hq Hk].
    apply path_eqb_true in Hq. apply kind_eqb_true in Hk. cbn in *. subst.
    by apply list_elem_of_In.
  - intros Hin. exists (p, k). split; [by apply list_elem_of_In |].
    apply andb_true_iff. split; [by apply path_eqb_true | by apply kind_eqb_true].
Qed.

Lemma is_under_strict (base q : path) : is_under base q = true → q ≠ base.
Proof.
  revert q. induction base as [| b base IH]; intros [| x q]; cbn; try done.
  intros H ?. simplify_eq. apply andb_true_iff in H as [_ H]. by apply IH in H.
Qed.

Lemma insert_by_depth_perm (p : path) (l : list path) : insert_by_depth p l ≡ₚ p :: l.
Proof.
  induction l as [| q l IH]; cbn [insert_by_depth]; [done |].
  destruct (length p <? length q); [| done].
  rewrite IH. apply Permutation_swap.
Qed.

Lemma sorted_deepest_first_perm (l : list path) : sorted_deepest_first l ≡ₚ l.
Proof.
  induction l as [| p l IH]; cbn [sorted_deepest_first foldr]; [done |].
  rewrite insert_by_depth_perm. by rewrite IH.
Qed.

Lemma insert_by_depth_sorted (p : path) (l : list path) :
  StronglySorted deeper_first l → StronglySorted deeper_first (insert_by_depth p l).
Proof.
  induction 1 as [| q l Hl IH Hq]; cbn [insert_by_depth].
  - repeat constructor.
  - destruct (length p <? length q) eqn:E.
    + apply Nat.ltb_lt in E. constructor; [done |].
      rewrite insert_by_depth_perm. constructor; [unfold deeper_first; lia | done].
    + apply Nat.ltb_ge in E. constructor; [by constructor |].
      constructor; [done |].
      eapply Forall_impl; [exact Hq |]. unfold deeper_first. intros x Hx. cbn in Hx. lia.
Qed.

(** The order in which the folders are visited. *)
Lemma sorted_deepest_first_sorted (l : list path) :
  StronglySorted deeper_first (sorted_deepest_first l).
Proof.
  induction l as [| p l IH]; cbn [sorted_deepest_first foldr];
    [constructor | by apply insert_by_depth_sorted].
Qed.

Lemma rmdir_filter (t : tree) (gone : list path) (folder : path) :
  rmdir folder (filter (λ e, fst e ∉ gone) t) = filter (λ e, fst e ∉ (gone ++ [folder])) t.
Proof.
  unfold rmdir. rewrite list_filter_filter. apply list_filter_iff.
  intros [q k]. cbn. rewrite Is_true_true, path_eqb_true, not_elem_of_app, list_elem_of_singleton.
  tauto.
Qed.

Lemma clean_step_inv (os_error : path → bool) (t : tree) (base : path) (s : sweep)
    (folder : path) :
  sweep_inv t base s → sweep_inv t base (clean_step os_error base s folder).
Proof.
  intros Hinv. unfold clean_step.
  destruct (is_dir (sw_tree s) folder && negb (path_eqb folder base)) eqn:Hguard; [| done].
  destruct (os_error folder); [done |].
  destruct (negb (any_iterdir (sw_tree s) folder)); [| done].
  destruct Hinv as (Htree & Hcount & Hnd & Hdirs).
  apply andb_true_iff in Hguard as [Hdir Hbase].
  apply has_kind_true in Hdir. rewrite Htree in Hdir.
  apply list_elem_of_filter in Hdir as [Hfresh Hin]. cbn in Hfresh.
  assert (Hneq : folder ≠ base).
  { intros ->. apply negb_true_iff in Hbase.
    assert (path_eqb base base = true) by by apply path_eqb_true. congruence. }
  split; [| split; [| split]]; cbn [sw_tree deleted_count removed].
  - rewrite Htree. apply rmdir_filter.
  - rewrite length_app, Hcount. cbn. lia.
  - apply NoDup_app. split; [done |]. split; [| apply NoDup_singleton].
    intros x Hx Hx'. apply list_elem_of_singleton in Hx'. by subst.
  - intros p [Hp | Hp]%elem_of_app; [by apply Hdirs |].
    apply list_elem_of_singleton in Hp as ->. split; [| done].
    by apply has_kind_true.
Qed.

Lemma clean_loop_inv (os_error : path → bool) (t : tree) (base : path)
    (folders : list path) (s : sweep) :
  sweep_inv t base s → sweep_inv t base (fold_left (clean_step os_error base) folders s).
Proof.
  revert s. induction folders as [| f folders IH]; intros s Hinv; cbn; [done |].
  apply IH. by apply clean_step_inv.
Qed.

Lemma clean_empty_folders_inv (os_error : path → bool) (base : path) (t : tree) :
  sweep_inv t base (clean_empty_folders os_error base t).
Proof.
  unfold clean_empty_folders. apply clean_loop_inv.
  split; [| split; [| split]]; cbn.
  - symmetry. induction t as [| e t IH]; [done |].
    rewrite filter_cons_True; [by rewrite IH | apply not_elem_of_nil].
  - done.
  - apply NoDup_nil_2.
  - intros p Hp. by apply elem_of_nil in Hp.
Qed.

(** C8: [clean_empty_folders] visits the entries below the base path
    deepest first (by number of path segments, a permutation of the scan);
    it never removes the base path; the count it returns is the number of
    directories it removed, each of them once; and on [root/a/b] with [a]
    and [b] free of files, whatever the order of the scan, one call
    removes [b], then [a], returns 2 and leaves [root]. *)
Theorem clean_empty_folders_prunes_deepest_first :
  (∀ (t : tree) (base : path),
     StronglySorted deeper_first (sorted_deepest_first (rglob t base))
     ∧ sorted_deepest_first (rglob t base) ≡ₚ rglob t base)
  ∧ (∀ (os_error : path → bool) (base : path) (t : tree),
       let r := clean_empty_folders os_error base t in
       (base ∉ removed r)
       ∧ (is_dir t base = true → is_dir (sw_tree r) base = true)
       ∧ deleted_count r = length (removed r)
       ∧ NoDup (removed r)
       ∧ (∀ p, p ∈ removed r → is_dir t p = true)
       ∧ sw_tree r = filter (λ e, fst e ∉ removed r) t)
  ∧ (∀ t : tree,
       t ≡ₚ Examples.nested_empty →
       let r := clean_empty_folders Examples.no_os_error ["root"] t in
       removed r = [["root"; "a"; "b"]; ["root"; "a"]]
       ∧ deleted_count r = 2
       ∧ sw_tree r = [(["root"], KDir)]).
Proof.
  split; [| split].
  - intros t base. split; [apply sorted_deepest_first_sorted | apply sorted_deepest_first_perm].
  - intros os_error base t r.
    destruct (clean_empty_folders_inv os_error base t) as (Htree & Hcount & Hnd & Hdirs).
    fold r in Htree, Hcount, Hnd, Hdirs.
    assert (Hbase : base ∉ removed r) by (intros Hin; by destruct (Hdirs base Hin)).
    split; [done |]. split; [| split; [done | split; [done | split; [| done]]]].
    + intros Hdir. apply has_kind_true. rewrite Htree.
      apply list_elem_of_filter. split; [done | by apply has_kind_true].
    + intros p Hp. by destruct (Hdirs p Hp).
  - intros t Hperm. symmetry in Hperm. apply permutations_Permutation in Hperm.
    vm_compute in Hperm.
    repeat (apply elem_of_cons in Hperm as [-> | Hperm]; [by vm_compute |]).
    by apply elem_of_nil in Hperm.
Qed.

Lemma clean_empty_folders_prunes_deepest_first_witness :
  let r := clean_empty_folders Examples.no_os_error ["root"] Examples.nested_empty in
  removed r = [["root"; "a"; "b"]; ["root"; "a"]]
  ∧ deleted_count r = 2
  ∧ sw_tree r = [(["root"], KDir)].
Proof.
  apply (proj2 (proj2 clean_empty_folders_prunes_deepest_first) Examples.nested_empty).
  reflexivity.
Defined.

(** ** [get_storage_info] *)

Lemma sum_values_count_up (ext : string) (m : gmap string nat) :
  sum_values (count_up ext m) = S (sum_values m).
Proof.
  unfold count_up, sum_values.
  destruct (m !! ext) as [n|] eqn:E; cbn [default].
  - rewrite <- (insert_delete_eq m ext (n + 1)).
    rewrite map_fold_insert_L; [| intros; lia | apply lookup_delete_eq].
    rewrite (map_fold_delete_L _ _ ext n m); [lia | intros; lia | done].
  - rewrite map_fold_insert_L; [lia | intros; lia | done].
Qed.

Lemma count_extensions_sum (t : tree) (paths : list path) (m : gmap string nat) :
  sum_values
    (fold_left
       (λ extensions file_path,
          if is_file t file_path then count_up (lower (suffix file_path)) extensions
          else extensions) paths m)
  = sum_values m + length (filter (λ p, Is_true (is_file t p)) paths).
Proof.
  revert m. induction paths as [| p paths IH]; intros m; cbn [fold_left].
  - cbn. lia.
  - rewrite IH. destruct (is_file t p) eqn:E.
    + rewrite sum_values_count_up, filter_cons_True by by rewrite E. cbn. lia.
    + rewrite filter_cons_False; [done |]. rewrite E. exact id.
Qed.

Lemma one_kind_per_path (t : tree) (p : path) :
  NoDup t.*1 → is_file t p = true → is_dir t p = true → False.
Proof.
  intros Hnd Hf Hd. apply has_kind_true in Hf, Hd.
  apply list_elem_of_lookup in Hf as [i Hi], Hd as [j Hj].
  assert (i = j).
  { eapply NoDup_lookup; [exact Hnd | |]; rewrite list_lookup_fmap.
    - by rewrite Hi.
    - by rewrite Hj. }
  subst. congruence.
Qed.

Lemma disjoint_filters_length (t : tree) (paths : list path) :
  NoDup t.*1 →
  length (filter (λ p, Is_true (is_dir t p)) paths)
  + length (filter (λ p, Is_true (is_file t p)) paths) ≤ length paths.
Proof.
  intros Hnd. induction paths as [| p paths IH]; [done |].
  rewrite !filter_cons. destruct (is_dir t p) eqn:Ed, (is_file t p) eqn:Ef.
  - destruct (one_kind_per_path t p Hnd Ef Ed).
  - rewrite decide_True, decide_False by (cbn; tauto). cbn. lia.
  - rewrite decide_False, decide_True by (cbn; tauto). cbn. lia.
  - rewrite !decide_False by (cbn; tauto). cbn. lia.
Qed.

(** C10: [file_count] is the number of all entries below the base path,
    directories included.  It bounds [folder_count] and the sum of the
    per-extension counts, which is the number of regular files; in a tree
    that lists every path once the two together stay within [file_count],
    so with a directory below the base path [file_count] exceeds the
    number of regular files. *)
Theorem storage_info_file_count_counts_every_entry
    (st_size : path → option nat) (t : tree) (base : path) :
  let r := get_storage_info st_size t base in
  let regular_files := length (filter (λ p, Is_true (is_file t p)) (rglob t base)) in
  file_count r = length (rglob t base)
  ∧ folder_count r ≤ file_count r
  ∧ sum_values (extensions r) ≤ file_count r
  ∧ sum_values (extensions r) = regular_files
  ∧ (NoDup t.*1 → folder_count r + sum_values (extensions r) ≤ file_count r)
  ∧ (NoDup t.*1 → 0 < folder_count r → regular_files < file_count r).
Proof.
  intros r regular_files.
  assert (Hsum : sum_values (extensions r) = regular_files).
  { unfold r, get_storage_info, count_extensions. cbn [extensions].
    rewrite count_extensions_sum. done. }
  split; [done |]. split; [apply length_filter |].
  split; [rewrite Hsum; apply length_filter |]. split; [done |].
  assert (Hboth : NoDup t.*1 → folder_count r + regular_files ≤ file_count r)
    by apply disjoint_filters_length.
  split.
  - intros Hnd. rewrite Hsum. by apply Hboth.
  - intros Hnd Hpos. specialize (Hboth Hnd). lia.
Qed.

Lemma storage_info_file_count_counts_every_entry_witness :
  let r := get_storage_info (λ _, Some 0) Examples.nested_empty ["root"] in
  file_count r = 2
  ∧ folder_count r = 2
  ∧ sum_values (extensions r) = 0
  ∧ sum_values (extensions r) < file_count r.
Proof.
  intros r.
  destruct (storage_info_file_count_counts_every_entry
              (λ _, Some 0) Examples.nested_empty ["root"])
    as (Hcount & _ & _ & Hsum & _ & Hstrict).
  fold r in Hcount, Hsum, Hstrict.
  assert (Hnd : NoDup Examples.nested_empty.*1)
    by (apply (bool_decide_unpack _); vm_compute; exact I).
  assert (Hfolders : folder_count r = 2) by (vm_compute; reflexivity).
  split; [exact Hcount |]. split; [exact Hfolders |]. split; [exact Hsum |].
  rewrite Hsum. apply Hstrict; [exact Hnd |]. rewrite Hfolders. lia.
Defined.

(** ** [get_quality_report] *)

Import QualityReport.

Lemma classify_bands :
  classify 320 = "Muy Alta (320+ kbps)"
  ∧ classify 256 = "Alta (256+ kbps)"
  ∧ classify 319 = "Alta (256+ kbps)"
  ∧ classify 192 = "Buena (192+ kbps)"
  ∧ classify 128 = "Estándar (128+ kbps)"
  ∧ classify 127 = "Baja (<128 kbps)".
Proof. repeat split. Qed.

(** A file whose inspection fails leaves every counter as it was. *)
Lemma tally_step_error (analyze : path → analysis) (acc : tally) (p : path) (msg : string) :
  analyze p = AnalysisError msg → tally_step analyze acc p = acc.
Proof.
  intros H. unfold tally_step. rewrite H. by destruct (bool_decide _).
Qed.

(** Without a file below 128 the report comes out: the file at 256 is in
    the 256 band, the unreadable file is not counted. *)
Lemma quality_report_without_low_band :
  ∃ r, get_quality_report Examples.sample_tags (take 4 Examples.music) ["root"] = Ok r
       ∧ report_files_analyzed r = 1
       ∧ report_quality_distribution r = {["Alta (256+ kbps)" := 1]}
       ∧ average_bitrate r = Qmake 256 1.
Proof. eexists. split; [vm_compute; reflexivity |]. repeat split. Qed.

(** C9: the label of the lowest band, [Baja (<128 kbps)], has no [+]
    after its number, so [int] is applied to the text [<128 kbps)] and
    raises ValueError: with one readable file below 128 in the tree,
    [get_quality_report] returns no report at all. *)
Theorem quality_report_fails_on_low_band :
  classify 96 = "Baja (<128 kbps)"
  ∧ has_paren "Baja (<128 kbps)" = true
  ∧ label_bitrate "Baja (<128 kbps)" = Raise ValueError
  ∧ get_quality_report Examples.sample_tags Examples.music ["root"] = Raise ValueError.
Proof. repeat split; vm_compute; reflexivity. Qed.

(** * Further properties of the code *)

(** ** The playlist loop beyond cancellation *)

Lemma engine_download_hook (w : world) (url : string) (s : state) :
  progress_hook (snd (engine_download w url s)) = progress_hook s.
Proof.
  unfold engine_download.
  destruct (ev_raises _); cbn [snd]; by destruct (ev_cancel _).
Qed.

Lemma download_loop_hook (w : world) (urls : list string) (s : state) :
  progress_hook (snd (download_loop w urls s)) = progress_hook s.
Proof.
  revert s. induction urls as [| u urls IH]; intros s; cbn [download_loop]; [done |].
  destruct (cancel_download s); [done |].
  pose proof (engine_download_hook w u s) as H.
  destruct (engine_download w u s) as [[[] | e] s']; cbn [snd] in *; [| done].
  by rewrite IH.
Qed.

(** With no cancel request and no exception the loop hands every
    candidate to the engine, in order. *)
Lemma download_loop_runs_through (w : world) :
  ∀ (urls : list string) (s : state),
    cancel_download s = false →
    calls_complete w (length (engine_calls s)) urls (length urls) →
    calls_quiet w (length (engine_calls s)) urls (length urls) →
    ∃ s', download_loop w urls s = (Ok tt, s')
          ∧ engine_calls s' = engine_calls s ++ urls
          ∧ cancel_download s' = false.
Proof.
  induction urls as [| u urls IH]; intros s Hflag Hdone Hquiet.
  - exists s. by rewrite app_nil_r.
  - cbn [download_loop]. rewrite Hflag. unfold engine_download.
    rewrite <- (Nat.add_0_r (length (engine_calls s))).
    rewrite (Hdone 0 u), (Hquiet 0 u) by (cbn; done || lia).
    cbn [deliver_cancel].
    destruct (IH (record_call u s)) as (s' & E & Hlog & Hc).
    + done.
    + intros j x Hj Hx. cbn [engine_calls record_call]. rewrite length_app. cbn.
      replace (length (engine_calls s) + 1 + j) with (length (engine_calls s) + S j) by lia.
      apply Hdone; [cbn; lia | done].
    + intros j x Hj Hx. cbn [engine_calls record_call]. rewrite length_app. cbn.
      replace (length (engine_calls s) + 1 + j) with (length (engine_calls s) + S j) by lia.
      apply Hquiet; [cbn; lia | done].
    + exists s'. split; [done |]. split; [| done].
      rewrite Hlog. cbn [engine_calls record_call]. by rewrite <- app_assoc.
Qed.

(** When the call for candidate [j] raises, the loop stops there. *)
Lemma download_loop_raises (w : world) (e : exn) :
  ∀ (j : nat) (urls : list string) (s : state) (u : string),
    cancel_download s = false →
    urls !! j = Some u →
    calls_complete w (length (engine_calls s)) urls j →
    calls_quiet w (length (engine_calls s)) urls j →
    ev_raises (ydl_download w (length (engine_calls s) + j) u) = Some e →
    ∃ s', download_loop w urls s = (Raise e, s')
          ∧ engine_calls s' = engine_calls s ++ take (S j) urls.
Proof.
  induction j as [| j IH]; intros urls s u Hflag Hu Hdone Hquiet Hraise;
    destruct urls as [| x urls]; try done.
  - cbn in Hu. injection Hu as ->.
    cbn [download_loop]. rewrite Hflag. unfold engine_download.
    rewrite Nat.add_0_r in Hraise. rewrite Hraise.
    eexists. split; [reflexivity |]. rewrite deliver_cancel_calls. reflexivity.
  - cbn in Hu. cbn [download_loop]. rewrite Hflag. unfold engine_download.
    rewrite <- (Nat.add_0_r (length (engine_calls s))).
    rewrite (Hdone 0 x), (Hquiet 0 x) by (cbn; done || lia).
    cbn [deliver_cancel].
    destruct (IH urls (record_call x s) u) as (s' & E & Hlog).
    + done.
    + done.
    + intros i y Hi Hy. cbn [engine_calls record_call]. rewrite length_app. cbn.
      replace (length (engine_calls s) + 1 + i) with (length (engine_calls s) + S i) by lia.
      apply Hdone; [lia | done].
    + intros i y Hi Hy. cbn [engine_calls record_call]. rewrite length_app. cbn.
      replace (length (engine_calls s) + 1 + i) with (length (engine_calls s) + S i) by lia.
      apply Hquiet; [lia | done].
    + cbn [engine_calls record_call]. rewrite length_app. cbn.
      replace (length (engine_calls s) + 1 + j) with (length (engine_calls s) + S j) by lia.
      done.
    + exists s'. split; [done |].
      rewrite Hlog. cbn [engine_calls record_call]. by rewrite <- app_assoc.
Qed.

(** Up to the loop: with a resolved collection, a scan that returns, at
    least one candidate and an engine that can be created,
    [download_playlist] is the loop over the candidates followed by the
    final [return] and the [except]/[finally] clauses. *)
Lemma download_playlist_enters_loop
    (w : world) (url fmt q : string) (out : option string) (skip_existing : bool)
    (s : state) (playlist_info : info) (c : bool) (ids : gset id_key)
    (urls : list string) :
  config_wf (objects s) →
  extract_info w url = (Ok (Some playlist_info), c) →
  (if skip_existing
   then _get_downloaded_ids w (join_path (effective_output out s) (safe_title w playlist_info))
   else Ok ∅) = Ok ids →
  candidate_urls skip_existing ids (entries_of playlist_info) = urls →
  urls ≠ [] →
  ydl_new w = None →
  ∃ s5, engine_calls s5 = engine_calls s
        ∧ cancel_download s5 = c
        ∧ download_playlist w url fmt q out skip_existing s
          = match download_loop w urls s5 with
            | (Ok _, s6) => (Ok (negb (cancel_download s6)), set_is_downloading false s6)
            | (Raise _, s6) => (Ok false, set_is_downloading false s6)
            end.
Proof.
  intros Hwf Hinfo Hscan Hurls Hne Hnew.
  unfold download_playlist, guarded, download_playlist_body, get_video_info.
  rewrite Hinfo, effective_output_resolved, Hscan, Hurls.
  destruct urls as [| u rest] eqn:Eurls; [done |]. rewrite <- Eurls in *.
  set (s3 := reset_hook _ _).
  assert (Hframe : engine_calls s3 = engine_calls s ∧ cancel_download s3 = c
                   ∧ objects s3 = objects s).
  { unfold s3. destruct (reset_hook_frame (entries_of playlist_info)
      (deliver_cancel c (set_cancel_download false (set_is_downloading true s))))
      as (-> & -> & ->).
    rewrite deliver_cancel_calls, deliver_cancel_flag, deliver_cancel_objects.
    cbn. by rewrite orb_false_r. }
  destruct Hframe as (Hcalls & Hflag & Hobj).
  destruct (lift_build_ok (progress_hook s3) fmt q (Some (effective_output out s)) true s3)
    as (o & h' & E & _); [by rewrite Hobj |].
  rewrite E. unfold open_engine. rewrite Hnew.
  exists (set_objects h' s3). split; [done |]. split; [done |].
  by destruct (download_loop w urls (set_objects h' s3)) as [[[] | e] s6].
Qed.

(** X1: a playlist run without cancel request and without an exception
    from the engine hands every candidate to the engine exactly once, in
    the filtered order, and returns [True]. *)
Theorem download_playlist_runs_through
    (w : world) (url fmt q : string) (out : option string) (skip_existing : bool)
    (s : state) (playlist_info : info) (ids : gset id_key) (urls : list string) :
  config_wf (objects s) →
  extract_info w url = (Ok (Some playlist_info), false) →
  (if skip_existing
   then _get_downloaded_ids w (join_path (effective_output out s) (safe_title w playlist_info))
   else Ok ∅) = Ok ids →
  candidate_urls skip_existing ids (entries_of playlist_info) = urls →
  ydl_new w = None →
  calls_complete w (length (engine_calls s)) urls (length urls) →
  calls_quiet w (length (engine_calls s)) urls (length urls) →
  ∃ s', download_playlist w url fmt q out skip_existing s = (Ok true, s')
        ∧ engine_calls s' = engine_calls s ++ urls
        ∧ is_downloading s' = false.
Proof.
  intros Hwf Hinfo Hscan Hurls Hnew Hdone Hquiet.
  destruct (decide (urls = [])) as [-> | Hne].
  - unfold download_playlist, guarded, download_playlist_body, get_video_info.
    rewrite Hinfo, effective_output_resolved, Hscan, Hurls.
    eexists. split; [reflexivity |]. split; [| done].
    rewrite app_nil_r. cbn [engine_calls set_is_downloading].
    by destruct (reset_hook_frame (entries_of playlist_info)
                   (deliver_cancel false
                      (set_cancel_download false (set_is_downloading true s))))
      as (-> & _).
  - destruct (download_playlist_enters_loop w url fmt q out skip_existing s playlist_info
                false ids urls) as (s5 & Hcalls & Hflag & ->); try done.
    destruct (download_loop_runs_through w urls s5) as (s6 & -> & Hlog & ->);
      [done | by rewrite Hcalls | by rewrite Hcalls |].
    eexists. split; [reflexivity |]. split; [| done].
    cbn [engine_calls set_is_downloading]. by rewrite Hlog, Hcalls.
Qed.

(** X2: when the engine's [download] raises for candidate [j] (counting
    from 0), the playlist run ends there: the candidates after it are
    never handed to the engine and the call returns [False]. *)
Theorem download_playlist_stops_at_engine_exception
    (w : world) (url fmt q : string) (out : option string) (skip_existing : bool)
    (s : state) (playlist_info : info) (ids : gset id_key) (urls : list string)
    (j : nat) (u : string) (e : exn) :
  config_wf (objects s) →
  extract_info w url = (Ok (Some playlist_info), false) →
  (if skip_existing
   then _get_downloaded_ids w (join_path (effective_output out s) (safe_title w playlist_info))
   else Ok ∅) = Ok ids →
  candidate_urls skip_existing ids (entries_of playlist_info) = urls →
  ydl_new w = None →
  urls !! j = Some u →
  calls_complete w (length (engine_calls s)) urls j →
  calls_quiet w (length (engine_calls s)) urls j →
  ev_raises (ydl_download w (length (engine_calls s) + j) u) = Some e →
  ∃ s', download_playlist w url fmt q out skip_existing s = (Ok false, s')
        ∧ engine_calls s' = engine_calls s ++ take (S j) urls.
Proof.
  intros Hwf Hinfo Hscan Hurls Hnew Hu Hdone Hquiet Hraise.
  assert (Hne : urls ≠ []) by (intros ->; done).
  destruct (download_playlist_enters_loop w url fmt q out skip_existing s playlist_info
              false ids urls) as (s5 & Hcalls & Hflag & ->); try done.
  destruct (download_loop_raises w e j urls s5 u) as (s6 & -> & Hlog);
    try done; try by rewrite Hcalls.
  eexists. split; [reflexivity |].
  cbn [engine_calls set_is_downloading]. by rewrite Hlog, Hcalls.
Qed.

(** X3: when the info lookup raises or yields nothing,
    [download_playlist] returns [False] without a download call, whatever
    the folder holds. *)
Theorem download_playlist_unresolved
    (w : world) (url fmt q : string) (out : option string) (skip_existing : bool)
    (s : state) :
  (fst (extract_info w url) = Ok None ∨ ∃ e, fst (extract_info w url) = Raise e) →
  ∃ s', download_playlist w url fmt q out skip_existing s = (Ok false, s')
        ∧ engine_calls s' = engine_calls s
        ∧ progress_hook s' = progress_hook s
        ∧ is_downloading s' = false.
Proof.
  intros Hlookup.
  unfold download_playlist, guarded, download_playlist_body, get_video_info.
  destruct (extract_info w url) as [r c']. cbn [fst] in Hlookup.
  destruct Hlookup as [-> | [e ->]];
    (eexists; split; [reflexivity |]; cbn [engine_calls progress_hook set_is_downloading];
     rewrite deliver_cancel_calls; split; [done |]; split; [by destruct c' | done]).
Qed.

(** X4: the candidates are the watch URLs of the entries that are not
    [None], in the order of the collection and as often as they occur,
    minus (under [skip_existing]) those whose identifier the scan found.
    There are never more candidates than such entries, and exactly as
    many when [skip_existing] is off. *)
Theorem candidate_urls_members
    (skip_existing : bool) (ids : gset id_key) (entries : list (option entry)) :
  candidate_urls skip_existing ids entries
  = (λ e, watch_url (entry_id e))
    <$> filter (λ e, ¬ (skip_existing = true ∧ id_in (entry_id e) ids = true))
          (omap id entries)
  ∧ (∀ u, u ∈ candidate_urls skip_existing ids entries ↔
        ∃ e, Some e ∈ entries ∧ u = watch_url (entry_id e)
             ∧ (skip_existing = true → id_in (entry_id e) ids = false))
  ∧ length (candidate_urls skip_existing ids entries) ≤ available entries
  ∧ (skip_existing = false →
     candidate_urls skip_existing ids entries
     = omap (λ oe, (λ e, watch_url (entry_id e)) <$> oe) entries).
Proof.
  split; [| split; [| split]].
  - induction entries as [| [e|] entries IH]; cbn [candidate_urls]; [done | | done].
    replace (omap id (Some e :: entries)) with (e :: omap id entries) by reflexivity.
    destruct skip_existing; cbn [negb orb].
    + destruct (id_in (entry_id e) ids) eqn:Hin; cbn [negb].
      * rewrite filter_cons_False by (intros H; by apply H). done.
      * rewrite filter_cons_True by (intros [_ ?]; congruence).
        rewrite fmap_cons. by rewrite IH.
    + rewrite filter_cons_True by (by intros [? _]). rewrite fmap_cons. by rewrite IH.
  - induction entries as [| [e|] entries IH]; intros u; cbn [candidate_urls].
    + split; [by intros ?%elem_of_nil | by intros (e & ?%elem_of_nil & _)].
    + destruct (negb skip_existing || negb (id_in (entry_id e) ids)) eqn:Hkeep.
      * rewrite elem_of_cons, IH. split.
        -- intros [-> | (e' & He' & Hu & Hs)].
           ++ exists e. split; [left |]. split; [done |].
              intros ->. cbn in Hkeep. by apply negb_true_iff in Hkeep.
           ++ exists e'. split; [by right | done].
        -- intros (e' & [He' | He']%elem_of_cons & Hu & Hs).
           ++ left. by simplify_eq.
           ++ right. by exists e'.
      * rewrite IH. apply orb_false_iff in Hkeep as [Hs Hin].
        apply negb_false_iff in Hs, Hin. split.
        -- intros (e' & He' & Hu & Hs'). exists e'. split; [by right | done].
        -- intros (e' & [He' | He']%elem_of_cons & Hu & Hs').
           ++ assert (e' = e) by congruence. subst e'. specialize (Hs' Hs). congruence.
           ++ by exists e'.
    + rewrite IH. split.
      * intros (e' & He' & Hu & Hs'). exists e'. split; [by right | done].
      * intros (e' & [He' | He']%elem_of_cons & Hu & Hs'); [done | by exists e'].
  - unfold available. induction entries as [| [e|] entries IH]; cbn [candidate_urls].
    + done.
    + rewrite filter_cons_True by done.
      destruct (negb skip_existing || negb (id_in (entry_id e) ids)); cbn; lia.
    + rewrite filter_cons_False by (by intros [? ?]). done.
  - intros ->. induction entries as [| [e|] entries IH]; cbn; by rewrite ?IH.
Qed.

(** X5: an entry without an identifier is never skipped, not even the
    empty dictionary: it yields the URL that ends in [v=None], also when
    the scan found an identifier spelled [None]. *)
Theorem candidate_without_id
    (skip_existing : bool) (ids : gset id_key) (title : option string) (other : bool)
    (entries : list (option entry)) :
  candidate_urls skip_existing ids
    (Some {| entry_id := None; entry_title := title; entry_other := other |} :: entries)
  = "https://www.youtube.com/watch?v=None" :: candidate_urls skip_existing ids entries
  ∧ watch_url None = watch_url (Some "None").
Proof. split; [| done]. cbn. by rewrite orb_true_r. Qed.

Lemma lift_hook {A} (m : M A) (s : state) :
  progress_hook (snd (lift m s)) = progress_hook s.
Proof. unfold lift. by destruct (m (objects s)). Qed.

Lemma guarded_hook (body : state → result bool * state) (s : state) :
  progress_hook (snd (guarded body s)) = progress_hook (snd (body s)).
Proof. unfold guarded. by destruct (body s) as [[b | e] s']. Qed.

(** X6: with a progress hook installed and a resolved collection,
    [download_playlist] sets [total_files] to the number of truthy entries
    of the collection, whether or not they are skipped as already present,
    and whatever happens afterwards.  That is at most the number of
    entries that are not [None], which bounds the candidates: an empty
    dictionary is not counted and still becomes a candidate. *)
Theorem download_playlist_total_files
    (w : world) (url fmt q : string) (out : option string) (skip_existing : bool)
    (s : state) (hk : ProgressHook) (playlist_info : info) (c : bool) :
  progress_hook s = Some hk →
  extract_info w url = (Ok (Some playlist_info), c) →
  total_files <$> progress_hook (snd (download_playlist w url fmt q out skip_existing s))
  = Some (counted (entries_of playlist_info))
  ∧ counted (entries_of playlist_info) ≤ available (entries_of playlist_info)
  ∧ (skip_existing = false →
     ∀ ids, length (candidate_urls skip_existing ids (entries_of playlist_info))
            = available (entries_of playlist_info)).
Proof.
  intros Hhk Hinfo. split; [| split].
  2: { unfold counted, available.
       induction (entries_of playlist_info) as [| [e |] entries IH]; [done | |].
       - rewrite (filter_cons_True (λ e, is_Some e)) by done. cbn [length].
         destruct (item_truthy (Some e)) eqn:E.
         + rewrite filter_cons_True by by rewrite E. cbn [length]. lia.
         + rewrite filter_cons_False by (rewrite E; intros []). lia.
       - rewrite (filter_cons_False (λ e, is_Some e)) by (by intros [? ?]).
         rewrite filter_cons_False by (intros []). done. }
  2: { intros -> ids. unfold available.
       induction (entries_of playlist_info) as [| [e |] entries IH]; [done | |].
       - rewrite filter_cons_True by done. cbn. by rewrite IH.
       - rewrite filter_cons_False by (by intros [? ?]). done. }
  unfold download_playlist. rewrite guarded_hook.
  unfold download_playlist_body, get_video_info. rewrite Hinfo.
  set (s2 := deliver_cancel c _).
  assert (Hs2 : progress_hook s2 = Some hk) by (unfold s2; by destruct c).
  set (s3 := reset_hook _ s2).
  assert (Hs3 : total_files <$> progress_hook s3 = Some (counted (entries_of playlist_info))).
  { unfold s3, reset_hook. rewrite Hs2. done. }
  destruct (if skip_existing then _ else _) as [ids | e]; [| done].
  destruct (candidate_urls skip_existing ids (entries_of playlist_info)) as [| u urls];
    [done |].
  pose proof (lift_hook (_build_download_options (progress_hook s3) fmt q
                           (Some (effective_output out s2)) true) s3) as Hl.
  destruct (lift _ s3) as [[options | e] s4]; cbn [snd] in *; [| by rewrite Hl].
  unfold open_engine. destruct (ydl_new w); cbn [snd]; [by rewrite Hl |].
  pose proof (download_loop_hook w (u :: urls) s4) as Hloop.
  destruct (download_loop w (u :: urls) s4) as [[[] | e] s6]; cbn [snd] in *;
    by rewrite Hloop, Hl.
Qed.

(** ** When the scan of a folder returns *)

Lemma scan_one_not_passable (f : sidecar) (ids : gset id_key) :
  ¬ passable f →
  ∃ e, scan_one f ids = Raise e ∧ caught_by scan_handlers e = false.
Proof.
  destruct f as [e | doc]; cbn.
  - intros H. exists e. split; [done |]. by apply not_true_is_false.
  - destruct doc as [| | | | |d]; cbn; try (intros _; by exists AttributeError).
    destruct (dict_get d "id") as [v|]; [| done].
    destruct (truthy v); [| intros H; by destruct H].
    destruct v; cbn; intros H; try (exfalso; apply H; eauto; fail);
      by exists TypeError.
Qed.

Lemma scan_loop_returns (files : list sidecar) (ids S : gset id_key) :
  scan_loop files ids = Ok S → Forall passable files.
Proof.
  revert ids. induction files as [| f files IH]; intros ids; [by constructor |].
  change (scan_loop (f :: files) ids) with
    (match scan_one f ids with
     | Ok ids' => scan_loop files ids'
     | Raise e => if caught_by scan_handlers e then scan_loop files ids else Raise e
     end).
  intros H. constructor.
  - destruct f as [e | doc].
    + cbn [scan_one passable] in *. by destruct (caught_by scan_handlers e).
    + destruct doc as [| | | | |d]; cbn in H |- *; try done.
      destruct (dict_get d "id") as [v|]; [| done].
      intros Ht. rewrite Ht in H.
      destruct (hash_key v) as [k | e] eqn:Eh; [by exists k |].
      assert (e = TypeError) as -> by (destruct v; cbn in Eh; congruence).
      cbn in H. done.
  - destruct (scan_one f ids) as [ids' | e]; [by eapply IH |].
    destruct (caught_by scan_handlers e); [by eapply IH | done].
Qed.

Lemma sidecar_id_truthy (f : sidecar) (k : id_key) :
  sidecar_id f = Some k → k ≠ inl "" ∧ k ≠ inr 0%Z.
Proof.
  destruct f as [e | doc]; [done |]. destruct doc as [| | | | |d]; try done. cbn.
  destruct (dict_get d "id") as [v|]; [| done].
  destruct v as [| [|] | z | s | |]; cbn; try done.
  - intros [= <-]. done.
  - destruct (z =? 0)%Z eqn:E; cbn; [done |]. intros [= <-].
    apply Z.eqb_neq in E. split; [done |]. congruence.
  - destruct (String.eqb s "") eqn:E; cbn; [done |]. intros [= <-].
    apply String.eqb_neq in E. split; [congruence | done].
  - by destruct l.
  - by destruct d0.
Qed.

(** X7: on an existing folder [_get_downloaded_ids] returns exactly when
    every [*.info.json] file in it is passable (reading raises one of the
    three handled exceptions, or it holds an object whose [id] is missing,
    falsy or hashable); the set it returns then holds the truthy
    identifiers of those files and nothing else, in particular never the
    empty string or zero.  Files of other names play no part. *)
Theorem scan_returns_exactly_on_passable_sidecars
    (w : world) (folder : string) (entries : list (string * sidecar)) (S : gset id_key) :
  listdir w folder = Some entries →
  (_get_downloaded_ids w folder = Ok S ↔
     Forall passable (glob_info_json entries)
     ∧ S = list_to_set (omap sidecar_id (glob_info_json entries)))
  ∧ (_get_downloaded_ids w folder = Ok S → (inl "" ∉ S) ∧ (inr 0%Z ∉ S)).
Proof.
  intros Hdir.
  assert (Hiff : _get_downloaded_ids w folder = Ok S ↔
     Forall passable (glob_info_json entries)
     ∧ S = list_to_set (omap sidecar_id (glob_info_json entries))).
  { split.
    - intros H. assert (Hall : Forall passable (glob_info_json entries)).
      { unfold _get_downloaded_ids in H. rewrite Hdir in H. by eapply scan_loop_returns. }
      split; [done |]. rewrite (scan_passable_directory w folder entries Hdir Hall) in H.
      by injection H.
    - intros [Hall ->]. by apply scan_passable_directory. }
  split; [done |]. intros [_ ->]%Hiff.
  split; intros (f & _ & Hf)%elem_of_list_to_set%list_elem_of_omap;
    apply sidecar_id_truthy in Hf; by destruct Hf.
Qed.

Lemma download_playlist_runs_through_witness :
  ∃ s',
    download_playlist
      (Examples.demo_world Examples.mix false (λ _, Examples.quiet) None)
      "https://www.youtube.com/playlist?list=PL1" "mp3" "192" None true
      Examples.downloader = (Ok true, s')
    ∧ engine_calls s' = engine_calls Examples.downloader ++ Samples.five_urls
    ∧ is_downloading s' = false.
Proof.
  apply (download_playlist_runs_through
           (Examples.demo_world Examples.mix false (λ _, Examples.quiet) None)
           "https://www.youtube.com/playlist?list=PL1" "mp3" "192" None true
           Examples.downloader Examples.mix ∅ Samples.five_urls).
  - apply initial_heap_wf.
  - reflexivity.
  - reflexivity.
  - vm_compute. reflexivity.
  - reflexivity.
  - intros j u _ _. reflexivity.
  - intros j u _ _. reflexivity.
Defined.

Lemma download_playlist_stops_at_engine_exception_witness :
  ∃ s',
    download_playlist
      (Examples.demo_world Examples.mix false (Samples.fail_at 2) None)
      "https://www.youtube.com/playlist?list=PL1" "mp3" "192" None true
      Examples.downloader = (Ok false, s')
    ∧ engine_calls s' = engine_calls Examples.downloader ++ take 3 Samples.five_urls.
Proof.
  apply (download_playlist_stops_at_engine_exception
           (Examples.demo_world Examples.mix false (Samples.fail_at 2) None)
           "https://www.youtube.com/playlist?list=PL1" "mp3" "192" None true
           Examples.downloader Examples.mix ∅ Samples.five_urls 2
           (watch_url (Some "c3")) DownloadError).
  - apply initial_heap_wf.
  - reflexivity.
  - reflexivity.
  - vm_compute. reflexivity.
  - reflexivity.
  - reflexivity.
  - intros j u Hj _. destruct j as [| [| j]]; [reflexivity | reflexivity | lia].
  - intros j u _ _. reflexivity.
  - reflexivity.
Defined.

Lemma download_playlist_unresolved_witness :
  ∃ s',
    download_playlist Samples.offline "https://www.youtube.com/playlist?list=PL1"
      "mp3" "192" None true Samples.with_callback = (Ok false, s')
    ∧ engine_calls s' = engine_calls Samples.with_callback
    ∧ progress_hook s' = progress_hook Samples.with_callback
    ∧ is_downloading s' = false.
Proof.
  apply (download_playlist_unresolved Samples.offline
           "https://www.youtube.com/playlist?list=PL1" "mp3" "192" None true
           Samples.with_callback).
  right. exists DownloadError. reflexivity.
Defined.

Lemma download_playlist_total_files_witness :
  let w := Examples.demo_world Samples.sparse false (λ _, Examples.quiet) None in
  let run := download_playlist w "https://www.youtube.com/playlist?list=PL1"
               "mp3" "192" None true Samples.with_callback in
  total_files <$> progress_hook (snd run) = Some 1
  ∧ engine_calls (snd run)
    = ["https://www.youtube.com/watch?v=None"; "https://www.youtube.com/watch?v=a1"].
Proof.
  intros w run. split; [| reflexivity].
  apply (download_playlist_total_files w
           "https://www.youtube.com/playlist?list=PL1" "mp3" "192" None true
           Samples.with_callback
           {| has_callback := true; total_files := 0; completed_files := 0 |}
           Samples.sparse false).
  - reflexivity.
  - reflexivity.
Defined.

Lemma scan_returns_exactly_on_passable_sidecars_witness :
  let w := Examples.demo_world Examples.mix false (λ _, Examples.quiet)
             (Some Examples.all_sidecars) in
  let S := list_to_set [inl "a1"; inl "b2"; inl "c3"; inl "d4"; inl "e5"] in
  (_get_downloaded_ids w "out/Mix" = Ok S ↔
     Forall passable (glob_info_json Examples.all_sidecars)
     ∧ S = list_to_set (omap sidecar_id (glob_info_json Examples.all_sidecars)))
  ∧ (_get_downloaded_ids w "out/Mix" = Ok S → (inl "" ∉ S) ∧ (inr 0%Z ∉ S)).
Proof.
  intros w S.
  apply (scan_returns_exactly_on_passable_sidecars w "out/Mix" Examples.all_sidecars S).
  reflexivity.
Defined.

(** ** What [_build_download_options] returns *)

Section BuildSpec.

Variables (d : gmap string value) (lp p0 : nat) (rest : list value) (h0 : list obj).
Hypothesis Hh0 : shared_config d lp p0 rest h0.

Implicit Types (h : list obj) (o : nat) (od : gmap string value).

Lemma building_distinct (d0 : gmap string value) od o h :
  building d lp p0 rest h0 d0 od o h →
  o ≠ DEFAULT_DOWNLOAD_CONFIG ∧ o ≠ lp ∧ o ≠ p0.
Proof.
  intros (_ & _ & _ & Ho & _).
  destruct Hh0 as (H4 & _ & Hlp & [? Hp0] & _).
  apply lookup_lt_Some in H4, Hlp, Hp0. lia.
Qed.

Lemma building_start (d0 : gmap string value) :
  h0 !! p0 = Some (ODict d0) →
  building d lp p0 rest h0 d0 d (length h0) (h0 ++ [ODict d]).
Proof.
  intros Hp0. split; [by apply shared_config_alloc |].
  split; [by apply lookup_old |]. split; [apply lookup_new |].
  split; [done |]. split; [rewrite length_app; lia |].
  intros l Hl _. by apply lookup_app_l.
Qed.

Lemma building_set_option (d0 : gmap string value) od o h k x :
  building d lp p0 rest h0 d0 od o h →
  building d lp p0 rest h0 d0 (<[k := x]> od) o (<[o := ODict (<[k := x]> od)]> h).
Proof.
  intros Hb. destruct (building_distinct _ _ _ _ Hb) as (? & ? & ?).
  destruct Hb as (Hs & Hp0 & Ho & Hlen & Hlen' & Hold).
  split; [by apply shared_config_update |].
  split; [by apply lookup_update_ne |].
  split; [by eapply lookup_update_eq |].
  split; [done |]. split; [by rewrite length_insert |].
  intros l Hl Hne. rewrite list_lookup_insert_ne by lia. by apply Hold.
Qed.

Lemma building_alloc (d0 : gmap string value) od o h x :
  building d lp p0 rest h0 d0 od o h →
  building d lp p0 rest h0 d0 od o (h ++ [x]).
Proof.
  intros (Hs & Hp0 & Ho & Hlen & Hlen' & Hold).
  split; [by apply shared_config_alloc |].
  split; [by apply lookup_old |]. split; [by apply lookup_old |].
  split; [done |]. split; [rewrite length_app; lia |].
  intros l Hl Hne. rewrite lookup_app_l by lia. by apply Hold.
Qed.

Lemma building_set_pp0 (d0 : gmap string value) od o h k x :
  building d lp p0 rest h0 d0 od o h →
  building d lp p0 rest h0 (<[k := x]> d0) od o (<[p0 := ODict (<[k := x]> d0)]> h).
Proof.
  intros Hb. destruct (building_distinct _ _ _ _ Hb) as (? & ? & ?).
  destruct Hb as (Hs & Hp0 & Ho & Hlen & Hlen' & Hold).
  split; [by apply shared_config_update_pp0 |].
  split; [by eapply lookup_update_eq |].
  split; [by apply lookup_update_ne |].
  split; [done |]. split; [by rewrite length_insert |].
  intros l Hl Hne. rewrite list_lookup_insert_ne by done. by apply Hold.
Qed.

Lemma run_set_option (d0 : gmap string value) od o h k x :
  building d lp p0 rest h0 d0 od o h →
  dict_setitem (VRef o) k x h = (Ok tt, <[o := ODict (<[k := x]> od)]> h).
Proof. intros (_ & _ & Ho & _). by apply dict_setitem_ok. Qed.

Lemma run_set_pp0 (d0 : gmap string value) od o h k x :
  building d lp p0 rest h0 d0 od o h →
  od !! "postprocessors" = Some (VRef lp) →
  (let! pps := dict_getitem (VRef o) "postprocessors" in
   let! pp := list_getitem pps 0 in
   dict_setitem pp k x) h = (Ok tt, <[p0 := ODict (<[k := x]> d0)]> h).
Proof.
  intros (Hs & Hp0 & Ho & _) Hpp. destruct Hs as (_ & _ & Hlp & _).
  unfold bind. erewrite dict_getitem_ok by eauto.
  erewrite list_getitem_ok by eauto. by apply dict_setitem_ok.
Qed.

(** The [outtmpl] step *)
Lemma template_step (d0 : gmap string value) od o h out pm :
  building d lp p0 rest h0 d0 od o h →
  ∃ h', set_output_template (VRef o) out pm h = (Ok tt, h')
        ∧ building d lp p0 rest h0 d0 (with_template out pm od) o h'.
Proof.
  intros Hb. unfold set_output_template, with_template.
  destruct (str_truthy out); [| by exists h].
  destruct pm; (eexists; split; [by eapply run_set_option | by apply building_set_option]).
Qed.

(** The format step, by the table the format is found in *)
Lemma format_step (d0 : gmap string value) od o h fmt q :
  building d lp p0 rest h0 d0 od o h →
  od !! "postprocessors" = Some (VRef lp) →
  ∃ h' d0' od',
    set_output_format (VRef o) fmt q h = (Ok tt, h')
    ∧ building d lp p0 rest h0 d0' od' o h'
    ∧ (∀ k, k ≠ "format" → k ≠ "postprocessors" → od' !! k = od !! k)
    ∧ match AUDIO_FORMATS !! fmt, VIDEO_FORMATS !! fmt with
      | Some _, _ =>
          od' !! "format" = Some (VStr "bestaudio/best")
          ∧ od' !! "postprocessors" = Some (VRef lp)
          ∧ d0' = <["preferredquality" := VStr q]> (<["preferredcodec" := VStr fmt]> d0)
      | None, Some selector =>
          od' !! "format" = Some (VStr selector)
          ∧ d0' = d0
          ∧ ∃ l a b,
              od' !! "postprocessors" = Some (VRef l)
              ∧ l ≠ o ∧ a ≠ o ∧ b ≠ o
              ∧ h' !! l = Some (OList [VRef a; VRef b])
              ∧ h' !! a = Some (ODict (<["key" := VStr "EmbedThumbnail"]> ∅))
              ∧ h' !! b = Some (ODict (<["key" := VStr "FFmpegMetadata"]> ∅))
      | None, None =>
          od' !! "format" = od !! "format"
          ∧ od' !! "postprocessors" = Some (VRef lp)
          ∧ d0' = d0
      end.
Proof.
  intros Hb Hpp. unfold set_output_format.
  destruct (AUDIO_FORMATS !! fmt) as [?|]; [| destruct (VIDEO_FORMATS !! fmt) as [sel|]].
  - pose proof (building_set_option _ _ _ _ "format" (VStr "bestaudio/best") Hb) as Hb1.
    assert (Hpp1 : <["format" := VStr "bestaudio/best"]> od !! "postprocessors"
                   = Some (VRef lp)) by by rewrite lookup_insert_ne.
    pose proof (building_set_pp0 _ _ _ _ "preferredcodec" (VStr fmt) Hb1) as Hb2.
    pose proof (building_set_pp0 _ _ _ _ "preferredquality" (VStr q) Hb2) as Hb3.
    eexists _, _, _. split; [| split; [exact Hb3 |]].
    + unfold bind at 1. erewrite run_set_option by exact Hb.
      unfold bind at 1. erewrite run_set_pp0 by (exact Hb1 || exact Hpp1).
      by eapply run_set_pp0.
    + split; [intros k ? ?; by rewrite lookup_insert_ne |].
      split; [apply lookup_insert_eq | done].
  - pose proof (building_set_option _ _ _ _ "format" (VStr sel) Hb) as Hb1.
    set (h1 := <[o := ODict (<["format" := VStr sel]> od)]> h) in *.
    pose proof (building_alloc _ _ _ _ (ODict (<["key" := VStr "EmbedThumbnail"]> ∅)) Hb1)
      as Hb2.
    set (h2 := h1 ++ [ODict (<["key" := VStr "EmbedThumbnail"]> ∅)]) in *.
    pose proof (building_alloc _ _ _ _ (ODict (<["key" := VStr "FFmpegMetadata"]> ∅)) Hb2)
      as Hb3.
    set (h3 := h2 ++ [ODict (<["key" := VStr "FFmpegMetadata"]> ∅)]) in *.
    pose proof (building_alloc _ _ _ _ (OList [VRef (length h1); VRef (length h2)]) Hb3)
      as Hb4.
    set (h4 := h3 ++ [OList [VRef (length h1); VRef (length h2)]]) in *.
    pose proof (building_set_option _ _ _ _ "postprocessors" (VRef (length h3)) Hb4) as Hb5.
    assert (Ho1 : o < length h1).
    { destruct Hb1 as (_ & _ & Ho & _). by apply lookup_lt_Some in Ho. }
    assert (Hl2 : length h2 = S (length h1)) by (unfold h2; rewrite length_app; cbn; lia).
    assert (Hl3 : length h3 = S (length h2)) by (unfold h3; rewrite length_app; cbn; lia).
    eexists _, _, _. split; [| split; [exact Hb5 |]].
    + unfold bind at 1. erewrite run_set_option by exact Hb.
      unfold bind at 1. rewrite new_ok. unfold bind at 1. rewrite new_ok.
      unfold bind at 1. rewrite new_ok. by eapply run_set_option.
    + split; [intros k ? ?; by rewrite !lookup_insert_ne |].
      split; [rewrite lookup_insert_ne by done; apply lookup_insert_eq |].
      split; [done |].
      exists (length h3), (length h1), (length h2).
      split; [apply lookup_insert_eq |].
      split; [lia |]. split; [lia |]. split; [lia |].
      split; [| split].
      * rewrite list_lookup_insert_ne by lia. unfold h4. apply lookup_new.
      * rewrite list_lookup_insert_ne by lia. unfold h4, h3.
        apply lookup_old, lookup_old. unfold h2. apply lookup_new.
      * rewrite list_lookup_insert_ne by lia. unfold h4.
        apply lookup_old. unfold h3. apply lookup_new.
  - exists h, d0, od. split; [done |]. split; [done |]. split; [done |]. done.
Qed.

(** The progress hook step *)
Lemma hook_step (d0 : gmap string value) od o h hook :
  building d lp p0 rest h0 d0 od o h →
  ∃ h' od',
    add_progress_hook (VRef o) hook h = (Ok tt, h')
    ∧ building d lp p0 rest h0 d0 od' o h'
    ∧ (∀ k, k ≠ "progress_hooks" → od' !! k = od !! k)
    ∧ (∀ l x, l ≠ o → h !! l = Some x → h' !! l = Some x)
    ∧ match hook with
      | Some _ => ∃ l, od' !! "progress_hooks" = Some (VRef l)
                       ∧ h' !! l = Some (OList [VHook])
      | None => od' !! "progress_hooks" = od !! "progress_hooks"
      end.
Proof.
  intros Hb. unfold add_progress_hook. destruct hook as [hk|].
  - pose proof (building_alloc _ _ _ _ (OList [VHook]) Hb) as Hb1.
    pose proof (building_set_option _ _ _ _ "progress_hooks" (VRef (length h)) Hb1) as Hb2.
    assert (Ho : o < length h).
    { destruct Hb as (_ & _ & Ho & _). by apply lookup_lt_Some in Ho. }
    eexists _, _. split; [| split; [exact Hb2 |]].
    + unfold bind at 1. rewrite new_ok. by eapply run_set_option.
    + split; [intros k ?; by rewrite lookup_insert_ne |].
      split.
      * intros l x Hl Hx. rewrite list_lookup_insert_ne by done. by apply lookup_old.
      * exists (length h). split; [apply lookup_insert_eq |].
        rewrite list_lookup_insert_ne by lia. apply lookup_new.
  - exists h, od. do 3 (split; [done |]). split; [by intros |]. done.
Qed.

End BuildSpec.

Lemma with_template_other out pm (od : gmap string value) (k : string) :
  k ≠ "outtmpl" → with_template out pm od !! k = od !! k.
Proof.
  intros Hk. unfold with_template. destruct (str_truthy out); [| done].
  by rewrite lookup_insert_ne.
Qed.

(** The run of [_build_download_options] on a store that holds the
    default configuration, step by step. *)
Lemma build_options_run
    (hook : option ProgressHook) (fmt q : string) (out : option string) (pm : bool)
    (d : gmap string value) (lp p0 : nat) (rest : list value) (h0 : list obj)
    (d0 : gmap string value) :
  shared_config d lp p0 rest h0 →
  h0 !! p0 = Some (ODict d0) →
  ∃ h' d0' od,
    _build_download_options hook fmt q out pm h0 = (Ok (VRef (length h0)), h')
    ∧ building d lp p0 rest h0 d0' od (length h0) h'
    ∧ od !! "outtmpl" = with_template out pm d !! "outtmpl"
    ∧ match AUDIO_FORMATS !! fmt, VIDEO_FORMATS !! fmt with
      | Some _, _ =>
          od !! "format" = Some (VStr "bestaudio/best")
          ∧ od !! "postprocessors" = Some (VRef lp)
          ∧ d0' = <["preferredquality" := VStr q]> (<["preferredcodec" := VStr fmt]> d0)
      | None, Some selector =>
          od !! "format" = Some (VStr selector)
          ∧ d0' = d0
          ∧ ∃ l a b,
              od !! "postprocessors" = Some (VRef l)
              ∧ h' !! l = Some (OList [VRef a; VRef b])
              ∧ h' !! a = Some (ODict (<["key" := VStr "EmbedThumbnail"]> ∅))
              ∧ h' !! b = Some (ODict (<["key" := VStr "FFmpegMetadata"]> ∅))
      | None, None =>
          od !! "format" = d !! "format"
          ∧ od !! "postprocessors" = Some (VRef lp)
          ∧ d0' = d0
      end.
Proof.
  intros Hs Hp0.
  pose proof (building_start d lp p0 rest h0 Hs d0 Hp0) as Hb0.
  destruct (template_step d lp p0 rest h0 Hs d0 d _ _ out pm Hb0) as (h1 & E1 & Hb1).
  assert (Hpp1 : with_template out pm d !! "postprocessors" = Some (VRef lp)).
  { rewrite with_template_other by done. by destruct Hs as (_ & ? & _). }
  destruct (format_step d lp p0 rest h0 Hs d0 _ _ h1 fmt q Hb1 Hpp1)
    as (h2 & d0' & od2 & E2 & Hb2 & Hsame2 & Hfmt).
  destruct (hook_step d lp p0 rest h0 Hs d0' od2 _ h2 hook Hb2)
    as (h3 & od3 & E3 & Hb3 & Hsame3 & Hcells & _).
  exists h3, d0', od3. split; [| split; [done |]].
  - unfold _build_download_options. unfold bind at 1.
    erewrite dict_copy_ok by (by destruct Hs as (? & _)).
    unfold bind at 1. rewrite E1. unfold bind at 1. rewrite E2.
    unfold bind at 1. rewrite E3. reflexivity.
  - split; [rewrite Hsame3, Hsame2 by done; done |].
    destruct (AUDIO_FORMATS !! fmt) as [?|]; [| destruct (VIDEO_FORMATS !! fmt) as [sel|]].
    + destruct Hfmt as (Hf & Hp & ->). rewrite !Hsame3 by done. done.
    + destruct Hfmt as (Hf & -> & l & a & b & Hp & Hl & Ha & Hb & Hhl & Hha & Hhb).
      rewrite !Hsame3 by done. split; [done |]. split; [done |].
      exists l, a, b. split; [done |]. split; [by apply Hcells |].
      split; by apply Hcells.
    + destruct Hfmt as (Hf & Hp & ->). rewrite !Hsame3 by done.
      split; [| done]. rewrite Hf. by apply with_template_other.
Qed.

Lemma lookup_path_key (h : list obj) (o : nat) (od : gmap string value) (k : string) :
  h !! o = Some (ODict od) → lookup_path h (VRef o) [inl k] = od !! k.
Proof. intros Ho. cbn. rewrite Ho. by destruct (od !! k). Qed.

Lemma building_keeps_old_store
    (d : gmap string value) (lp p0 : nat) (rest : list value) (h0 : list obj)
    (d0 od : gmap string value) (o : nat) (h : list obj) :
  h0 !! p0 = Some (ODict d0) →
  building d lp p0 rest h0 d0 od o h →
  take (length h0) h = h0.
Proof.
  intros Hp0 (_ & Hp0' & _ & _ & Hlen & Hold).
  apply list_eq. intros l. destruct (decide (l < length h0)) as [Hl | Hl].
  - rewrite lookup_take_lt by done.
    destruct (decide (l = p0)) as [-> | Hne]; [congruence | by apply Hold].
  - rewrite lookup_take_ge by lia. symmetry. apply lookup_ge_None. lia.
Qed.

(** X8: the output template of the options.  With an output path [p] the
    template is [p/%(title)s.%(ext)s] for a single item and
    [p/%(playlist_title)s/%(title)s.%(ext)s] in playlist mode; with no
    path (or the empty one) it is the template of the default
    configuration.  The options are a new object of the store. *)
Theorem build_options_output_template
    (hook : option ProgressHook) (fmt q : string) (out : option string) (pm : bool)
    (h : list obj) :
  config_wf h →
  ∃ h', _build_download_options hook fmt q out pm h = (Ok (VRef (length h)), h')
        ∧ h !! length h = None
        ∧ lookup_path h' (VRef (length h)) [inl "outtmpl"]
          = if str_truthy out then
              Some (VStr (default "" out
                          +:+ (if pm then "/%(playlist_title)s/%(title)s.%(ext)s"
                               else "/%(title)s.%(ext)s")))
            else lookup_path h (VRef DEFAULT_DOWNLOAD_CONFIG) [inl "outtmpl"].
Proof.
  intros (d & lp & p0 & rest & Hs).
  pose proof Hs as (H4 & _ & _ & [d0 Hp0] & _).
  destruct (build_options_run hook fmt q out pm d lp p0 rest h d0 Hs Hp0)
    as (h' & d0' & od & E & Hb & Htmpl & _).
  exists h'. split; [done |]. split; [by apply lookup_ge_None |].
  destruct Hb as (_ & _ & Ho & _).
  rewrite (lookup_path_key h' _ od) by done.
  rewrite (lookup_path_key h _ d) by done.
  rewrite Htmpl. unfold with_template. destruct (str_truthy out); [| done].
  apply lookup_insert_eq.
Qed.

(** X9: for an audio format the options select [bestaudio/best], and the
    requested codec and quality are written into the first postprocessor
    of the default configuration itself, which the options share: both
    read the requested values afterwards, on every store. *)
Theorem build_options_audio
    (hook : option ProgressHook) (fmt q : string) (out : option string) (pm : bool)
    (h : list obj) :
  config_wf h →
  is_Some (AUDIO_FORMATS !! fmt) →
  ∃ h', _build_download_options hook fmt q out pm h = (Ok (VRef (length h)), h')
        ∧ lookup_path h' (VRef (length h)) [inl "format"] = Some (VStr "bestaudio/best")
        ∧ lookup_path h' (VRef (length h)) codec_path = Some (VStr fmt)
        ∧ lookup_path h' (VRef (length h)) quality_path = Some (VStr q)
        ∧ lookup_path h' (VRef DEFAULT_DOWNLOAD_CONFIG) codec_path = Some (VStr fmt)
        ∧ lookup_path h' (VRef DEFAULT_DOWNLOAD_CONFIG) quality_path = Some (VStr q).
Proof.
  intros (d & lp & p0 & rest & Hs) [x Haudio].
  pose proof Hs as (_ & _ & _ & [d0 Hp0] & _).
  destruct (build_options_run hook fmt q out pm d lp p0 rest h d0 Hs Hp0)
    as (h' & d0' & od & E & Hb & _ & Hfmt).
  rewrite Haudio in Hfmt. destruct Hfmt as (Hf & Hp & ->).
  destruct Hb as ((H4 & Hpp & Hlp & _) & Hp0' & Ho & _).
  exists h'. split; [done |].
  split; [by rewrite (lookup_path_key h' _ od) |].
  unfold codec_path, quality_path. cbn [lookup_path].
  rewrite Ho, Hp, H4, Hpp, Hlp. cbn. rewrite Hp0'.
  rewrite lookup_insert_ne by done. rewrite !lookup_insert_eq. done.
Qed.

(** X10: for a video format the options select the container filter of
    [VIDEO_FORMATS] and get a postprocessor list of their own with the
    thumbnail and the metadata embedder, in this order and nothing else;
    no object that was in the store before is changed. *)
Theorem build_options_video
    (hook : option ProgressHook) (fmt q selector : string) (out : option string)
    (pm : bool) (h : list obj) :
  config_wf h →
  AUDIO_FORMATS !! fmt = None →
  VIDEO_FORMATS !! fmt = Some selector →
  ∃ h', _build_download_options hook fmt q out pm h = (Ok (VRef (length h)), h')
        ∧ take (length h) h' = h
        ∧ lookup_path h' (VRef (length h)) [inl "format"] = Some (VStr selector)
        ∧ lookup_path h' (VRef (length h)) [inl "postprocessors"; inr 0; inl "key"]
          = Some (VStr "EmbedThumbnail")
        ∧ lookup_path h' (VRef (length h)) [inl "postprocessors"; inr 1; inl "key"]
          = Some (VStr "FFmpegMetadata")
        ∧ lookup_path h' (VRef (length h)) [inl "postprocessors"; inr 2] = None
        ∧ lookup_path h' (VRef (length h)) codec_path = None.
Proof.
  intros (d & lp & p0 & rest & Hs) Haudio Hvideo.
  pose proof Hs as (_ & _ & _ & [d0 Hp0] & _).
  destruct (build_options_run hook fmt q out pm d lp p0 rest h d0 Hs Hp0)
    as (h' & d0' & od & E & Hb & _ & Hfmt).
  rewrite Haudio, Hvideo in Hfmt.
  destruct Hfmt as (Hf & -> & l & a & b & Hp & Hl & Ha & Hbb).
  exists h'. split; [done |].
  split; [by eapply building_keeps_old_store |].
  destruct Hb as (_ & _ & Ho & _).
  split; [by rewrite (lookup_path_key h' _ od) |].
  unfold codec_path. cbn [lookup_path]. rewrite Ho, Hp, Hl. cbn. rewrite Ha, Hbb. done.
Qed.

(** X11: a format found in neither table is not rejected: the options
    keep the format selector and the postprocessor list of the default
    configuration, whatever codec and quality that holds at the time; the
    requested format and quality are dropped and the store is not changed. *)
Theorem build_options_unknown_format
    (hook : option ProgressHook) (fmt q : string) (out : option string) (pm : bool)
    (h : list obj) :
  config_wf h →
  AUDIO_FORMATS !! fmt = None →
  VIDEO_FORMATS !! fmt = None →
  ∃ h', _build_download_options hook fmt q out pm h = (Ok (VRef (length h)), h')
        ∧ take (length h) h' = h
        ∧ lookup_path h' (VRef (length h)) [inl "format"]
          = lookup_path h (VRef DEFAULT_DOWNLOAD_CONFIG) [inl "format"]
        ∧ lookup_path h' (VRef (length h)) [inl "postprocessors"]
          = lookup_path h (VRef DEFAULT_DOWNLOAD_CONFIG) [inl "postprocessors"]
        ∧ lookup_path h' (VRef (length h)) codec_path
          = lookup_path h (VRef DEFAULT_DOWNLOAD_CONFIG) codec_path
        ∧ lookup_path h' (VRef (length h)) quality_path
          = lookup_path h (VRef DEFAULT_DOWNLOAD_CONFIG) quality_path.
Proof.
  intros (d & lp & p0 & rest & Hs) Haudio Hvideo.
  pose proof Hs as (H4 & Hpp & Hlp & [d0 Hp0] & _).
  destruct (build_options_run hook fmt q out pm d lp p0 rest h d0 Hs Hp0)
    as (h' & d0' & od & E & Hb & _ & Hfmt).
  rewrite Haudio, Hvideo in Hfmt. destruct Hfmt as (Hf & Hp & ->).
  exists h'. split; [done |].
  split; [by eapply building_keeps_old_store |].
  destruct Hb as ((H4' & _ & Hlp' & _) & Hp0' & Ho & _).
  rewrite !(lookup_path_key h' _ od), !(lookup_path_key h _ d) by done.
  split; [done |]. split; [congruence |].
  unfold codec_path, quality_path. cbn [lookup_path].
  rewrite Ho, Hp, H4, Hpp, Hlp, Hlp'. cbn. rewrite Hp0, Hp0'. done.
Qed.

Lemma build_options_output_template_witness :
  ∃ h', _build_download_options None "mp3" "192" (Some "out") true
          (initial_heap "downloads") = (Ok (VRef 5), h')
        ∧ initial_heap "downloads" !! 5 = None
        ∧ lookup_path h' (VRef 5) [inl "outtmpl"]
          = Some (VStr "out/%(playlist_title)s/%(title)s.%(ext)s").
Proof.
  apply (build_options_output_template None "mp3" "192" (Some "out") true
           (initial_heap "downloads")).
  apply initial_heap_wf.
Defined.

Lemma build_options_audio_witness :
  ∃ h', _build_download_options None "flac" "best" None false
          (initial_heap "downloads") = (Ok (VRef 5), h')
        ∧ lookup_path h' (VRef 5) [inl "format"] = Some (VStr "bestaudio/best")
        ∧ lookup_path h' (VRef 5) codec_path = Some (VStr "flac")
        ∧ lookup_path h' (VRef 5) quality_path = Some (VStr "best")
        ∧ lookup_path h' (VRef DEFAULT_DOWNLOAD_CONFIG) codec_path = Some (VStr "flac")
        ∧ lookup_path h' (VRef DEFAULT_DOWNLOAD_CONFIG) quality_path = Some (VStr "best").
Proof.
  apply (build_options_audio None "flac" "best" None false (initial_heap "downloads")).
  - apply initial_heap_wf.
  - eexists. reflexivity.
Defined.

Lemma build_options_video_witness :
  ∃ h', _build_download_options None "webm" "1080p" None false
          (initial_heap "downloads") = (Ok (VRef 5), h')
        ∧ take 5 h' = initial_heap "downloads"
        ∧ lookup_path h' (VRef 5) [inl "format"] = Some (VStr "best[ext=webm]")
        ∧ lookup_path h' (VRef 5) [inl "postprocessors"; inr 0; inl "key"]
          = Some (VStr "EmbedThumbnail")
        ∧ lookup_path h' (VRef 5) [inl "postprocessors"; inr 1; inl "key"]
          = Some (VStr "FFmpegMetadata")
        ∧ lookup_path h' (VRef 5) [inl "postprocessors"; inr 2] = None
        ∧ lookup_path h' (VRef 5) codec_path = None.
Proof.
  apply (build_options_video None "webm" "1080p" "best[ext=webm]" None false
           (initial_heap "downloads")).
  - apply initial_heap_wf.
  - reflexivity.
  - reflexivity.
Defined.

Lemma build_options_unknown_format_witness :
  ∃ h', _build_download_options None "opus" "64" None false
          (initial_heap "downloads") = (Ok (VRef 5), h')
        ∧ take 5 h' = initial_heap "downloads"
        ∧ lookup_path h' (VRef 5) [inl "format"] = Some (VStr "bestaudio/best")
        ∧ lookup_path h' (VRef 5) [inl "postprocessors"] = Some (VRef loc_postprocessors)
        ∧ lookup_path h' (VRef 5) codec_path = Some (VStr "mp3")
        ∧ lookup_path h' (VRef 5) quality_path = Some (VStr "192").
Proof.
  apply (build_options_unknown_format None "opus" "64" None false
           (initial_heap "downloads")).
  - apply initial_heap_wf.
  - reflexivity.
  - reflexivity.
Defined.

(** ** Loading and resetting the settings *)

(** X12: a [SettingsManager] over a path that has no file, or whose file
    cannot be read as JSON or for lack of permission, starts with exactly
    the built-in defaults; any other exception of the read leaves the
    constructor.  Whenever the constructor returns, every built-in key
    has a value. *)
Theorem settings_load_falls_back_to_defaults
    (home : string) (fs : Settings.filesystem) (p : string) :
  (Settings.files fs !! p = None
   ∨ (∃ e, Settings.files fs !! p = Some (Settings.Unreadable e)
           ∧ e ∈ [JSONDecodeError; FileNotFoundError; PermissionError]) →
   Settings.new_manager home fs p
   = Ok {| Settings.settings_file := p;
           Settings.settings := Settings.default_settings home |})
  ∧ (∀ e, Settings.files fs !! p = Some (Settings.Unreadable e) →
          e ∉ [JSONDecodeError; FileNotFoundError; PermissionError] →
          Settings.new_manager home fs p = Raise e)
  ∧ (∀ sm k, Settings.new_manager home fs p = Ok sm →
             is_Some (Settings.default_settings home !! k) →
             is_Some (Settings.settings sm !! k)).
Proof.
  split; [| split].
  - intros [Hnone | (e & He & Hin)];
      unfold Settings.new_manager, Settings._load_settings, Settings.load_json_file.
    + by rewrite Hnone.
    + rewrite He.
      repeat (apply elem_of_cons in Hin as [-> | Hin]; [done |]).
      by apply elem_of_nil in Hin.
  - intros e He Hnot.
    unfold Settings.new_manager, Settings._load_settings, Settings.load_json_file.
    rewrite He. destruct e; try done; exfalso; apply Hnot; set_solver.
  - intros sm k Hnew Hk.
    unfold Settings.new_manager, Settings._load_settings in Hnew.
    destruct (Settings.load_json_file fs p) as [[saved |] | e]; [| | done].
    + destruct (decide (saved = ∅)); injection Hnew as <-; cbn; [done |].
      unfold Settings.dict_update. destruct Hk as [v Hv].
      destruct (saved !! k) as [x|] eqn:E.
      * exists x. by apply lookup_union_Some_l.
      * exists v. rewrite lookup_union_r; done.
    + by injection Hnew as <-.
Qed.

Lemma default_settings_nonempty (home : string) : Settings.default_settings home ≠ ∅.
Proof.
  intros H. assert (Ht : Settings.default_settings home !! "theme" = Some (JStr "clam"))
    by reflexivity.
  rewrite H in Ht. by rewrite lookup_empty in Ht.
Qed.

(** X13: [reset_to_defaults] removes the file and puts the built-in
    defaults in place of whatever the manager held: nothing of the earlier
    settings is left in memory, no other file is touched, and when the
    manager is saved afterwards a manager loaded from the file holds
    exactly the defaults.  When the removal raises, the exception leaves
    the method and nothing has changed. *)
Theorem reset_to_defaults_restores_defaults
    (home : string) (unlink_error : option exn)
    (sm : Settings.SettingsManager) (fs : Settings.filesystem) :
  let defaults := {| Settings.settings_file := Settings.settings_file sm;
                     Settings.settings := Settings.default_settings home |} in
  match unlink_error with
  | Some e => SettingsReset.reset_to_defaults home (Some e) sm fs = (Raise e, fs)
  | None =>
      ∃ fs1,
        SettingsReset.reset_to_defaults home None sm fs = (Ok defaults, fs1)
        ∧ Settings.files fs1 !! Settings.settings_file sm = None
        ∧ (∀ p, p ≠ Settings.settings_file sm →
                Settings.files fs1 !! p = Settings.files fs !! p)
        ∧ Settings.new_manager home fs1 (Settings.settings_file sm) = Ok defaults
        ∧ ∀ fs2, Settings.save_settings defaults fs1 = (Ok true, fs2) →
                 Settings.new_manager home fs2 (Settings.settings_file sm) = Ok defaults
  end.
Proof.
  intros defaults. destruct unlink_error as [e |]; [done |].
  unfold SettingsReset.reset_to_defaults, Settings._load_settings, Settings.load_json_file.
  cbn [Settings.files]. rewrite lookup_delete_eq. cbn [caught_by].
  eexists. split; [reflexivity |]. cbn [Settings.files].
  split; [by rewrite lookup_delete_eq |].
  split; [intros p Hp; by rewrite lookup_delete_ne |].
  split.
  - unfold Settings.new_manager, Settings._load_settings, Settings.load_json_file.
    cbn [Settings.files]. by rewrite lookup_delete_eq.
  - intros fs2 Hsave. unfold Settings.save_settings in Hsave.
    apply load_after_save in Hsave. cbn [Settings.settings_file Settings.settings defaults] in Hsave.
    unfold Settings.new_manager, Settings._load_settings. rewrite Hsave.
    rewrite decide_False by apply default_settings_nonempty.
    unfold Settings.dict_update. by rewrite (idemp_L (∪)).
Qed.

(** A manager that held the theme [dark], over a file that stores it:
    after reset, save and reload the theme is the built-in one. *)
Example reset_to_defaults_forgets_theme :
  let sm := {| Settings.settings_file := "settings.json";
               Settings.settings :=
                 <["theme" := JStr "dark"]> (Settings.default_settings "/home/u") |} in
  let fs := {| Settings.files :=
                 {["settings.json" := Settings.Document [("theme", JStr "dark")]]};
               Settings.write_error := λ _, None |} in
  ∃ sm1 fs1 fs2 sm2,
    SettingsReset.reset_to_defaults "/home/u" None sm fs = (Ok sm1, fs1)
    ∧ Settings.get sm1 "theme" None = Some (JStr "clam")
    ∧ Settings.save_settings sm1 fs1 = (Ok true, fs2)
    ∧ Settings.new_manager "/home/u" fs2 "settings.json" = Ok sm2
    ∧ Settings.get sm2 "theme" None = Some (JStr "clam").
Proof.
  intros sm fs. eexists _, _, _, _.
  split; [reflexivity |]. split; [reflexivity |]. split; [reflexivity |].
  split; [vm_compute; reflexivity | reflexivity].
Qed.

Lemma settings_load_falls_back_to_defaults_witness :
  let fs := {| Settings.files := {["settings.json" := Settings.Unreadable JSONDecodeError]};
               Settings.write_error := λ _, None |} in
  Settings.new_manager "/home/u" fs "settings.json"
  = Ok {| Settings.settings_file := "settings.json";
          Settings.settings := Settings.default_settings "/home/u" |}.
Proof.
  intros fs.
  apply (proj1 (settings_load_falls_back_to_defaults "/home/u" fs "settings.json")).
  right. exists JSONDecodeError. split; [reflexivity | set_solver].
Defined.

(** ** [clean_empty_folders]: what is left and what is never touched *)

Lemma is_child_depth (folder q : path) :
  is_child folder q = true → length q = S (length folder).
Proof.
  destruct q as [| x q]; [done |]. unfold is_child. intros <-%path_eqb_true.
  rewrite removelast_firstn_len, firstn_length_le by lia.
  cbn [length]. lia.
Qed.

Lemma any_iterdir_true (t : tree) (folder : path) :
  any_iterdir t folder = true ↔ ∃ e, e ∈ t ∧ is_child folder (fst e) = true.
Proof.
  unfold any_iterdir. rewrite existsb_exists.
  split; intros (e & He & Hc); exists e; by apply list_elem_of_In in He.
Qed.

Lemma is_dir_rmdir_self (t : tree) (folder : path) : is_dir (rmdir folder t) folder = false.
Proof.
  apply not_true_is_false. intros (Hn & _)%has_kind_true%list_elem_of_filter.
  apply Hn. apply Is_true_true. by apply path_eqb_true.
Qed.

Lemma is_dir_rmdir (t : tree) (folder f : path) :
  is_dir (rmdir folder t) f = true → is_dir t f = true.
Proof.
  intros (_ & Hin)%has_kind_true%list_elem_of_filter. by apply has_kind_true.
Qed.

Lemma clean_step_settled (os_error : path → bool) (base : path) (s : sweep)
    (done : list path) (g : path) :
  (∀ p, os_error p = false) →
  (∀ f, f ∈ done → deeper_first f g) →
  settled base s done →
  settled base (clean_step os_error base s g) (done ++ [g]).
Proof.
  intros Hok Hdeep Hs. unfold clean_step. rewrite Hok.
  destruct (is_dir (sw_tree s) g && negb (path_eqb g base)) eqn:Hguard.
  - destruct (any_iterdir (sw_tree s) g) eqn:Hany; cbn [negb].
    + intros f [Hf | ->%list_elem_of_singleton]%elem_of_app Hdir Hne; [by apply Hs | done].
    + intros f [Hf | ->%list_elem_of_singleton]%elem_of_app; cbn [sw_tree].
      * intros Hdir Hne. apply is_dir_rmdir in Hdir.
        destruct (proj1 (any_iterdir_true _ _) (Hs f Hf Hdir Hne)) as (e & He & Hc).
        apply any_iterdir_true. exists e. split; [| done].
        apply list_elem_of_filter. split; [| done].
        rewrite Is_true_true, path_eqb_true. intros Heq.
        apply is_child_depth in Hc. rewrite Heq in Hc.
        specialize (Hdeep f Hf). unfold deeper_first in Hdeep. lia.
      * by rewrite is_dir_rmdir_self.
  - intros f [Hf | ->%list_elem_of_singleton]%elem_of_app Hdir Hne; [by apply Hs |].
    apply andb_false_iff in Hguard as [Hg | Hg]; [congruence |].
    apply negb_false_iff, path_eqb_true in Hg. done.
Qed.

Lemma sorted_before (done todo : list path) (f g : path) :
  StronglySorted deeper_first (done ++ g :: todo) → f ∈ done → deeper_first f g.
Proof.
  induction done as [| x done IH]; cbn [app]; intros Hsorted Hf.
  - by apply elem_of_nil in Hf.
  - apply StronglySorted_inv in Hsorted as [Hrest Hall].
    apply elem_of_cons in Hf as [-> | Hf]; [| by apply IH].
    rewrite Forall_forall in Hall. apply Hall.
    apply elem_of_app. right. left.
Qed.

Lemma clean_loop_settled (os_error : path → bool) (base : path) :
  (∀ p, os_error p = false) →
  ∀ (todo done : list path) (s : sweep),
    StronglySorted deeper_first (done ++ todo) →
    settled base s done →
    settled base (fold_left (clean_step os_error base) todo s) (done ++ todo).
Proof.
  intros Hok. induction todo as [| g todo IH]; intros done s Hsorted Hs.
  - by rewrite app_nil_r.
  - cbn [fold_left]. rewrite (assoc_L (++) done [g] todo : done ++ g :: todo = _).
    apply IH.
    + by rewrite <- (assoc_L (++)).
    + apply clean_step_settled; [done | | done].
      intros f Hf. by eapply sorted_before.
Qed.


Lemma clean_step_emptied (os_error : path → bool) (t : tree) (base : path) (s : sweep)
    (g : path) :
  sweep_inv t base s → emptied t s → emptied t (clean_step os_error base s g).
Proof.
  intros (Htree & _) Hem. unfold clean_step.
  destruct (is_dir (sw_tree s) g && negb (path_eqb g base)); [| done].
  destruct (os_error g); [done |].
  destruct (any_iterdir (sw_tree s) g) eqn:Hany; cbn [negb]; [done |].
  intros p e [Hp | ->%list_elem_of_singleton]%elem_of_app He Hc; cbn [removed] in *;
    apply elem_of_app.
  - left. by eapply Hem.
  - left. destruct (decide (fst e ∈ removed s)) as [Hin | Hout]; [done |].
    assert (Hthere : e ∈ sw_tree s) by (rewrite Htree; by apply list_elem_of_filter).
    assert (any_iterdir (sw_tree s) g = true) by (apply any_iterdir_true; by exists e).
    congruence.
Qed.

Lemma clean_loop_emptied (os_error : path → bool) (t : tree) (base : path)
    (folders : list path) (s : sweep) :
  sweep_inv t base s → emptied t s →
  emptied t (fold_left (clean_step os_error base) folders s).
Proof.
  revert s. induction folders as [| g folders IH]; intros s Hinv Hem; cbn; [done |].
  apply IH; [by apply clean_step_inv | by apply clean_step_emptied].
Qed.

Lemma sweep_inv_initial (t : tree) (base : path) :
  sweep_inv t base {| sw_tree := t; deleted_count := 0; removed := [] |}.
Proof.
  split; [| split; [| split]]; cbn.
  - symmetry. induction t as [| e t IH]; [done |].
    rewrite filter_cons_True; [by rewrite IH | apply not_elem_of_nil].
  - done.
  - apply NoDup_nil_2.
  - by intros ? ?%elem_of_nil.
Qed.

Lemma one_entry_per_path (t : tree) (p : path) (k1 k2 : kind) :
  NoDup t.*1 → (p, k1) ∈ t → (p, k2) ∈ t → k1 = k2.
Proof.
  intros Hnd [i Hi]%list_elem_of_lookup [j Hj]%list_elem_of_lookup.
  assert (i = j).
  { eapply NoDup_lookup; [exact Hnd | |]; rewrite list_lookup_fmap.
    - by rewrite Hi.
    - by rewrite Hj. }
  subst. congruence.
Qed.

(** X15: [clean_empty_folders] removes a folder only when everything
    directly inside it was removed in the same call.  In a tree that
    lists every path once it therefore never removes an entry that is not
    a directory, and never a folder that directly holds such an entry. *)
Theorem clean_empty_folders_spares_files
    (os_error : path → bool) (base : path) (t : tree) :
  let r := clean_empty_folders os_error base t in
  emptied t r
  ∧ (NoDup t.*1 → ∀ e, e ∈ t → snd e ≠ KDir → e ∈ sw_tree r)
  ∧ (NoDup t.*1 → ∀ p e, e ∈ t → snd e ≠ KDir → is_child p (fst e) = true →
                         p ∉ removed r).
Proof.
  intros r.
  destruct (clean_empty_folders_inv os_error base t) as (Htree & _ & _ & Hdirs).
  fold r in Htree, Hdirs.
  assert (Hem : emptied t r).
  { unfold r, clean_empty_folders. apply clean_loop_emptied.
    - apply sweep_inv_initial.
    - by intros ? ? ?%elem_of_nil. }
  assert (Hfiles : NoDup t.*1 → ∀ e, e ∈ t → snd e ≠ KDir → fst e ∉ removed r).
  { intros Hnd [q k] He Hk Hin. cbn in *.
    destruct (Hdirs q Hin) as [Hdir _]. apply has_kind_true in Hdir.
    apply Hk. by eapply one_entry_per_path. }
  split; [done |]. split.
  - intros Hnd e He Hk. rewrite Htree. apply list_elem_of_filter.
    split; [by apply Hfiles | done].
  - intros Hnd p e He Hk Hc Hp. apply (Hfiles Hnd e He Hk). by eapply Hem.
Qed.


Lemma clean_empty_folders_spares_files_witness :
  let r := clean_empty_folders Examples.no_os_error ["root"] Trees.library in
  ((["root"; "keep"; "song.mp3"], KFile) ∈ sw_tree r)
  ∧ (["root"; "keep"] ∉ removed r).
Proof.
  intros r.
  destruct (clean_empty_folders_spares_files Examples.no_os_error ["root"] Trees.library)
    as (_ & Hkept & Hparent).
  fold r in Hkept, Hparent.
  assert (Hnd : NoDup Trees.library.*1)
    by (apply (bool_decide_unpack _); vm_compute; exact I).
  assert (Hin : (["root"; "keep"; "song.mp3"], KFile) ∈ Trees.library)
    by (apply list_elem_of_lookup; exists 2; reflexivity).
  split.
  - apply (Hkept Hnd _ Hin). discriminate.
  - apply (Hparent Hnd _ _ Hin); [discriminate | reflexivity].
Defined.

(** ** [clean_temp_files] *)

Lemma exists_entry_true (t : tree) (p : path) :
  exists_entry t p = true ↔ ∃ e, e ∈ t ∧ fst e = p.
Proof.
  unfold exists_entry. rewrite existsb_exists. split.
  - intros (e & He & Hp). exists e. split; [by apply list_elem_of_In | by apply path_eqb_true].
  - intros (e & He & Hp). exists e. split; [by apply list_elem_of_In | by apply path_eqb_true].
Qed.

Lemma unlink_filter (t : tree) (gone : list path) (p : path) :
  filter (λ e, fst e ≠ p) (filter (λ e, fst e ∉ gone) t)
  = filter (λ e, fst e ∉ (gone ++ [p])) t.
Proof.
  rewrite list_filter_filter. apply list_filter_iff.
  intros e. rewrite not_elem_of_app, list_elem_of_singleton. tauto.
Qed.

Lemma unlink_step_purging (os_error : path → bool) (base : path) (t : tree)
    (s : purge) (p : path) :
  temp_path base p → purging base t s → purging base t (unlink_step os_error s p).
Proof.
  intros [Hunder Hsuffix] Hs. unfold unlink_step.
  destruct (is_dir (pg_tree s) p) eqn:Hdir; [done |].
  destruct (exists_entry (pg_tree s) p) eqn:Hex; cbn [negb]; [| done].
  destruct (os_error p); [done |].
  destruct Hs as (gone & Htree & Hnd & Hcount & Hgone).
  apply exists_entry_true in Hex as (e0 & He0 & Hp0).
  rewrite Htree in He0. apply list_elem_of_filter in He0 as [Hfresh He0].
  exists (gone ++ [p]). cbn [pg_tree pg_deleted].
  split; [rewrite Htree; apply unlink_filter |].
  split.
  { apply NoDup_app. split; [done |]. split; [| apply NoDup_singleton].
    intros x Hx ->%list_elem_of_singleton. by subst. }
  split; [rewrite length_app, Hcount; cbn; lia |].
  intros q [Hq | ->%list_elem_of_singleton]%elem_of_app; [by apply Hgone |].
  split; [by exists e0 |].
  intros e He Hpe. unfold purgeable. rewrite Hpe, Hunder, Hsuffix.
  rewrite andb_true_r, andb_true_l. apply negb_true_iff, not_true_is_false.
  intros Hk%kind_eqb_true.
  assert (is_dir (pg_tree s) p = true); [| congruence].
  apply has_kind_true. rewrite Htree. apply list_elem_of_filter.
  split; [by rewrite Hp0 in Hfresh |]. destruct e as [q k]. cbn in *. by subst.
Qed.

Lemma rglob_suffix_temp_path (t : tree) (base : path) (ext : string) (p : path) :
  ext ∈ temp_extensions → p ∈ rglob_suffix t base ext → temp_path base p.
Proof.
  intros Hext (e & <- & He)%list_elem_of_In%in_map_iff.
  apply list_elem_of_In, list_elem_of_filter in He as [Hm _].
  apply Is_true_true, andb_true_iff in Hm as [Hu Hs]. split; [done |].
  apply existsb_exists. exists ext. split; [by apply list_elem_of_In | done].
Qed.

Lemma unlink_loop_purging (os_error : path → bool) (base : path) (t : tree)
    (paths : list path) (s : purge) :
  (∀ p, p ∈ paths → temp_path base p) →
  purging base t s → purging base t (fold_left (unlink_step os_error) paths s).
Proof.
  revert s. induction paths as [| p paths IH]; intros s Hall Hs; cbn [fold_left]; [done |].
  apply IH.
  - intros q Hq. apply Hall. by right.
  - apply unlink_step_purging; [apply Hall; left | done].
Qed.

Lemma clean_temp_files_purging (os_error : path → bool) (base : path) (t : tree) :
  purging base t (clean_temp_files os_error base t).
Proof.
  unfold clean_temp_files.
  assert (Hstart : purging base t {| pg_tree := t; pg_deleted := 0 |}).
  { exists []. cbn. split.
    - symmetry. induction t as [| e t IH]; [done |].
      rewrite filter_cons_True; [by rewrite IH | apply not_elem_of_nil].
    - split; [apply NoDup_nil_2 |]. split; [done |]. by intros ? ?%elem_of_nil. }
  assert (Hexts : ∀ ext, ext ∈ temp_extensions → ext ∈ temp_extensions) by done.
  revert Hstart Hexts. generalize {| pg_tree := t; pg_deleted := 0 |}.
  generalize temp_extensions at 1 3.
  intros exts. induction exts as [| ext exts IH]; intros s Hs Hexts; cbn [fold_left]; [done |].
  apply IH.
  - apply unlink_loop_purging; [| done].
    intros p Hp. eapply rglob_suffix_temp_path; [| exact Hp]. apply Hexts. left.
  - intros x Hx. apply Hexts. by right.
Qed.

Lemma gone_entries_length (t : tree) (gone : list path) :
  NoDup t.*1 → NoDup gone →
  (∀ p, p ∈ gone → ∃ e, e ∈ t ∧ fst e = p) →
  length (filter (λ e, fst e ∈ gone) t) = length gone.
Proof.
  intros Hnd Hgone Hall.
  rewrite <- (length_fmap fst). apply Permutation_length, NoDup_Permutation.
  - eapply NoDup_fmap_2_strong; [| by apply NoDup_filter, NoDup_fmap_1 with fst].
    intros [p1 k1] [p2 k2] [_ H1]%list_elem_of_filter [_ H2]%list_elem_of_filter Heq.
    cbn in Heq. subst. f_equal. by eapply one_entry_per_path.
  - done.
  - intros p. rewrite list_elem_of_fmap. split.
    + intros (e & -> & [He _]%list_elem_of_filter). done.
    + intros Hp. destruct (Hall p Hp) as (e & He & <-). exists e.
      split; [done |]. by apply list_elem_of_filter.
Qed.


Lemma unlink_step_sub (os_error : path → bool) (s : purge) (p : path) (e : path * kind) :
  e ∈ pg_tree (unlink_step os_error s p) → e ∈ pg_tree s.
Proof.
  unfold unlink_step.
  destruct (is_dir (pg_tree s) p); [done |].
  destruct (negb (exists_entry (pg_tree s) p)); [done |].
  destruct (os_error p); [done |].
  cbn [pg_tree]. by intros [_ ?]%list_elem_of_filter.
Qed.

Lemma unlink_loop_sub (os_error : path → bool) (paths : list path) (s : purge)
    (e : path * kind) :
  e ∈ pg_tree (fold_left (unlink_step os_error) paths s) → e ∈ pg_tree s.
Proof.
  revert s. induction paths as [| p paths IH]; intros s; cbn [fold_left]; [done |].
  intros He%IH. by eapply unlink_step_sub.
Qed.

Lemma passes_sub (os_error : path → bool) (base : path) (exts : list string) (s : purge)
    (e : path * kind) :
  e ∈ pg_tree (fold_left (pass os_error base) exts s) → e ∈ pg_tree s.
Proof.
  revert s. induction exts as [| ext exts IH]; intros s; cbn [fold_left]; [done |].
  intros He%IH. by eapply unlink_loop_sub.
Qed.

Lemma unlink_step_done (os_error : path → bool) (s : purge) (p : path) (e : path * kind) :
  os_error p = false →
  e ∈ pg_tree (unlink_step os_error s p) → fst e = p → (p, KDir) ∈ pg_tree s.
Proof.
  intros Hok. unfold unlink_step. rewrite Hok.
  destruct (is_dir (pg_tree s) p) eqn:Hdir; [intros _ _; by apply has_kind_true |].
  destruct (exists_entry (pg_tree s) p) eqn:Hex; cbn [negb pg_tree].
  - intros [Hne _]%list_elem_of_filter Hp. done.
  - intros He Hp. assert (exists_entry (pg_tree s) p = true); [| congruence].
    apply exists_entry_true. by exists e.
Qed.

Lemma unlink_loop_done (os_error : path → bool) (paths : list path) (s : purge)
    (p : path) (e : path * kind) :
  (∀ q, os_error q = false) →
  p ∈ paths →
  e ∈ pg_tree (fold_left (unlink_step os_error) paths s) → fst e = p →
  (p, KDir) ∈ pg_tree s.
Proof.
  intros Hok. revert s. induction paths as [| q paths IH]; intros s Hp He Hfst.
  - by apply elem_of_nil in Hp.
  - cbn [fold_left] in He. apply elem_of_cons in Hp as [-> | Hp].
    + apply unlink_loop_sub in He.
      exact (unlink_step_done os_error s q e (Hok q) He Hfst).
    + eapply unlink_step_sub. by eapply IH.
Qed.

Lemma passes_done (os_error : path → bool) (base : path) (exts : list string)
    (s : purge) (ext : string) (e : path * kind) :
  (∀ q, os_error q = false) →
  ext ∈ exts →
  e ∈ pg_tree (fold_left (pass os_error base) exts s) →
  is_under base (fst e) = true →
  endswith (name_of (fst e)) ext = true →
  (fst e, KDir) ∈ pg_tree s.
Proof.
  intros Hok. revert s. induction exts as [| x exts IH]; intros s Hext He Hu Hs.
  - by apply elem_of_nil in Hext.
  - cbn [fold_left] in He. apply elem_of_cons in Hext as [-> | Hext].
    + pose proof (passes_sub _ _ _ _ _ He) as He1.
      unfold pass in He1 at 1.
      eapply (unlink_loop_done os_error _ s (fst e) e Hok); [| exact He1 | done].
      apply unlink_loop_sub in He1.
      unfold rglob_suffix. apply list_elem_of_In, in_map_iff. exists e.
      split; [done |]. apply list_elem_of_In, list_elem_of_filter. split; [| done].
      apply Is_true_true. by rewrite Hu, Hs.
    + eapply unlink_loop_sub. by eapply IH.
Qed.

Lemma clean_temp_files_sub (os_error : path → bool) (base : path) (t : tree) (e : path * kind) :
  e ∈ pg_tree (clean_temp_files os_error base t) → e ∈ t.
Proof.
  destruct (clean_temp_files_purging os_error base t) as (gone & -> & _).
  by intros [_ ?]%list_elem_of_filter.
Qed.

Lemma clean_temp_files_keeps (os_error : path → bool) (base : path) (t : tree)
    (e : path * kind) :
  e ∈ t → purgeable base e = false → e ∈ pg_tree (clean_temp_files os_error base t).
Proof.
  destruct (clean_temp_files_purging os_error base t) as (gone & -> & _ & _ & Hgone).
  intros He Hp. apply list_elem_of_filter. split; [| done].
  intros Hin. destruct (Hgone _ Hin) as [_ Hall]. specialize (Hall e He eq_refl). congruence.
Qed.

Lemma clean_temp_files_none_left (os_error : path → bool) (base : path) (t : tree)
    (e : path * kind) :
  (∀ p, os_error p = false) →
  NoDup t.*1 →
  e ∈ pg_tree (clean_temp_files os_error base t) → purgeable base e = false.
Proof.
  intros Hok Hnd He. apply not_true_is_false. intros Hp. unfold purgeable in Hp.
  apply andb_true_iff in Hp as [[Hu Hk]%andb_true_iff Hs].
  apply existsb_exists in Hs as (ext & Hext%list_elem_of_In & Hs).
  assert (Hd : (fst e, KDir) ∈ t).
  { exact (passes_done os_error base temp_extensions
             {| pg_tree := t; pg_deleted := 0 |} ext e Hok Hext He Hu Hs). }
  destruct e as [p k]. cbn in *.
  rewrite (one_entry_per_path t p k KDir Hnd (clean_temp_files_sub _ _ _ _ He) Hd) in Hk.
  done.
Qed.





(** ** [get_quality_report]: when it returns and what it counts *)

Lemma tally_step_analysed (analyze : path → analysis) (acc : tally) (p : path) :
  tally_step analyze acc p
  = match analysed analyze p with
    | Some i =>
        {| files_analyzed := files_analyzed acc + 1;
           total_duration := (total_duration acc + duration i)%Q;
           quality_distribution :=
             if (0 <? bitrate i)%Z
             then count_up (classify (bitrate i)) (quality_distribution acc)
             else quality_distribution acc |}
    | None => acc
    end.
Proof.
  unfold tally_step, analysed.
  destruct (bool_decide _); [| done]. by destruct (analyze p).
Qed.

Lemma count_up_is_Some (ext k : string) (m : gmap string nat) :
  is_Some (count_up ext m !! k) ↔ k = ext ∨ is_Some (m !! k).
Proof.
  unfold count_up. destruct (decide (k = ext)) as [-> | Hne].
  - rewrite lookup_insert_eq. split; [by left | by eexists].
  - rewrite lookup_insert_ne by done. split; [by right | by intros [? | ?]].
Qed.

Lemma tally_step_tallied (analyze : path → analysis) (seen : list audio_info)
    (acc : tally) (p : path) :
  tallied seen acc →
  tallied (seen ++ option_list (analysed analyze p)) (tally_step analyze acc p).
Proof.
  intros (Hfiles & Hsum & Hkeys). rewrite tally_step_analysed.
  destruct (analysed analyze p) as [i|].
  2: { change (option_list None) with (@nil audio_info). by rewrite app_nil_r. }
  change (option_list (Some i)) with [i].
  split; [| split]; cbn [files_analyzed quality_distribution].
  - rewrite length_app, Hfiles. cbn. lia.
  - rewrite filter_app, length_app, <- Hsum.
    destruct (0 <? bitrate i)%Z eqn:Hpos.
    + apply Z.ltb_lt in Hpos. rewrite sum_values_count_up.
      rewrite filter_cons_True by done. cbn. lia.
    + apply Z.ltb_ge in Hpos. rewrite filter_cons_False by lia. cbn. lia.
  - intros k. destruct (0 <? bitrate i)%Z eqn:Hpos.
    + apply Z.ltb_lt in Hpos. rewrite count_up_is_Some, Hkeys. split.
      * intros [-> | (j & Hj & ?)].
        -- exists i. split; [apply elem_of_app; right; left | done].
        -- exists j. split; [apply elem_of_app; by left | done].
      * intros (j & [Hj | ->%list_elem_of_singleton]%elem_of_app & Hp & Hc).
        -- right. by exists j.
        -- by left.
    + apply Z.ltb_ge in Hpos. rewrite Hkeys. split.
      * intros (j & Hj & ?). exists j. split; [apply elem_of_app; by left | done].
      * intros (j & [Hj | ->%list_elem_of_singleton]%elem_of_app & Hp & Hc).
        -- by exists j.
        -- lia.
Qed.

Lemma tally_loop_tallied (analyze : path → analysis) (paths : list path)
    (seen : list audio_info) (acc : tally) :
  tallied seen acc →
  tallied (seen ++ omap (analysed analyze) paths) (fold_left (tally_step analyze) paths acc).
Proof.
  revert seen acc. induction paths as [| p paths IH]; intros seen acc Hacc; cbn [fold_left].
  - cbn. by rewrite app_nil_r.
  - apply (tally_step_tallied analyze _ _ p) in Hacc. apply IH in Hacc.
    rewrite <- (assoc_L (++)) in Hacc.
    replace (option_list (analysed analyze p) ++ omap (analysed analyze) paths)
      with (omap (analysed analyze) (p :: paths)) in Hacc; [done |].
    cbn. by destruct (analysed analyze p).
Qed.

Lemma tally_start : tallied [] {| files_analyzed := 0; total_duration := 0%Q;
                                  quality_distribution := ∅ |}.
Proof.
  split; [done |]. split; [done |]. intros k. cbn. rewrite lookup_empty. split.
  - by intros [? ?].
  - by intros (i & ?%elem_of_nil & _).
Qed.

Lemma classify_label (b : Z) : classify b ∈ band_labels.
Proof.
  unfold classify, band_labels.
  repeat (destruct (_ <=? b)%Z; [set_solver |]). set_solver.
Qed.

Lemma classify_low (b : Z) : classify b = low_band ↔ (b < 128)%Z.
Proof.
  unfold classify, low_band.
  destruct (320 <=? b)%Z eqn:E1; [apply Z.leb_le in E1; split; [done | lia] |].
  destruct (256 <=? b)%Z eqn:E2; [apply Z.leb_le in E2; split; [done | lia] |].
  destruct (192 <=? b)%Z eqn:E3; [apply Z.leb_le in E3; split; [done | lia] |].
  destruct (128 <=? b)%Z eqn:E4; [apply Z.leb_le in E4; split; [done | lia] |].
  apply Z.leb_gt in E4. done.
Qed.

(** The sum over the labels fails exactly on the label of the low band. *)
Lemma weighted_sum_labels (items : list (string * nat)) :
  Forall (λ kv, fst kv ∈ band_labels) items →
  if decide (low_band ∈ items.*1)
  then weighted_sum items = Raise ValueError
  else ∃ z, weighted_sum items = Ok z.
Proof.
  induction 1 as [| [k v] items Hk _ IH]; cbn [weighted_sum fmap list_fmap].
  - rewrite decide_False by apply not_elem_of_nil. by eexists.
  - cbn in Hk. unfold band_labels in Hk.
    repeat (apply elem_of_cons in Hk as [-> | Hk]);
      [.. | by apply elem_of_nil in Hk].
    1-4: (destruct (decide (low_band ∈ items.*1)) as [Hin | Hout];
          [ rewrite decide_True by (by right); vm_compute has_paren; vm_compute label_bitrate;
            cbv iota beta; by rewrite IH
          | rewrite decide_False by (intros [? | ?]%elem_of_cons; done);
            destruct IH as [z Hz]; vm_compute has_paren; vm_compute label_bitrate;
            cbv iota beta; rewrite Hz; by eexists ]).
    rewrite decide_True by left. reflexivity.
Qed.

Lemma quality_tally (analyze : path → analysis) (t : tree) (base : path) :
  tallied (omap (analysed analyze) (rglob t base))
    (fold_left (tally_step analyze) (rglob t base)
       {| files_analyzed := 0; total_duration := 0%Q; quality_distribution := ∅ |}).
Proof. apply (tally_loop_tallied analyze (rglob t base) [] _ tally_start). Qed.

Lemma tallied_low_band (seen : list audio_info) (acc : tally) :
  tallied seen acc →
  low_band ∈ (map_to_list (quality_distribution acc)).*1
  ↔ ∃ i, i ∈ seen ∧ (0 < bitrate i < 128)%Z.
Proof.
  intros (_ & _ & Hkeys). rewrite list_elem_of_fmap. split.
  - intros ([k v] & Heq & Hin%elem_of_map_to_list). cbn in Heq. subst k.
    destruct (proj1 (Hkeys _) (mk_is_Some _ _ Hin)) as (i & Hi & Hpos & Hc).
    exists i. split; [done |]. apply classify_low in Hc. lia.
  - intros (i & Hi & Hpos & Hlow).
    destruct (proj2 (Hkeys low_band)) as [v Hv].
    { exists i. split; [done |]. split; [done |]. by apply classify_low. }
    exists (low_band, v). split; [done |]. by apply elem_of_map_to_list.
Qed.

Lemma tallied_labels (seen : list audio_info) (acc : tally) :
  tallied seen acc →
  Forall (λ kv, fst kv ∈ band_labels) (map_to_list (quality_distribution acc)).
Proof.
  intros (_ & _ & Hkeys). apply Forall_forall. intros [k v] Hin%elem_of_map_to_list.
  destruct (proj1 (Hkeys _) (mk_is_Some _ _ Hin)) as (i & _ & _ & <-).
  apply classify_label.
Qed.

(** X18: [get_quality_report] fails, with ValueError, exactly when some
    file below the base path has an audio suffix, can be inspected and has
    a bitrate from 1 to 127; in every other case it returns a report. *)
Theorem quality_report_fails_exactly_on_low_bitrate
    (analyze : path → analysis) (t : tree) (base : path) :
  (get_quality_report analyze t base = Raise ValueError ↔
     ∃ p i, p ∈ rglob t base ∧ analysed analyze p = Some i
            ∧ (0 < QualityReport.bitrate i < 128)%Z)
  ∧ ((∃ r, get_quality_report analyze t base = Ok r)
     ∨ get_quality_report analyze t base = Raise ValueError).
Proof.
  pose proof (quality_tally analyze t base) as Htally.
  pose proof (tallied_low_band _ _ Htally) as Hlow.
  pose proof (weighted_sum_labels _ (tallied_labels _ _ Htally)) as Hsum.
  unfold get_quality_report.
  set (acc := fold_left (tally_step analyze) (rglob t base) _) in *.
  assert (Hex : (∃ i, i ∈ omap (analysed analyze) (rglob t base)
                      ∧ (0 < QualityReport.bitrate i < 128)%Z)
                ↔ ∃ p i, p ∈ rglob t base ∧ analysed analyze p = Some i
                         ∧ (0 < QualityReport.bitrate i < 128)%Z).
  { split.
    - intros (i & (p & Hp & Hi)%list_elem_of_omap & Hb). by exists p, i.
    - intros (p & i & Hp & Hi & Hb). exists i. split; [| done].
      apply list_elem_of_omap. by exists p. }
  destruct (decide (low_band ∈ (map_to_list (quality_distribution acc)).*1)) as [Hin | Hout].
  - rewrite Hsum. split; [| by right]. split; [| done].
    intros _. by apply Hex, Hlow.
  - destruct Hsum as [z ->]. split; [| left; by eexists]. split; [done |].
    intros Hp. by apply Hex, Hlow in Hp.
Qed.

(** X19: in a report that is returned, [files_analyzed] is the number of
    files with an audio suffix whose inspection succeeded, and the counts
    of the bands add up to the number of those with a positive bitrate:
    a file whose bitrate reads 0 is counted as analysed but is in no band,
    so the bands can add up to less than [files_analyzed], never to more. *)
Theorem quality_report_counts
    (analyze : path → analysis) (t : tree) (base : path) (r : quality_report) :
  get_quality_report analyze t base = Ok r →
  report_files_analyzed r = length (omap (analysed analyze) (rglob t base))
  ∧ sum_values (report_quality_distribution r)
    = length (filter (λ i, (0 < QualityReport.bitrate i)%Z)
                (omap (analysed analyze) (rglob t base)))
  ∧ sum_values (report_quality_distribution r) ≤ report_files_analyzed r
  ∧ report_files_analyzed r ≤ length (rglob t base).
Proof.
  intros Hr. destruct (quality_tally analyze t base) as (Hfiles & Hsum & _).
  unfold get_quality_report in Hr.
  destruct (weighted_sum _) as [z | e]; [| done]. injection Hr as <-.
  cbn [report_files_analyzed report_quality_distribution].
  split; [done |]. split; [done |]. split.
  - rewrite Hfiles, Hsum. apply length_filter.
  - rewrite Hfiles. clear. induction (rglob t base) as [| p l IH]; [done |].
    cbn. destruct (analysed analyze p); cbn; lia.
Qed.

Lemma quality_report_fails_exactly_on_low_bitrate_witness :
  get_quality_report Examples.sample_tags Examples.music ["root"] = Raise ValueError.
Proof.
  apply (proj1 (quality_report_fails_exactly_on_low_bitrate
                  Examples.sample_tags Examples.music ["root"])).
  exists ["root"; "low.mp3"], {| duration := inject_Z 100; QualityReport.bitrate := 96;
                               sample_rate := 44100; channels := 2; file_size := 1000 |}.
  split; [apply list_elem_of_lookup; exists 3; reflexivity |].
  split; [reflexivity | simpl; lia].
Defined.

Lemma quality_report_counts_witness :
  ∃ r, get_quality_report Examples.sample_tags (take 4 Examples.music) ["root"] = Ok r
       ∧ report_files_analyzed r = 1
       ∧ sum_values (report_quality_distribution r) ≤ report_files_analyzed r.
Proof.
  eexists. split; [vm_compute; reflexivity |].
  match goal with
  | |- report_files_analyzed ?r = _ ∧ _ =>
      destruct (quality_report_counts Examples.sample_tags (take 4 Examples.music)
                  ["root"] r) as (Hfiles & _ & Hle & _)
  end.
  - vm_compute. reflexivity.
  - split; [exact Hfiles | exact Hle].
Defined.

(** ** [BatchDownloader.download_from_list] *)

Lemma group_of_records (w : world) (env : Batch.surroundings) (fmt q : string)
    (out : option string) (total j : nat) (url : string) (g : list Batch.batch_result) :
  group_of w env fmt q out total j url g →
  records_for env total j url g
  ∧ (callback_returns env → ∃ record, g = [record] ∧ Batch.br_url record = url)
  ∧ (fst (extract_info w url) = Ok None ∨ (∃ e, fst (extract_info w url) = Raise e) →
     g = [lookup_failure url]).
Proof.
  intros [s ->]. unfold Batch.batch_item, get_video_info.
  destruct (extract_info w url) as [[[i |] | e0] c]; cbn [fst].
  - destruct (match info_entries i with Some _ => _ | None => _ end) as [[b | e] s2].
    + destruct (Batch.notify env (j + 1) total url (if b then "completed" else "failed"))
        as [e |] eqn:En; cbn [fst].
      * split; [| split].
        -- eexists. split; [| right; exists e; split; [reflexivity |]; split; [done |]; exact En].
           done.
        -- intros Hret. by rewrite Hret in En.
        -- intros [? | [? ?]]; done.
      * split; [| split].
        -- eexists. split; [| by left]. done.
        -- intros _. by eexists.
        -- intros [? | [? ?]]; done.
    + cbn [fst]. split; [| split].
      * exists (Batch.error_record url e). split; [done | by left].
      * intros _. by eexists.
      * intros [? | [? ?]]; done.
  - split; [| split].
    + eexists. split; [| by left]. done.
    + intros _. by eexists.
    + done.
  - split; [| split].
    + eexists. split; [| by left]. done.
    + intros _. by eexists.
    + done.
Qed.

(** The first [k] turns of the loop, while [is_running] is seen set and
    the callback returns at the head of each turn. *)
Lemma batch_loop_prefix (w : world) (env : Batch.surroundings)
    (fmt q : string) (out : option string) :
  ∀ (k : nat) (urls : list string) (i : nat) (b : Batch.batch) (s : state),
    Batch.is_running b = true →
    k ≤ length urls →
    (∀ j, j < k → Batch.stopped_at env (i + j) = false) →
    (∀ j url, j < k → urls !! j = Some url →
       Batch.notify env (i + j + 1) (Batch.total_urls b) url "starting" = None) →
    ∃ groups b' s',
      Batch.batch_loop w env fmt q out i urls b s
      = Batch.batch_loop w env fmt q out (i + k) (drop k urls) b' s'
      ∧ length groups = k
      ∧ (∀ j url, urls !! j = Some url → j < k →
           ∃ g, groups !! j = Some g
                ∧ group_of w env fmt q out (Batch.total_urls b) (i + j) url g)
      ∧ Batch.results b' = Batch.results b ++ concat groups
      ∧ Batch.is_running b' = true
      ∧ Batch.total_urls b' = Batch.total_urls b
      ∧ Batch.current_index b' = (if k is 0 then Batch.current_index b else i + k)
      ∧ match k with
        | 0 => s' = s
        | S k' =>
            ∀ url, urls !! k' = Some url →
              ∃ s_in, s' = snd (Batch.batch_item w env fmt q out (i + k' + 1)
                                  (Batch.total_urls b) url s_in)
        end.
Proof.
  induction k as [| k IH]; intros urls i b s Hrun Hk Hquiet Hstart.
  - exists [], b, s. rewrite Nat.add_0_r, drop_0, app_nil_r.
    split; [done |]. split; [done |]. split; [intros; lia |]. split; [done |].
    split; [done |]. split; done.
  - destruct urls as [| url urls]; [cbn in Hk; lia |]. cbn [Batch.batch_loop].
    assert (Hi : Batch.stopped_at env i = false)
      by (rewrite <- (Nat.add_0_r i); apply Hquiet; lia).
    rewrite Hi, Hrun. cbn [negb Batch.total_urls Batch.is_running Batch.results
                           Batch.current_index].
    assert (Hs0 : Batch.notify env (i + 1) (Batch.total_urls b) url "starting" = None).
    { specialize (Hstart 0 url). rewrite Nat.add_0_r in Hstart. apply Hstart; [lia | done]. }
    rewrite Hs0.
    destruct (Batch.batch_item w env fmt q out (i + 1) (Batch.total_urls b) url
                (deliver_cancel (Batch.cancel_before env i) s)) as [records s1] eqn:Eitem.
    destruct (IH urls (S i)
                {| Batch.is_running := true; Batch.current_index := i + 1;
                   Batch.total_urls := Batch.total_urls b;
                   Batch.results := Batch.results b ++ records |} s1)
      as (groups & b' & s' & Hloop & Hlen & Hgroups & Hres & Hrun' & Htotal & Hindex & Hlast).
    + done.
    + cbn in Hk. lia.
    + intros j Hj. replace (S i + j) with (i + S j) by lia. apply Hquiet. lia.
    + intros j u Hj Hu. cbn [Batch.total_urls].
      replace (S i + j + 1) with (i + S j + 1) by lia. apply Hstart; [lia | done].
    + exists (records :: groups), b', s'.
      replace (i + S k) with (S i + k) by lia. cbn [drop].
      split; [exact Hloop |]. split; [cbn; by rewrite Hlen |].
      split; [| split; [| split; [| split; [| split]]]].
      * intros [| j] u Hu Hj.
        -- cbn in Hu. injection Hu as <-. exists records. split; [done |].
           rewrite Nat.add_0_r. eexists. by rewrite Eitem.
        -- cbn in Hu. destruct (Hgroups j u Hu) as (g & Hg & Hgo); [lia |].
           exists g. split; [done |]. cbn [Batch.total_urls] in Hgo.
           by replace (i + S j) with (S i + j) by lia.
      * rewrite Hres. cbn [Batch.results concat]. by rewrite <- app_assoc.
      * done.
      * by rewrite Htotal.
      * rewrite Hindex. destruct k; cbn [Batch.current_index]; lia.
      * intros u Hu. destruct k as [| k']; cbn [Batch.total_urls] in Hlast.
        -- cbn in Hu. injection Hu as <-. rewrite Nat.add_0_r. subst s'.
           eexists. by rewrite Eitem.
        -- cbn in Hu. destruct (Hlast u Hu) as [s_in Hs]. exists s_in.
           by replace (i + S k' + 1) with (S i + k' + 1) by lia.
Qed.

Lemma lift_cancel {A} (m : M A) (s : state) :
  cancel_download (snd (lift m s)) = cancel_download s.
Proof. unfold lift. by destruct (m (objects s)). Qed.

(** A single item whose download no cancel request meets leaves the
    cancel flag cleared, whatever it was before. *)
Lemma batch_item_single_clears (w : world) (env : Batch.surroundings) (fmt q : string)
    (out : option string) (current total : nat) (url : string) (i : info) (s : state) :
  fst (extract_info w url) = Ok (Some i) →
  info_entries i = None →
  (∀ n, ev_cancel (ydl_download w n url) = false) →
  cancel_download (snd (Batch.batch_item w env fmt q out current total url s)) = false.
Proof.
  intros Hinfo Hsingle Hquiet. unfold Batch.batch_item, get_video_info.
  destruct (extract_info w url) as [res c]. cbn [fst] in Hinfo. subst res. rewrite Hsingle.
  set (s1 := deliver_cancel c s).
  assert (Hdl : ∃ b s2, download_single_video w url fmt q out s1 = (Ok b, s2)
                        ∧ cancel_download s2 = false).
  { unfold download_single_video, guarded, download_single_video_body.
    set (s2 := set_cancel_download false (set_is_downloading true s1)).
    pose proof (lift_cancel (_build_download_options (progress_hook s2) fmt q
                  (if str_truthy out then out else Some (base_path s2)) false) s2) as Hl.
    destruct (lift _ s2) as [[options | e] s3]; cbn [snd] in Hl.
    - unfold open_engine. destruct (ydl_new w).
      + eexists _, _. split; [reflexivity |]. done.
      + unfold engine_download. rewrite Hquiet. cbn [deliver_cancel].
        destruct (ev_raises _); (eexists _, _; split; [reflexivity |]; done).
    - eexists _, _. split; [reflexivity |]. done. }
  destruct Hdl as (b & s2 & -> & Hflag).
  by destruct (Batch.notify env current total url (if b then "completed" else "failed")).
Qed.

Lemma groups_urls (urls : list string) (groups : list (list Batch.batch_result)) :
  length groups = length urls →
  (∀ j url, urls !! j = Some url →
     ∃ record, groups !! j = Some [record] ∧ Batch.br_url record = url) →
  map Batch.br_url (concat groups) = urls.
Proof.
  revert groups. induction urls as [| url urls IH]; intros [| g groups] Hlen Hall;
    try done.
  destruct (Hall 0 url eq_refl) as (record & [= ->] & Hurl).
  cbn. rewrite Hurl. f_equal. apply IH; [by injection Hlen |].
  intros j u Hu. apply (Hall (S j) u Hu).
Qed.


(** X21: when turn [k] (from 0) is the first to see [is_running] cleared
    by [stop], [download_from_list] returns the records of the first [k]
    URLs only.  The cancel flag of the downloader is left set when the
    cancel request of [stop] arrives after the download of turn [k - 1].
    A request that arrived earlier, say while that turn looked its URL
    up, does not last when the turn downloaded a single item that no
    request met: that download cleared the flag, so the flag is left as
    the time after it sets it. *)
Theorem download_from_list_stopped
    (w : world) (env : Batch.surroundings) (urls : list string)
    (fmt q : string) (out : option string) (s : state) (k : nat) :
  k < length urls →
  (∀ j, j < k → Batch.stopped_at env j = false) →
  Batch.stopped_at env k = true →
  (∀ j, j < k → starts env (length urls) urls j) →
  let r := Batch.download_from_list w env urls fmt q out s in
  ∃ groups,
    fst r = Ok (concat groups)
    ∧ length groups = k
    ∧ (∀ j url, urls !! j = Some url → j < k →
         ∃ g, groups !! j = Some g ∧ records_for env (length urls) j url g)
    ∧ (callback_returns env → map Batch.br_url (concat groups) = take k urls)
    ∧ Batch.is_running (fst (snd r)) = false
    ∧ (Batch.cancel_before env k = true → cancel_download (snd (snd r)) = true)
    ∧ (∀ k' url i,
         k = S k' → urls !! k' = Some url →
         fst (extract_info w url) = Ok (Some i) → info_entries i = None →
         (∀ n, ev_cancel (ydl_download w n url) = false) →
         cancel_download (snd (snd r)) = Batch.cancel_before env k).
Proof.
  intros Hk Hquiet Hstop Hstart r. unfold r, Batch.download_from_list.
  set (b0 := {| Batch.is_running := true; Batch.current_index := 0;
                Batch.total_urls := length urls; Batch.results := [] |}).
  destruct (batch_loop_prefix w env fmt q out k urls 0 b0 s)
    as (groups & b' & s' & Hloop & Hlen & Hgroups & Hres & Hrun & Htotal & _ & Hlast).
  - done.
  - lia.
  - intros j Hj. by apply Hquiet.
  - intros j url Hj Hu. cbn [Batch.total_urls b0 Nat.add]. by apply Hstart.
  - rewrite Hloop. destruct (lookup_lt_is_Some_2 urls k Hk) as [url Hu].
    rewrite (drop_S _ _ _ Hu). cbn [Batch.batch_loop Nat.add]. rewrite Hstop.
    cbn [Batch.set_is_running Batch.is_running negb fst snd Batch.results].
    rewrite Hres. cbn [b0 Batch.results app Batch.total_urls] in *.
    exists groups. split; [done |]. split; [done |]. split; [| split; [| split; [done |]]].
    + intros j u Hju Hj. destruct (Hgroups j u Hju Hj) as (g & Hg & Hgo).
      apply group_of_records in Hgo as (Hrec & _). by exists g.
    + intros Hret. apply groups_urls; [rewrite length_take; lia |].
      intros j u Hju. apply lookup_take_Some in Hju as [Hju Hj].
      destruct (Hgroups j u Hju Hj) as (g & Hg & Hgo).
      apply group_of_records in Hgo as (_ & Hone & _).
      destruct (Hone Hret) as (record & -> & Hurl). by exists record.
    + split.
      * intros ->. done.
      * intros k' u i -> Hk' Hinfo Hsingle Hcalm.
        destruct (Hlast u Hk') as [s_in ->].
        pose proof (batch_item_single_clears w env fmt q out (0 + k' + 1) (length urls)
                      u i s_in Hinfo Hsingle Hcalm) as Hflag.
        destruct (Batch.cancel_before env (S k')); cbn [deliver_cancel]; [done |].
        exact Hflag.
Qed.


Lemma download_from_list_stopped_witness :
  let r := Batch.download_from_list BatchSamples.mixed (BatchSamples.stop_between 2)
             BatchSamples.urls "mp3" "192" None Examples.downloader in
  ∃ groups,
    fst r = Ok (concat groups)
    ∧ length groups = 2
    ∧ map Batch.br_url (concat groups) = take 2 BatchSamples.urls
    ∧ Batch.is_running (fst (snd r)) = false
    ∧ cancel_download (snd (snd r)) = true.
Proof.
  intros r.
  destruct (download_from_list_stopped BatchSamples.mixed (BatchSamples.stop_between 2)
              BatchSamples.urls "mp3" "192" None Examples.downloader 2)
    as (groups & Hr & Hlen & _ & Hurls & Hrun & Hflag & _).
  - simpl. lia.
  - intros j Hj. destruct j as [| [| j]]; [reflexivity | reflexivity | lia].
  - reflexivity.
  - intros j Hj url Hu. reflexivity.
  - exists groups. split; [exact Hr |]. split; [exact Hlen |].
    split; [apply Hurls; by intros ? ? ? ? |]. split; [exact Hrun |].
    apply Hflag. reflexivity.
Defined.

(** [stop] while the first URL, a single item, is looked up: the download
    of that turn clears the cancel flag, the turn is completed, the loop
    ends at the head of the next turn and the flag is left cleared.  The
    same [stop] between the two turns leaves it set. *)
Example stop_during_lookup_is_forgotten :
  let run env :=
    Batch.download_from_list BatchSamples.mixed env
      BatchSamples.urls "mp3" "192" None Examples.downloader in
  (map Batch.br_url (Batch.results (fst (snd (run (BatchSamples.stop_during_lookup 1)))))
   = ["https://youtu.be/a1"]
   ∧ cancel_download (snd (snd (run (BatchSamples.stop_during_lookup 1)))) = false
   ∧ engine_calls (snd (snd (run (BatchSamples.stop_during_lookup 1))))
     = ["https://youtu.be/a1"])
  ∧ (map Batch.br_url (Batch.results (fst (snd (run (BatchSamples.stop_between 1)))))
     = ["https://youtu.be/a1"]
     ∧ cancel_download (snd (snd (run (BatchSamples.stop_between 1)))) = true).
Proof. vm_compute. repeat split. Qed.

(** ** [ProgressHook.__call__] *)

Lemma length_filter_cons_bool {A} (f : A → bool) (x : A) (l : list A) :
  length (filter (λ y, Is_true (f y)) (x :: l))
  = (if f x then 1 else 0) + length (filter (λ y, Is_true (f y)) l).
Proof.
  rewrite filter_cons. destruct (f x) eqn:E.
  - rewrite decide_True by done. done.
  - rewrite decide_False by (intros []). done.
Qed.

Lemma progress_call_step (hook : ProgressHook) (d : Progress.engine_progress) :
  is_Some (Progress.ev_status d) →
  ∃ hook1 sent1,
    Progress.call hook d = Ok (hook1, sent1)
    ∧ completed_files hook1
      = completed_files hook + (if Progress.has_status "finished" d then 1 else 0)
    ∧ total_files hook1 = total_files hook
    ∧ has_callback hook1 = has_callback hook
    ∧ length sent1
      = (if has_callback hook
         then (if Progress.has_status "downloading" d || Progress.has_status "finished" d
               then 1 else 0)
         else 0)
    ∧ Forall (λ pd, completed_files hook ≤ Progress.pd_completed_files pd
                    ∧ Progress.pd_completed_files pd ≤ completed_files hook1
                    ∧ Progress.pd_total_files pd = total_files hook) sent1.
Proof.
  intros [status Hd]. unfold Progress.call, Progress.has_status. rewrite Hd.
  destruct (String.eqb status "downloading") eqn:E1.
  - apply String.eqb_eq in E1. subst status.
    change (String.eqb "downloading" "finished") with false. cbn [orb].
    eexists _, _. split; [reflexivity |]. split; [lia |]. split; [done |]. split; [done |].
    destruct (has_callback hook); (split; [done |]); [| constructor].
    constructor; [cbn; lia | constructor].
  - cbn [orb]. destruct (String.eqb status "finished") eqn:E2.
    + eexists _, _. split; [reflexivity |]. cbn [completed_files total_files has_callback].
      split; [lia |]. split; [done |]. split; [done |].
      destruct (has_callback hook); (split; [done |]); [| constructor].
      constructor; [cbn; lia | constructor].
    + eexists _, _. split; [reflexivity |]. split; [lia |]. split; [done |]. split; [done |].
      split; [by destruct (has_callback hook) | constructor].
Qed.

(** X22: over any run of progress events that all carry a status, the hook
    adds one to [completed_files] for every [finished] event, with or
    without a callback, leaves [total_files] alone, and calls the callback
    (when there is one) once per [downloading] or [finished] event; the
    [completed_files] it reports never decrease below the starting count
    and never exceed the final one.  Nothing ties the count to
    [total_files]. *)
Theorem progress_hook_counts_finished_events
    (hook : ProgressHook) (events : list Progress.engine_progress) :
  Forall (λ d, is_Some (Progress.ev_status d)) events →
  ∃ hook' sent,
    Progress.calls hook events = Ok (hook', sent)
    ∧ completed_files hook'
      = completed_files hook
        + length (filter (λ d, Is_true (Progress.has_status "finished" d)) events)
    ∧ total_files hook' = total_files hook
    ∧ has_callback hook' = has_callback hook
    ∧ length sent
      = (if has_callback hook
         then length (filter (λ d, Is_true (Progress.has_status "downloading" d
                                            || Progress.has_status "finished" d)) events)
         else 0)
    ∧ Forall (λ pd, completed_files hook ≤ Progress.pd_completed_files pd
                    ∧ Progress.pd_completed_files pd ≤ completed_files hook'
                    ∧ Progress.pd_total_files pd = total_files hook) sent.
Proof.
  intros Hall. revert hook. induction Hall as [| d events Hd _ IH]; intros hook.
  - exists hook, []. cbn. repeat split; try lia; try done. by destruct (has_callback hook).
  - cbn [Progress.calls].
    destruct (progress_call_step hook d Hd)
      as (hook1 & sent1 & -> & Hc1 & Ht1 & Hb1 & Hlen1 & Hsent1).
    destruct (IH hook1) as (hook2 & sent2 & -> & Hc2 & Ht2 & Hb2 & Hlen2 & Hsent2).
    exists hook2, (sent1 ++ sent2). split; [done |].
    rewrite !length_filter_cons_bool.
    split; [lia |]. split; [congruence |]. split; [congruence |]. split.
    + rewrite length_app, Hlen1, Hlen2, Hb1. by destruct (has_callback hook).
    + apply Forall_app. split.
      * eapply Forall_impl; [exact Hsent1 |]. cbn. intros pd (? & ? & ?). lia.
      * eapply Forall_impl; [exact Hsent2 |]. cbn. intros pd (? & ? & ?).
        split; [lia |]. split; [lia | congruence].
Qed.

Lemma progress_hook_counts_finished_events_witness :
  let finished := {| Progress.ev_status := Some "finished";
                     Progress.ev_filename := Some "a.mp3";
                     Progress.ev_percent_str := None; Progress.ev_speed_str := None;
                     Progress.ev_eta_str := None |} in
  let hook := {| has_callback := true; total_files := 0; completed_files := 0 |} in
  ∃ hook' sent,
    Progress.calls hook [finished; finished] = Ok (hook', sent)
    ∧ completed_files hook' = 2
    ∧ total_files hook' = 0
    ∧ length sent = 2.
Proof.
  intros finished hook.
  destruct (progress_hook_counts_finished_events hook [finished; finished])
    as (hook' & sent & E & Hc & Ht & _ & Hlen & _).
  - repeat constructor; by eexists.
  - exists hook', sent. split; [exact E |]. split; [exact Hc |]. split; [exact Ht |].
    exact Hlen.
Defined.

(** ** [get_folder_size] *)

Lemma folder_size_loop_before (st_size : path → option nat) (t : tree)
    (before after : list path) (total : nat) :
  (∀ q, q ∈ before → is_file t q = true → is_Some (st_size q)) →
  folder_size_loop st_size t (before ++ after) total
  = folder_size_loop st_size t after (total + sizes st_size t before).
Proof.
  revert total. induction before as [| q before IH]; intros total Hall.
  - unfold sizes. cbn. by rewrite Nat.add_0_r.
  - cbn [app folder_size_loop]. unfold sizes. cbn [map sum_list]. fold (sizes st_size t before).
    destruct (is_file t q) eqn:Hq.
    + destruct (Hall q) as [n Hn]; [left | done |]. rewrite Hn. cbn [default].
      rewrite IH by (intros; apply Hall; [by right | done]). f_equal. unfold id. lia.
    + rewrite IH by (intros; apply Hall; [by right | done]). f_equal.
Qed.

(** X23: [get_folder_size] adds up the sizes of the regular files below
    the folder in the order of the scan and gives up at the first one it
    cannot inspect: the result is the sum over the entries before that
    file, whatever follows it, and the sum over all of them when there is
    no such file. *)
Theorem get_folder_size_keeps_partial_sum
    (st_size : path → option nat) (t : tree) (base : path) (before after : list path) :
  rglob t base = before ++ after →
  (∀ q, q ∈ before → is_file t q = true → is_Some (st_size q)) →
  (after = [] ∨ ∃ p rest, after = p :: rest ∧ is_file t p = true ∧ st_size p = None) →
  get_folder_size st_size t base = sizes st_size t before.
Proof.
  intros Hsplit Hall Hafter. unfold get_folder_size.
  rewrite Hsplit, folder_size_loop_before by done.
  destruct Hafter as [-> | (p & rest & -> & Hp & Hnone)]; cbn [folder_size_loop].
  - done.
  - by rewrite Hp, Hnone.
Qed.

Lemma get_folder_size_keeps_partial_sum_witness :
  get_folder_size
    (λ p, if bool_decide (p = ["root"; "a"; "song.mp3"]) then None else Some 7)
    Leftovers.downloads ["root"]
  = 7.
Proof.
  refine (get_folder_size_keeps_partial_sum _ Leftovers.downloads ["root"]
            [["root"; "a"]; ["root"; "a"; "x.mp4.part"]]
            [["root"; "a"; "song.mp3"]; ["root"; "cache.tmp"]; ["root"; "y.ytdl"]] _ _ _).
  - reflexivity.
  - intros q Hq _. apply elem_of_cons in Hq as [-> | Hq]; [by eexists |].
    apply elem_of_cons in Hq as [-> | Hq]; [by eexists |]. by apply elem_of_nil in Hq.
  - right. eexists _, _. split; [reflexivity |]. split; reflexivity.
Defined.

(** ** [run_full_maintenance] *)

Lemma filter_paths_NoDup (t : tree) (P : path * kind → Prop) `{∀ e, Decision (P e)} :
  NoDup t.*1 → NoDup (filter P t).*1.
Proof.
  intros Hnd. eapply sublist_NoDup; [exact Hnd |].
  apply fmap_sublist, sublist_filter.
Qed.

Lemma clean_empty_folders_sub (os_error : path → bool) (base : path) (t : tree)
    (e : path * kind) :
  e ∈ sw_tree (clean_empty_folders os_error base t) → e ∈ t.
Proof.
  destruct (clean_empty_folders_inv os_error base t) as (-> & _).
  by intros [_ ?]%list_elem_of_filter.
Qed.

Lemma clean_empty_folders_keeps_files (os_error : path → bool) (base : path) (t : tree)
    (e : path * kind) :
  NoDup t.*1 → e ∈ t → snd e ≠ KDir → e ∈ sw_tree (clean_empty_folders os_error base t).
Proof.
  intros Hnd He Hk.
  destruct (clean_empty_folders_inv os_error base t) as (-> & _ & _ & Hdirs).
  apply list_elem_of_filter. split; [| done]. intros Hin.
  destruct (Hdirs _ Hin) as [Hdir _]. apply has_kind_true in Hdir.
  destruct e as [q k]. cbn in *. apply Hk. by eapply one_entry_per_path.
Qed.

Lemma clean_empty_folders_no_empty (os_error : path → bool) (base : path) (t : tree)
    (f : path) :
  (∀ p, os_error p = false) →
  is_under base f = true →
  is_dir (sw_tree (clean_empty_folders os_error base t)) f = true →
  any_iterdir (sw_tree (clean_empty_folders os_error base t)) f = true.
Proof.
  intros Hok Hunder Hdir.
  pose proof (clean_loop_settled os_error base Hok
                (sorted_deepest_first (rglob t base)) []
                {| sw_tree := t; deleted_count := 0; removed := [] |}) as Hsettled.
  cbn [app] in Hsettled. apply Hsettled; try done.
  - apply sorted_deepest_first_sorted.
  - by intros ? ?%elem_of_nil.
  - rewrite sorted_deepest_first_perm.
    apply has_kind_true, clean_empty_folders_sub in Hdir.
    unfold rglob. apply list_elem_of_In, in_map_iff. exists (f, KDir).
    split; [done |]. apply list_elem_of_In, list_elem_of_filter. split; [| done].
    by apply Is_true_true.
  - by apply is_under_strict.
Qed.

Lemma clean_loop_removed (os_error : path → bool) (base : path)
    (folders : list path) (s : sweep) (p : path) :
  p ∈ removed (fold_left (clean_step os_error base) folders s) →
  p ∈ removed s ∨ p ∈ folders.
Proof.
  revert s. induction folders as [| g folders IH]; intros s Hp; cbn [fold_left] in Hp.
  - by left.
  - apply IH in Hp as [Hp | Hp]; [| right; by right].
    unfold clean_step in Hp.
    destruct (is_dir (sw_tree s) g && negb (path_eqb g base)); [| by left].
    destruct (os_error g); [by left |].
    destruct (negb (any_iterdir (sw_tree s) g)); [| by left].
    cbn [removed] in Hp. apply elem_of_app in Hp as [Hp | Hp]; [by left |].
    apply list_elem_of_singleton in Hp as ->. right. by left.
Qed.

Lemma clean_empty_folders_removed_under (os_error : path → bool) (base : path) (t : tree)
    (p : path) :
  p ∈ removed (clean_empty_folders os_error base t) → is_under base p = true.
Proof.
  intros Hp. apply clean_loop_removed in Hp as [Hp | Hp]; [by apply elem_of_nil in Hp |].
  rewrite sorted_deepest_first_perm in Hp. unfold rglob in Hp.
  apply list_elem_of_fmap in Hp as (e & -> & [He _]%list_elem_of_filter).
  by apply Is_true_true.
Qed.

Lemma rglob_without (t : tree) (base : path) (gone : list path) :
  NoDup t.*1 → NoDup gone →
  (∀ p, p ∈ gone → (∃ e, e ∈ t ∧ fst e = p) ∧ is_under base p = true) →
  length (rglob t base)
  = length (rglob (filter (λ e, fst e ∉ gone) t) base) + length gone.
Proof.
  intros Hnd Hgone Hall.
  rewrite <- (gone_entries_length t gone Hnd Hgone) by (intros p Hp; by apply Hall).
  unfold rglob. rewrite !length_map.
  assert (Hunder : ∀ p, p ∈ gone → is_under base p = true) by (intros p Hp; by apply Hall).
  clear Hnd Hgone Hall.
  induction t as [| e t IH]; [done |].
  destruct (decide (fst e ∈ gone)) as [Hin | Hout].
  - rewrite (filter_cons_True (λ e, fst e ∈ gone)) by done.
    rewrite (filter_cons_False (λ e, fst e ∉ gone)) by (intros ?; done).
    rewrite filter_cons_True by (apply Is_true_true; by apply Hunder).
    cbn [length]. rewrite IH. lia.
  - rewrite (filter_cons_False (λ e, fst e ∈ gone)) by done.
    rewrite (filter_cons_True (λ e, fst e ∉ gone)) by done.
    destruct (is_under base (fst e)) eqn:Hu.
    + rewrite !filter_cons_True by by rewrite Hu. cbn [length]. rewrite IH. lia.
    + rewrite !filter_cons_False by (rewrite Hu; intros []). done.
Qed.

Lemma quality_report_low_raises (analyze : path → analysis) (t : tree) (base : path)
    (p : path) (i : QualityReport.audio_info) :
  p ∈ rglob t base → analysed analyze p = Some i →
  (0 < QualityReport.bitrate i < 128)%Z →
  get_quality_report analyze t base = Raise ValueError.
Proof.
  intros Hp Hi Hb.
  pose proof (quality_tally analyze t base) as Htally.
  pose proof (tallied_low_band _ _ Htally) as Hlow.
  pose proof (weighted_sum_labels _ (tallied_labels _ _ Htally)) as Hsum.
  unfold get_quality_report.
  set (acc := fold_left (tally_step analyze) (rglob t base) _) in *.
  destruct (decide (low_band ∈ (map_to_list (quality_distribution acc)).*1)) as [Hin | Hout].
  - by rewrite Hsum.
  - exfalso. apply Hout, Hlow. exists i. split; [| done].
    apply list_elem_of_omap. by exists p.
Qed.

(** X24: when neither sweep meets an error, in a tree that lists every
    path once, [run_full_maintenance] leaves below the base path no
    temporary file and no empty folder, and keeps every other entry that
    is not a directory.  The storage figures it returns are taken after
    the sweeps: [file_count] and the two deletion counts add up to the
    number of entries that were below the base path at the start. *)
Theorem run_full_maintenance_leaves_clean_tree
    (progress_callback : bool) (unlink_error rmdir_error : path → bool)
    (analyze : path → QualityReport.analysis) (st_size : path → option nat)
    (base : path) (t : tree) :
  (∀ p, unlink_error p = false) →
  (∀ p, rmdir_error p = false) →
  NoDup t.*1 →
  let o := run_full_maintenance progress_callback unlink_error rmdir_error
             analyze st_size base t in
  (∀ e, e ∈ out_tree o → e ∈ t ∧ purgeable base e = false)
  ∧ (∀ f, is_under base f = true → is_dir (out_tree o) f = true →
          any_iterdir (out_tree o) f = true)
  ∧ (∀ e, e ∈ t → snd e ≠ KDir → purgeable base e = false → e ∈ out_tree o)
  ∧ (∀ res, out_result o = Ok res →
            file_count (storage_info_of res) + temp_files_deleted res
              + empty_folders_deleted res
            = length (rglob t base)).
Proof.
  intros Hunlink Hrmdir Hnd o.
  set (temp := clean_temp_files unlink_error base t).
  set (folders := clean_empty_folders rmdir_error base (pg_tree temp)).
  assert (Htree : out_tree o = sw_tree folders).
  { unfold o, run_full_maintenance. fold temp. fold folders.
    by destruct (get_quality_report analyze (sw_tree folders) base). }
  assert (Hnd1 : NoDup (pg_tree temp).*1).
  { destruct (clean_temp_files_purging unlink_error base t) as (gone & Ht & _).
    fold temp in Ht. rewrite Ht. by apply filter_paths_NoDup. }
  rewrite Htree. split; [| split; [| split]].
  - intros e He%clean_empty_folders_sub. split.
    + by eapply clean_temp_files_sub.
    + by apply (clean_temp_files_none_left unlink_error base t e Hunlink Hnd).
  - intros f Hu Hd. by apply clean_empty_folders_no_empty.
  - intros e He Hk Hp. apply clean_empty_folders_keeps_files; [done | | done].
    by apply clean_temp_files_keeps.
  - intros res Hres. unfold o, run_full_maintenance in Hres. fold temp in Hres.
    fold folders in Hres.
    destruct (get_quality_report analyze (sw_tree folders) base) as [report | ex];
      cbn [out_result] in Hres; [| done].
    injection Hres as <-.
    cbn [storage_info_of temp_files_deleted empty_folders_deleted get_storage_info file_count].
    destruct (clean_temp_files_purging unlink_error base t)
      as (gone & Ht & Hgnd & Hcount & Hgone).
    fold temp in Ht, Hcount.
    destruct (clean_empty_folders_inv rmdir_error base (pg_tree temp))
      as (Hs & Hdel & Hrnd & Hdirs).
    fold folders in Hs, Hdel, Hrnd, Hdirs.
    rewrite (rglob_without t base gone Hnd Hgnd), <- Ht.
    + rewrite (rglob_without (pg_tree temp) base (removed folders) Hnd1 Hrnd), <- Hs; [lia |].
      intros p Hp. split.
      * destruct (Hdirs p Hp) as [Hdir _]. apply has_kind_true in Hdir. by exists (p, KDir).
      * by eapply clean_empty_folders_removed_under.
    + intros p Hp. destruct (Hgone p Hp) as [(e & He & <-) Hall]. split; [by exists e |].
      specialize (Hall e He eq_refl). unfold purgeable in Hall.
      by apply andb_true_iff in Hall as [[? _]%andb_true_iff _].
Qed.

Lemma run_full_maintenance_leaves_clean_tree_witness :
  let o := run_full_maintenance true (λ _, false) (λ _, false)
             (λ _, QualityReport.AnalysisError "unsupported") (λ _, Some 1)
             ["root"] Leftovers.downloads in
  (∀ e, e ∈ out_tree o → e ∈ Leftovers.downloads ∧ purgeable ["root"] e = false)
  ∧ (∀ f, is_under ["root"] f = true → is_dir (out_tree o) f = true →
          any_iterdir (out_tree o) f = true)
  ∧ (∀ e, e ∈ Leftovers.downloads → snd e ≠ KDir → purgeable ["root"] e = false →
          e ∈ out_tree o)
  ∧ (∀ res, out_result o = Ok res →
            file_count (storage_info_of res) + temp_files_deleted res
              + empty_folders_deleted res
            = length (rglob Leftovers.downloads ["root"])).
Proof.
  apply (run_full_maintenance_leaves_clean_tree true (λ _, false) (λ _, false)
           (λ _, QualityReport.AnalysisError "unsupported") (λ _, Some 1)
           ["root"] Leftovers.downloads).
  - reflexivity.
  - reflexivity.
  - apply (bool_decide_unpack _). vm_compute. exact I.
Defined.

(** X25: a file below the base path that is not temporary, has an audio
    suffix, can be inspected and has a bitrate from 1 to 127 makes
    [run_full_maintenance] raise ValueError, in a tree that lists every
    path once.  By then both sweeps have run: the tree is the swept one,
    the callback has had three of the five texts, and the counts of what
    was deleted are not returned. *)
Theorem run_full_maintenance_fails_after_sweeping
    (progress_callback : bool) (unlink_error rmdir_error : path → bool)
    (analyze : path → QualityReport.analysis) (st_size : path → option nat)
    (base : path) (t : tree) (e : path * kind) (i : QualityReport.audio_info) :
  NoDup t.*1 →
  e ∈ t → snd e ≠ KDir → is_under base (fst e) = true → purgeable base e = false →
  analysed analyze (fst e) = Some i →
  (0 < QualityReport.bitrate i < 128)%Z →
  let o := run_full_maintenance progress_callback unlink_error rmdir_error
             analyze st_size base t in
  out_result o = Raise ValueError
  ∧ out_tree o
    = sw_tree (clean_empty_folders rmdir_error base
                 (pg_tree (clean_temp_files unlink_error base t)))
  ∧ length (out_messages o) = (if progress_callback then 3 else 0).
Proof.
  intros Hnd He Hk Hu Hp Hi Hb o.
  set (temp := clean_temp_files unlink_error base t).
  set (folders := clean_empty_folders rmdir_error base (pg_tree temp)).
  assert (Hnd1 : NoDup (pg_tree temp).*1).
  { destruct (clean_temp_files_purging unlink_error base t) as (gone & Ht & _).
    fold temp in Ht. rewrite Ht. by apply filter_paths_NoDup. }
  assert (Hin : e ∈ sw_tree folders).
  { apply clean_empty_folders_keeps_files; [done | | done].
    by apply clean_temp_files_keeps. }
  assert (Hraise : get_quality_report analyze (sw_tree folders) base = Raise ValueError).
  { apply (quality_report_low_raises analyze _ base (fst e) i); [| done | done].
    unfold rglob. apply list_elem_of_fmap. exists e. split; [done |].
    apply list_elem_of_filter. split; [by apply Is_true_true | done]. }
  unfold o, run_full_maintenance. fold temp. fold folders. rewrite Hraise.
  cbn [out_result out_tree out_messages]. split; [done |]. split; [done |].
  by destruct progress_callback.
Qed.

Lemma run_full_maintenance_fails_after_sweeping_witness :
  let analyze := λ _ : path,
    QualityReport.Analysis
      {| QualityReport.duration := 1%Q; QualityReport.bitrate := 96%Z;
         QualityReport.sample_rate := 44100%Z; QualityReport.channels := 2%Z;
         QualityReport.file_size := 1%Z |} in
  let o := run_full_maintenance true (λ _, false) (λ _, false) analyze (λ _, Some 1)
             ["root"] Leftovers.downloads in
  out_result o = Raise ValueError
  ∧ out_tree o
    = sw_tree (clean_empty_folders (λ _, false) ["root"]
                 (pg_tree (clean_temp_files (λ _, false) ["root"] Leftovers.downloads)))
  ∧ length (out_messages o) = 3.
Proof.
  intros analyze.
  apply (run_full_maintenance_fails_after_sweeping true (λ _, false) (λ _, false)
           analyze (λ _, Some 1) ["root"] Leftovers.downloads
           (["root"; "a"; "song.mp3"], KFile)
           {| QualityReport.duration := 1%Q; QualityReport.bitrate := 96%Z;
              QualityReport.sample_rate := 44100%Z; QualityReport.channels := 2%Z;
              QualityReport.file_size := 1%Z |}).
  - apply (bool_decide_unpack _). vm_compute. exact I.
  - do 3 right. left.
  - discriminate.
  - reflexivity.
  - reflexivity.
  - vm_compute. reflexivity.
  - cbn. lia.
Defined.

(** ** [sanitize_filename] *)

Lemma lstrip_suffix (isspace : N → bool) (s : str) :
  ∃ pre, s = pre ++ lstrip isspace s.
Proof.
  induction s as [| c s [pre IH]]; cbn [lstrip].
  - by exists [].
  - destruct (isspace c).
    + exists (c :: pre). cbn. by rewrite <- IH.
    + by exists [].
Qed.

Lemma lstrip_head (isspace : N → bool) (s : str) (c : N) :
  head (lstrip isspace s) = Some c → isspace c = false.
Proof.
  induction s as [| x s IH]; cbn [lstrip]; [done |].
  destruct (isspace x) eqn:E; [done |]. cbn. intros [= <-]. done.
Qed.

Lemma lstrip_fixed (isspace : N → bool) (s : str) :
  (∀ c, head s = Some c → isspace c = false) → lstrip isspace s = s.
Proof.
  destruct s as [| c s]; cbn [lstrip]; [done |].
  intros H. by rewrite (H c eq_refl).
Qed.

Lemma strip_fixed (isspace : N → bool) (s : str) :
  let r := strip isspace s in
  lstrip isspace r = r ∧ rstrip isspace r = r.
Proof.
  intros r. unfold r, strip. set (y := rstrip isspace s). split.
  - apply lstrip_fixed. apply lstrip_head.
  - unfold rstrip at 1. rewrite lstrip_fixed; [by rewrite reverse_involutive |].
    intros c Hc. destruct (lstrip_suffix isspace y) as [pre Hy].
    assert (Hrev : lstrip isspace (reverse s)
                   = reverse (lstrip isspace y) ++ reverse pre).
    { rewrite <- reverse_app, <- Hy. unfold y, rstrip. by rewrite reverse_involutive. }
    apply (lstrip_head isspace (reverse s)). rewrite Hrev.
    destruct (reverse (lstrip isspace y)); [done |]. done.
Qed.

Lemma strip_infix (isspace : N → bool) (s : str) :
  ∃ pre post, s = pre ++ strip isspace s ++ post.
Proof.
  destruct (lstrip_suffix isspace (reverse s)) as [post Hpost].
  destruct (lstrip_suffix isspace (rstrip isspace s)) as [pre Hpre].
  exists pre, (reverse post). unfold strip. rewrite (assoc_L (++)), <- Hpre.
  unfold rstrip. rewrite <- reverse_app, <- Hpost. by rewrite reverse_involutive.
Qed.

Lemma replace_absent (old new : N) (s : str) :
  old ∉ s → replace old new s = s.
Proof.
  unfold replace. induction s as [| c s IH]; [done |]. intros Hout. cbn [map].
  apply not_elem_of_cons in Hout as [Hc Hs].
  rewrite IH by done. destruct (N.eqb_spec c old); [by subst | done].
Qed.

Lemma replace_all_absent (chars : list N) (s : str) :
  Forall (λ c, c ∉ chars) s →
  fold_left (λ name char, replace char underscore name) chars s = s.
Proof.
  induction chars as [| x chars IH]; intros Hs; cbn [fold_left]; [done |].
  rewrite replace_absent.
  - apply IH. eapply Forall_impl; [exact Hs |]. cbn. intros c Hc ?. apply Hc. by right.
  - intros Hx. rewrite Forall_forall in Hs. apply (Hs x Hx). by left.
Qed.

Lemma replace_all_clean (chars done : list N) (s : str) :
  underscore ∉ done ++ chars →
  Forall (λ c, c ∉ done) s →
  Forall (λ c, c ∉ done ++ chars)
    (fold_left (λ name char, replace char underscore name) chars s).
Proof.
  revert done s. induction chars as [| x chars IH]; intros done s Hu Hs; cbn [fold_left].
  - by rewrite app_nil_r.
  - rewrite (assoc_L (++) done [x] chars : done ++ x :: chars = _). apply IH.
    + by rewrite <- (assoc_L (++)).
    + unfold replace. apply Forall_fmap. eapply Forall_impl; [exact Hs |]. cbn.
      intros c Hc. rewrite not_elem_of_app, list_elem_of_singleton.
      destruct (N.eqb_spec c x) as [-> | Hne]; [| done].
      split.
      * intros ?. apply Hu, elem_of_app. by left.
      * intros Heq. apply Hu, elem_of_app. right. rewrite Heq. by left.
Qed.

Lemma replace_all_from (chars : list N) (s : str) :
  let r := fold_left (λ name char, replace char underscore name) chars s in
  length r = length s ∧ Forall (λ c, c = underscore ∨ c ∈ s) r.
Proof.
  revert s. induction chars as [| x chars IH]; intros s; cbn [fold_left].
  - split; [done |]. apply Forall_forall. by right.
  - destruct (IH (replace x underscore s)) as [Hlen Hall]. split.
    + rewrite Hlen. unfold replace. by rewrite length_map.
    + eapply Forall_impl; [exact Hall |]. cbn. intros c [-> | Hc]; [by left |].
      unfold replace in Hc. apply list_elem_of_fmap in Hc as (y & -> & Hy).
      destruct (N.eqb y x); [by left | by right].
Qed.

Lemma underscore_valid : underscore ∉ [] ++ invalid_chars.
Proof. apply (bool_decide_unpack _). vm_compute. exact I. Qed.

Lemma sanitize_filename_parts (isspace : N → bool) (filename : str) :
  ∃ cut pre post,
    cut = pre ++ sanitize_filename isspace filename ++ post
    ∧ length cut ≤ 200
    ∧ length cut ≤ length filename
    ∧ Forall (λ c, c ∉ invalid_chars) cut
    ∧ Forall (λ c, c = underscore ∨ c ∈ filename) cut.
Proof.
  unfold sanitize_filename.
  set (named := fold_left _ invalid_chars filename).
  set (cut := if (200 <? length named)%nat then take 200 named else named).
  destruct (strip_infix isspace cut) as (pre & post & Hcut).
  destruct (replace_all_from invalid_chars filename) as [Hlen Hfrom]. fold named in Hlen, Hfrom.
  pose proof (replace_all_clean invalid_chars [] filename underscore_valid) as Hclean.
  cbn [app] in Hclean. fold named in Hclean.
  assert (Hvalid : Forall (λ c, c ∉ invalid_chars) named).
  { apply Hclean, Forall_forall. intros ? _. apply not_elem_of_nil. }
  exists cut, pre, post. split; [done |]. unfold cut.
  destruct (200 <? length named)%nat eqn:E.
  - apply Nat.ltb_lt in E. rewrite length_take.
    split; [lia |]. split; [lia |]. split; by apply Forall_take.
  - apply Nat.ltb_ge in E. split; [lia |]. split; [lia |]. done.
Qed.

(** X26: the name [sanitize_filename] returns holds none of the nine
    characters it replaces, has at most 200 characters and no more than
    the name it was given, neither starts nor ends with a blank, and each
    of its characters is an underscore or a character of the given name. *)
Theorem sanitize_filename_clean (isspace : N → bool) (filename : str) :
  let r := sanitize_filename isspace filename in
  Forall (λ c, c ∉ invalid_chars) r
  ∧ length r ≤ 200
  ∧ length r ≤ length filename
  ∧ Forall (λ c, c = underscore ∨ c ∈ filename) r
  ∧ (∀ c, head r = Some c ∨ last r = Some c → isspace c = false).
Proof.
  intros r.
  destruct (sanitize_filename_parts isspace filename)
    as (cut & pre & post & Hcut & H200 & Hlen & Hvalid & Hfrom).
  fold r in Hcut. rewrite Hcut in H200, Hlen, Hvalid, Hfrom.
  rewrite !length_app in H200, Hlen.
  apply Forall_app in Hvalid as [_ [Hvalid _]%Forall_app].
  apply Forall_app in Hfrom as [_ [Hfrom _]%Forall_app].
  split; [done |]. split; [lia |]. split; [lia |]. split; [done |].
  destruct (strip_fixed isspace
              (if (200 <? length (fold_left (λ name char, replace char underscore name)
                                    invalid_chars filename))%nat
               then take 200 (fold_left (λ name char, replace char underscore name)
                                invalid_chars filename)
               else fold_left (λ name char, replace char underscore name)
                      invalid_chars filename)) as [Hl Hr].
  change (strip isspace _) with r in Hl, Hr.
  intros c [Hc | Hc].
  - apply (lstrip_head isspace r). by rewrite Hl.
  - apply (lstrip_head isspace (reverse r)).
    unfold rstrip in Hr. apply (f_equal reverse) in Hr. rewrite reverse_involutive in Hr.
    by rewrite Hr, head_reverse.
Qed.

Example sanitize_filename_example :
  sanitize_filename ascii_space (codes "  AC/DC: live?  ") = codes "AC_DC_ live_".
Proof. reflexivity. Qed.

(** X27: [sanitize_filename] changes nothing in a name it has returned. *)
Theorem sanitize_filename_idempotent (isspace : N → bool) (filename : str) :
  sanitize_filename isspace (sanitize_filename isspace filename)
  = sanitize_filename isspace filename.
Proof.
  destruct (sanitize_filename_parts isspace filename)
    as (cut & pre & post & Hcut & H200 & _ & Hvalid & _).
  set (r := sanitize_filename isspace filename) in *.
  rewrite Hcut in H200, Hvalid. rewrite !length_app in H200.
  apply Forall_app in Hvalid as [_ [Hvalid _]%Forall_app].
  assert (Hfixed : strip isspace r = r).
  { unfold r, sanitize_filename.
    match goal with |- strip _ (strip _ ?x) = _ =>
      destruct (strip_fixed isspace x) as [Hl Hr] end.
    unfold strip at 1. by rewrite Hr, Hl. }
  unfold sanitize_filename at 1. rewrite replace_all_absent by done.
  destruct (200 <? length r)%nat eqn:E; [apply Nat.ltb_lt in E; lia | done].
Qed.

(** ** Matching *)

Lemma starts_with_app (text s rest more : str) :
  starts_with text s = Some rest →
  starts_with text (s ++ more) = Some (rest ++ more) ∧ length rest ≤ length s.
Proof.
  revert s. induction text as [| c text IH]; intros s; cbn [starts_with].
  - intros [= ->]. done.
  - destruct s as [| x s]; [done |]. cbn [app starts_with length].
    destruct (N.eqb c x); [| done]. intros H. apply IH in H as [-> ?]. split; [done | lia].
Qed.

Lemma starts_with_Some (text s rest : str) :
  starts_with text s = Some rest ↔ s = text ++ rest.
Proof.
  revert s. induction text as [| c text IH]; intros s; cbn [starts_with app].
  - split; [by intros [= ->] | by intros ->].
  - destruct s as [| x s]; [done |].
    destruct (N.eqb_spec c x) as [-> | Hne].
    + rewrite IH. split; [by intros -> | by intros [= ->]].
    + split; [done | intros [= ? ?]; done].
Qed.

Lemma span_length (cls : N → bool) (s : str) : span cls s ≤ length s.
Proof.
  induction s as [| c s IH]; cbn [span length]; [done |].
  destruct (cls c); lia.
Qed.

Lemma span_app (cls : N → bool) (s more : str) : span cls s ≤ span cls (s ++ more).
Proof.
  induction s as [| c s IH]; cbn [span app]; [lia |].
  destruct (cls c); lia.
Qed.

Lemma span_take (cls : N → bool) (s : str) (n : nat) :
  n ≤ span cls s ↔ n ≤ length s ∧ Forall (λ c, cls c = true) (take n s).
Proof.
  revert n. induction s as [| c s IH]; intros n; cbn [span length].
  - rewrite take_nil. split; [intros ?; split; [done | constructor] | by intros [? _]].
  - destruct n as [| n]; [split; [intros _; split; [lia | constructor] | lia] |].
    cbn [take]. rewrite Forall_cons. destruct (cls c) eqn:E.
    + rewrite <- Nat.succ_le_mono, IH. rewrite <- Nat.succ_le_mono. tauto.
    + split; [lia | intros (_ & ? & _); congruence].
Qed.

(** Text that follows does not take away a way to match. *)
Lemma run_app (r : re) (more : str) :
  ∀ (s : str) (g : option str) (m : str * option str),
    m ∈ run r s g →
    (fst m ++ more, snd m) ∈ run r (s ++ more) g ∧ length (fst m) ≤ length s.
Proof.
  induction r as [text | a IHa b IHb | a IHa b IHb | a IHa | least cls | n cls | a IHa];
    intros s g m; cbn [run].
  - destruct (starts_with text s) as [rest |] eqn:E; [| by intros ?%elem_of_nil].
    intros ->%list_elem_of_singleton. apply starts_with_app with (more := more) in E as [-> ?].
    split; [by left | done].
  - intros Hm%list_elem_of_In. apply in_flat_map in Hm as (m1 & H1%list_elem_of_In & Hm).
    apply list_elem_of_In in Hm.
    apply IHa in H1 as [H1 Hl1]. apply IHb in Hm as [Hm Hl]. split; [| lia].
    apply list_elem_of_In, in_flat_map. exists (fst m1 ++ more, snd m1).
    split; by apply list_elem_of_In.
  - intros [Hm | Hm]%elem_of_app.
    + apply IHa in Hm as [? ?]. split; [| done]. apply elem_of_app. by left.
    + apply IHb in Hm as [? ?]. split; [| done]. apply elem_of_app. by right.
  - intros [Hm | ->%list_elem_of_singleton]%elem_of_app.
    + apply IHa in Hm as [? ?]. split; [| done]. apply elem_of_app. by left.
    + split; [| done]. apply elem_of_app. right. by left.
  - intros (k & -> & Hk)%list_elem_of_fmap. rewrite elem_of_reverse, elem_of_seq in Hk.
    pose proof (span_length cls s). pose proof (span_app cls s more). cbn [fst snd].
    split; [| rewrite length_drop; lia].
    apply list_elem_of_fmap. exists k. split.
    + rewrite drop_app_le by lia. done.
    + rewrite elem_of_reverse, elem_of_seq. lia.
  - pose proof (span_length cls s). pose proof (span_app cls s more).
    destruct (n <=? span cls s) eqn:E; [| by intros ?%elem_of_nil].
    apply Nat.leb_le in E. intros ->%list_elem_of_singleton. cbn [fst snd].
    split; [| rewrite length_drop; lia].
    rewrite (proj2 (Nat.leb_le _ _)) by lia. rewrite drop_app_le by lia. by left.
  - intros (m1 & -> & H1)%list_elem_of_fmap. apply IHa in H1 as [H1 Hl]. cbn [fst snd].
    split; [| done]. apply list_elem_of_fmap. exists (fst m1 ++ more, snd m1).
    split; [| done]. cbn [fst]. f_equal. f_equal. rewrite !length_app.
    replace (length s + length more - (length (fst m1) + length more))
      with (length s - length (fst m1)) by lia.
    rewrite take_app_le by lia. done.
Qed.

Lemma re_match_app (r : re) (s more : str) :
  is_Some (re_match r s) → is_Some (re_match r (s ++ more)).
Proof.
  unfold re_match. intros [m Hm]. apply head_Some_elem_of in Hm.
  apply run_app with (more := more) in Hm as [Hm _].
  destruct (run r (s ++ more) None); [by apply elem_of_nil in Hm | by eexists].
Qed.

(** X28: [is_valid_youtube_url] looks at the start of the text only:
    whatever is written after a link it accepts, it accepts the longer
    text as well. *)
Theorem is_valid_youtube_url_ignores_what_follows (wide : N → bool) (url more : str) :
  is_valid_youtube_url wide url = true →
  is_valid_youtube_url wide (url ++ more) = true.
Proof.
  unfold is_valid_youtube_url. rewrite !existsb_exists.
  intros (pattern & Hin & Hm). exists pattern. split; [done |].
  apply bool_decide_eq_true. apply bool_decide_eq_true in Hm. by apply re_match_app.
Qed.

Lemma is_valid_youtube_url_ignores_what_follows_witness :
  is_valid_youtube_url (λ _, false) (codes "https://youtu.be/abc" ++ codes "<script>") = true.
Proof.
  apply (is_valid_youtube_url_ignores_what_follows (λ _, false)
           (codes "https://youtu.be/abc") (codes "<script>")).
  reflexivity.
Defined.

(** ** [extract_video_id] *)

Lemma many_head (cls : N → bool) (s : str) (g : option str) :
  ∃ left, head (run (Many 0 cls) s g) = Some (left, g).
Proof.
  cbn [run]. rewrite Nat.sub_0_r. rewrite seq_S, reverse_app. cbn. by eexists.
Qed.

Lemma id_tail_run (rest : str) (g : option str) :
  if (11 <=? span id_char rest)%nat
  then ∃ left, head (run id_tail rest g) = Some (left, Some (take 11 rest))
  else run id_tail rest g = [].
Proof.
  unfold id_tail. cbn [run]. pose proof (span_length id_char rest) as Hlen.
  destruct (11 <=? span id_char rest)%nat eqn:E; [| done].
  apply Nat.leb_le in E. cbn [map flat_map fst snd]. rewrite app_nil_r.
  rewrite length_drop. replace (length rest - (length rest - 11)) with 11 by lia.
  apply many_head.
Qed.

Lemma lit_id_run (sep s : str) (g : option str) :
  run (Seq (Lit sep) id_tail) s g
  = match starts_with sep s with
    | Some rest => run id_tail rest g
    | None => []
    end.
Proof.
  cbn [run]. destruct (starts_with sep s); [| done]. cbn [flat_map fst snd].
  by rewrite app_nil_r.
Qed.

Lemma first_pattern_match (s : str) :
  match candidate s with
  | Some i => ∃ left, re_match (Seq (Alt (lit "v=") (lit "/")) id_tail) s = Some (left, Some i)
  | None => re_match (Seq (Alt (lit "v=") (lit "/")) id_tail) s = None
  end.
Proof.
  unfold re_match, candidate, id_after, lit.
  change (run (Seq (Alt (Lit (codes "v=")) (Lit (codes "/"))) id_tail) s None)
    with (flat_map (λ m, run id_tail (fst m) (snd m))
            (run (Lit (codes "v=")) s None ++ run (Lit (codes "/")) s None)).
  rewrite flat_map_app. cbn [run].
  destruct (starts_with (codes "v=") s) as [rest1 |] eqn:E1;
    destruct (starts_with (codes "/") s) as [rest2 |] eqn:E2.
  - apply starts_with_Some in E1, E2. rewrite E1 in E2. done.
  - cbn [flat_map fst snd app]. rewrite !app_nil_r.
    pose proof (id_tail_run rest1 None) as H1.
    destruct (11 <=? span id_char rest1)%nat; [done | by rewrite H1].
  - cbn [flat_map fst snd app]. rewrite !app_nil_r.
    pose proof (id_tail_run rest2 None) as H2.
    destruct (11 <=? span id_char rest2)%nat; [done | by rewrite H2].
  - done.
Qed.

Lemma later_pattern_match (sep s : str) :
  is_Some (re_match (Seq (Lit sep) (Group (Times 11 id_char))) s) →
  is_Some (id_after sep s).
Proof.
  unfold re_match, id_after. cbn [run].
  destruct (starts_with sep s) as [rest |]; [| by intros [? ?]].
  cbn [flat_map fst snd run]. destruct (11 <=? span id_char rest)%nat; [by eexists |].
  by intros [? ?].
Qed.

Lemma id_after_slash (pre s : str) :
  is_Some (id_after (pre ++ codes "/") s) →
  is_Some (candidate (drop (length pre) s)).
Proof.
  unfold candidate, id_after.
  destruct (starts_with (pre ++ codes "/") s) as [rest |] eqn:E; [| by intros [? ?]].
  apply starts_with_Some in E. subst s. rewrite <- (assoc_L (++)), drop_app_length.
  destruct (11 <=? span id_char rest)%nat eqn:Hspan; [| by intros [? ?]]. intros _.
  assert (E2 : starts_with (codes "/") (codes "/" ++ rest) = Some rest)
    by by apply starts_with_Some.
  rewrite E2, Hspan.
  destruct (starts_with (codes "v=") (codes "/" ++ rest)) as [rest1 |]; [| by eexists].
  destruct (11 <=? span id_char rest1)%nat; by eexists.
Qed.

Lemma re_search_None (r : re) (s : str) :
  re_search r s = None ↔ ∀ k, k ≤ length s → re_match r (drop k s) = None.
Proof.
  induction s as [| c s IH]; cbn [re_search length].
  - destruct (re_match r []) eqn:E.
    + split; [done |]. intros H. specialize (H 0 (le_n _)). cbn in H. congruence.
    + split; [| done]. intros _ k Hk. by rewrite drop_nil.
  - destruct (re_match r (c :: s)) eqn:E.
    + split; [done |]. intros H. specialize (H 0 (Nat.le_0_l _)). cbn in H. congruence.
    + rewrite IH. split.
      * intros H [| k] Hk; [done |]. cbn [drop]. apply H. lia.
      * intros H k Hk. apply (H (S k)). lia.
Qed.

Lemma re_search_Some (r : re) (s : str) (m : str * option str) :
  re_search r s = Some m →
  ∃ k, k ≤ length s ∧ re_match r (drop k s) = Some m
       ∧ ∀ j, j < k → re_match r (drop j s) = None.
Proof.
  induction s as [| c s IH]; cbn [re_search length].
  - destruct (re_match r []) eqn:E; [| done]. intros [= ->]. exists 0.
    split; [done |]. split; [done | lia].
  - destruct (re_match r (c :: s)) eqn:E.
    + intros [= ->]. exists 0. split; [lia |]. split; [done | lia].
    + intros (k & Hk & Hm & Hbefore)%IH. exists (S k). split; [lia |]. split; [done |].
      intros [| j] Hj; [done |]. cbn [drop]. apply Hbefore. lia.
Qed.

Lemma candidate_Some (s i : str) :
  candidate s = Some i →
  length i = 11 ∧ Forall (λ c, id_char c = true) i
  ∧ ∃ sep post, (sep = codes "v=" ∨ sep = codes "/") ∧ s = sep ++ i ++ post.
Proof.
  assert (Hone : ∀ sep, id_after sep s = Some i →
            length i = 11 ∧ Forall (λ c, id_char c = true) i
            ∧ ∃ post, s = sep ++ i ++ post).
  { intros sep. unfold id_after.
    destruct (starts_with sep s) as [rest |] eqn:E; [| done].
    apply starts_with_Some in E.
    destruct (11 <=? span id_char rest)%nat eqn:Hspan; [| done].
    apply Nat.leb_le, span_take in Hspan as [Hlen Hall]. intros [= <-].
    split; [rewrite length_take; lia |]. split; [done |].
    exists (drop 11 rest). by rewrite take_drop. }
  unfold candidate. destruct (id_after (codes "v=") s) as [j |] eqn:E.
  - intros [= ->]. apply Hone in E as (? & ? & post & ?).
    split; [done |]. split; [done |]. exists (codes "v="), post. split; [by left | done].
  - intros (? & ? & post & ?)%Hone.
    split; [done |]. split; [done |]. exists (codes "/"), post. split; [by right | done].
Qed.

Lemma candidate_None (sep i post : str) :
  sep = codes "v=" ∨ sep = codes "/" →
  length i = 11 → Forall (λ c, id_char c = true) i →
  candidate (sep ++ i ++ post) ≠ None.
Proof.
  intros Hsep Hlen Hall.
  assert (Hafter : id_after sep (sep ++ i ++ post) = Some i).
  { unfold id_after. rewrite (proj2 (starts_with_Some sep _ (i ++ post)) eq_refl).
    assert (Hspan : 11 ≤ span id_char (i ++ post)).
    { apply span_take. rewrite length_app. split; [lia |].
      rewrite take_app_le, firstn_all2 by lia. done. }
    apply Nat.leb_le in Hspan. rewrite Hspan.
    by rewrite take_app_le, firstn_all2 by lia. }
  unfold candidate. destruct Hsep as [-> | ->].
  - by rewrite Hafter.
  - rewrite Hafter. by destruct (id_after (codes "v=") _).
Qed.

Lemma candidate_here (sep i post : str) :
  sep = codes "v=" ∨ sep = codes "/" →
  length i = 11 → Forall (λ c, id_char c = true) i →
  candidate (sep ++ i ++ post) = Some i.
Proof.
  intros Hsep Hlen Hall.
  assert (Hafter : id_after sep (sep ++ i ++ post) = Some i).
  { unfold id_after. rewrite (proj2 (starts_with_Some sep _ (i ++ post)) eq_refl).
    assert (Hspan : 11 ≤ span id_char (i ++ post)).
    { apply span_take. rewrite length_app. split; [lia |].
      rewrite take_app_le, firstn_all2 by lia. done. }
    apply Nat.leb_le in Hspan. rewrite Hspan.
    by rewrite take_app_le, firstn_all2 by lia. }
  unfold candidate. destruct Hsep as [-> | ->].
  - by rewrite Hafter.
  - by rewrite Hafter.
Qed.

Lemma first_pattern_search (url : str) :
  match re_search (Seq (Alt (lit "v=") (lit "/")) id_tail) url with
  | Some m =>
      ∃ k i, group1 m = Some i ∧ candidate (drop k url) = Some i
             ∧ k ≤ length url
             ∧ ∀ j, j < k → candidate (drop j url) = None
  | None => ∀ k, candidate (drop k url) = None
  end.
Proof.
  destruct (re_search _ url) as [m |] eqn:E.
  - apply re_search_Some in E as (k & Hk & Hm & Hbefore).
    pose proof (first_pattern_match (drop k url)) as Hc.
    destruct (candidate (drop k url)) as [i |] eqn:Ec; [| congruence].
    destruct Hc as [left Hc]. rewrite Hc in Hm. injection Hm as <-. exists k, i.
    split; [done |]. split; [done |]. split; [done |].
    intros j Hj. pose proof (first_pattern_match (drop j url)) as Hcj.
    destruct (candidate (drop j url)) as [ij |]; [| done].
    destruct Hcj as [leftj Hcj]. rewrite (Hbefore j Hj) in Hcj. done.
  - intros k. pose proof (proj1 (re_search_None _ _) E) as Hnone.
    destruct (decide (k ≤ length url)) as [Hk | Hk].
    + pose proof (first_pattern_match (drop k url)) as Hc.
      destruct (candidate (drop k url)) as [i |]; [| done].
      destruct Hc as [left Hc]. rewrite (Hnone k Hk) in Hc. done.
    + by rewrite drop_ge by lia.
Qed.

Lemma later_pattern_search (pre url : str) :
  (∀ k, candidate (drop k url) = None) →
  re_search (Seq (Lit (pre ++ codes "/")) (Group (Times 11 id_char))) url = None.
Proof.
  intros Hnone. apply re_search_None. intros k _.
  destruct (re_match _ (drop k url)) as [m |] eqn:E; [| done].
  assert (Hsome : is_Some (candidate (drop (length pre) (drop k url)))).
  { apply id_after_slash, later_pattern_match. by rewrite E. }
  rewrite drop_drop, Hnone in Hsome. by destruct Hsome.
Qed.

(** X29: only the first of the three patterns of [extract_video_id] ever
    decides what it returns.  What it returns is the eleven id characters
    after the first [v=] or [/] that is followed by eleven of them: no
    such place starts earlier in the text.  It returns None exactly when
    the text has no such place. *)
Theorem extract_video_id_first_pattern_decides (url : str) :
  extract_video_id url = first_found (take 1 id_patterns) url
  ∧ (∀ i, extract_video_id url = Some i →
          length i = 11 ∧ Forall (λ c, id_char c = true) i
          ∧ ∃ pre sep post,
              (sep = codes "v=" ∨ sep = codes "/") ∧ url = pre ++ sep ++ i ++ post
              ∧ ∀ pre' sep' i' post',
                  sep' = codes "v=" ∨ sep' = codes "/" →
                  length i' = 11 → Forall (λ c, id_char c = true) i' →
                  url = pre' ++ sep' ++ i' ++ post' →
                  length pre ≤ length pre'
                  ∧ (length pre' = length pre → sep' = sep ∧ i' = i))
  ∧ (extract_video_id url = None ↔
       ∀ pre sep i post,
         sep = codes "v=" ∨ sep = codes "/" →
         length i = 11 → Forall (λ c, id_char c = true) i →
         url ≠ pre ++ sep ++ i ++ post).
Proof.
  pose proof (first_pattern_search url) as Hfirst.
  unfold extract_video_id, id_patterns. cbn [take first_found].
  change (Seq (Group (Times 11 id_char)) (Many 0 not_newline)) with id_tail.
  destruct (re_search (Seq (Alt (lit "v=") (lit "/")) id_tail) url) as [m |].
  - destruct Hfirst as (k & i & Hg & Hc & Hk & Hbefore). rewrite Hg.
    pose proof Hc as Hhere.
    apply candidate_Some in Hc as (Hlen & Hall & sep & post & Hsep & Hurl).
    assert (Hsplit : url = take k url ++ sep ++ i ++ post)
      by by rewrite <- Hurl, take_drop.
    assert (Hpre : length (take k url) = k) by (rewrite length_take; lia).
    split; [done |]. split.
    + intros ? [= <-]. split; [done |]. split; [done |]. exists (take k url), sep, post.
      split; [done |]. split; [done |].
      intros pre' sep' i' post' Hsep' Hlen' Hall' Hurl'. rewrite Hpre.
      assert (Hthere : candidate (drop (length pre') url) = Some i').
      { rewrite Hurl', drop_app_length. by apply candidate_here. }
      split.
      * destruct (decide (length pre' < k)) as [Hlt | ?]; [| lia].
        rewrite (Hbefore _ Hlt) in Hthere. done.
      * intros Heq. rewrite Heq, Hhere in Hthere. injection Hthere as <-.
        split; [| done].
        rewrite <- Heq, Hurl', drop_app_length in Hurl.
        destruct Hsep as [-> | ->], Hsep' as [-> | ->]; done.
    + split; [done |]. intros H. by destruct (H (take k url) sep i post).
  - rewrite (later_pattern_search (codes "embed") url Hfirst : re_search (Seq (lit "embed/") _) url = None).
    rewrite (later_pattern_search (codes "youtu.be") url Hfirst : re_search (Seq (lit "youtu.be/") _) url = None).
    split; [done |]. split; [done |]. split; [| done].
    intros _ pre sep i post Hsep Hlen Hall ->.
    specialize (Hfirst (length pre)). rewrite drop_app_length in Hfirst.
    by apply (candidate_None sep i post).
Qed.

(** ** Links to one video *)

Lemma id_char_word (wide : N → bool) (c : N) :
  id_char c = true → word_or_hyphen wide c = true.
Proof.
  unfold id_char, word_or_hyphen. intros H.
  destruct (c =? 45)%N eqn:E45; [by rewrite orb_true_r |]. rewrite orb_false_r in H |- *.
  assert (Hlt : (c <? 128)%N = true).
  { apply N.ltb_lt.
    repeat (apply orb_true_iff in H as [H | H]);
      try (apply andb_true_iff in H as [_ H%N.leb_le]; lia).
    apply N.eqb_eq in H. lia. }
  by rewrite Hlt.
Qed.

Lemma re_search_first (r : re) (s : str) (k : nat) (m : str * option str) :
  (∀ j, j < k → re_match r (drop j s) = None) →
  re_match r (drop k s) = Some m →
  k ≤ length s →
  re_search r s = Some m.
Proof.
  revert s. induction k as [| k IH]; intros s Hbefore Hm Hk.
  - rewrite drop_0 in Hm. destruct s; cbn [re_search]; by rewrite Hm.
  - destruct s as [| c s]; [cbn in Hk; lia |]. cbn [re_search].
    rewrite (Hbefore 0 (Nat.lt_0_succ _) : re_match r (c :: s) = None).
    apply IH; [| done | cbn in Hk; lia].
    intros j Hj. apply (Hbefore (S j)). lia.
Qed.

Lemma video_prefix_valid (cls : N → bool) (prefix : str) (c : N) :
  prefix ∈ video_prefixes → cls c = true →
  ∃ pattern,
    pattern ∈ [Seq scheme (Seq www (Seq (lit "youtube.com/watch?v=") (Many 1 cls)));
               Seq scheme (Seq (lit "youtu.be/") (Many 1 cls))]
    ∧ is_Some (re_match pattern (prefix ++ [c])).
Proof.
  intros Hin Hc. unfold video_prefixes in Hin.
  repeat (apply elem_of_cons in Hin as [-> | Hin]); [.. | by apply elem_of_nil in Hin].
  1-5: (eexists; split; [by left |]; unfold re_match; vm_compute; rewrite Hc; by eexists).
  all: (eexists; split; [right; by left |]; unfold re_match; vm_compute; rewrite Hc; by eexists).
Qed.

Lemma video_prefix_clear (prefix tail : str) :
  prefix ∈ video_prefixes →
  ∃ pre sep,
    prefix = pre ++ sep
    ∧ (sep = codes "v=" ∨ sep = codes "/")
    ∧ ∀ j, j < length pre → candidate (drop j (pre ++ sep ++ tail)) = None.
Proof.
  intros Hin. unfold video_prefixes in Hin.
  assert (Hwatch : ∀ pre,
            pre ∈ [codes "https://www.youtube.com/watch?"; codes "http://www.youtube.com/watch?";
                   codes "https://youtube.com/watch?"; codes "www.youtube.com/watch?";
                   codes "youtube.com/watch?"; codes "https://youtu.be"; codes "youtu.be"] →
            ∀ sep j, j < length pre → candidate (drop j (pre ++ sep ++ tail)) = None).
  { intros pre Hpre sep j Hj.
    repeat (apply elem_of_cons in Hpre as [-> | Hpre]); [.. | by apply elem_of_nil in Hpre];
      vm_compute in Hj;
      do 31 (destruct j as [| j]; [first [lia | vm_compute; reflexivity] |]); lia. }
  repeat (apply elem_of_cons in Hin as [-> | Hin]); [.. | by apply elem_of_nil in Hin].
  - exists (codes "https://www.youtube.com/watch?"), (codes "v=").
    split; [done |]. split; [by left |]. apply Hwatch. by left.
  - exists (codes "http://www.youtube.com/watch?"), (codes "v=").
    split; [done |]. split; [by left |]. apply Hwatch. right. by left.
  - exists (codes "https://youtube.com/watch?"), (codes "v=").
    split; [done |]. split; [by left |]. apply Hwatch. do 2 right. by left.
  - exists (codes "www.youtube.com/watch?"), (codes "v=").
    split; [done |]. split; [by left |]. apply Hwatch. do 3 right. by left.
  - exists (codes "youtube.com/watch?"), (codes "v=").
    split; [done |]. split; [by left |]. apply Hwatch. do 4 right. by left.
  - exists (codes "https://youtu.be"), (codes "/").
    split; [done |]. split; [by right |]. apply Hwatch. do 5 right. by left.
  - exists (codes "youtu.be"), (codes "/").
    split; [done |]. split; [by right |]. apply Hwatch. do 6 right. by left.
Qed.

(** X30: a link to one video, in any of the usual forms and with an id of
    eleven id characters, is accepted by [is_valid_youtube_url], and
    [extract_video_id] gives the id back, whatever follows the id. *)
Theorem video_link_round_trip (wide : N → bool) (prefix i more : str) :
  prefix ∈ video_prefixes →
  length i = 11 →
  Forall (λ c, id_char c = true) i →
  is_valid_youtube_url wide (prefix ++ i ++ more) = true
  ∧ extract_video_id (prefix ++ i ++ more) = Some i.
Proof.
  intros Hin Hlen Hall. split.
  - destruct i as [| c i']; [done |]. apply Forall_cons in Hall as [Hc _].
    destruct (video_prefix_valid (word_or_hyphen wide) prefix c Hin (id_char_word wide c Hc))
      as (pattern & Hp & Hm).
    apply re_match_app with (more := i' ++ more) in Hm.
    rewrite <- (assoc_L (++)) in Hm. cbn [app] in Hm.
    unfold is_valid_youtube_url. apply existsb_exists. exists pattern. split.
    + unfold url_patterns.
      apply elem_of_cons in Hp as [-> | Hp]; [by left |].
      apply list_elem_of_singleton in Hp as ->. do 2 right. by left.
    + by apply bool_decide_eq_true.
  - destruct (video_prefix_clear prefix (i ++ more) Hin) as (pre & sep & -> & Hsep & Hclear).
    rewrite <- (assoc_L (++)).
    set (url := pre ++ sep ++ i ++ more) in *.
    assert (Hhere : candidate (drop (length pre) url) = Some i).
    { unfold url. rewrite drop_app_length. by apply candidate_here. }
    pose proof (first_pattern_match (drop (length pre) url)) as Hm.
    rewrite Hhere in Hm. destruct Hm as [left Hm].
    unfold extract_video_id, id_patterns. cbn [first_found].
    change (Seq (Group (Times 11 id_char)) (Many 0 not_newline)) with id_tail.
    rewrite (re_search_first _ url (length pre) (left, Some i)); [done | | done |].
    + intros j Hj. pose proof (first_pattern_match (drop j url)) as Hj'.
      by rewrite (Hclear j Hj) in Hj'.
    + unfold url. rewrite length_app. lia.
Qed.

Lemma video_link_round_trip_witness :
  is_valid_youtube_url (λ _, false)
    (codes "https://youtu.be/" ++ codes "dQw4w9WgXcQ" ++ codes "?t=42") = true
  ∧ extract_video_id (codes "https://youtu.be/" ++ codes "dQw4w9WgXcQ" ++ codes "?t=42")
    = Some (codes "dQw4w9WgXcQ").
Proof.
  apply (video_link_round_trip (λ _, false) (codes "https://youtu.be/")
           (codes "dQw4w9WgXcQ") (codes "?t=42")).
  - do 5 right. left.
  - reflexivity.
  - apply (bool_decide_unpack _). vm_compute. exact I.
Defined.
